(** * julia-fractal.py: escape-time engine, viewport and parameter store

    A shallow embedding of [julia-fractal.py].  The module-level functions
    ([complex_grid], [iterate], [fractal]) are pure functions; the methods of
    [App] are computations in a small state-and-exception monad over a record
    that holds the attributes of [self], the texts of the Gtk entries and a log
    of the drawing requests.

    The program computes with Python floats and calls a few primitives whose
    code is not part of the file (float arithmetic, [int()], [float()],
    [str.format], complex [pow]).  They are collected in the class [Runtime];
    all definitions and all general theorems are stated for an arbitrary
    [Runtime].  Two instances are given: [binary64] (IEEE 754 double precision,
    the arithmetic the program really runs on) and [exact] (rational numbers,
    the arithmetic without rounding). *)

From Stdlib Require Import ZArith QArith Qcanon Lia Bool List Ascii String.
From Stdlib Require Import PrimFloat SpecFloat FloatOps.
From stdpp Require Import gmap strings list pretty.

Open Scope Z_scope.

(** ** Exceptions and runtime primitives *)

Inductive exn :=
  | ValueError
  | OverflowError
  | TypeError
  | UnboundLocalError (name : string)
  | AttributeError (name : string)
  | KeyError (key : string).

Record complex (F : Type) := Complex { real : F; imag : F }.
Arguments Complex {F} _ _.
Arguments real {F} _.
Arguments imag {F} _.

(** Float arithmetic: [of_Z] is the conversion of an int to a float, [fneg]
    the unary minus, [fltb] and [feqb] are [<] and [==]. *)
Class Arith := {
  F : Type;
  of_Z : Z -> F;
  fadd : F -> F -> F;
  fsub : F -> F -> F;
  fmul : F -> F -> F;
  fdiv : F -> F -> F;
  fneg : F -> F;
  fltb : F -> F -> bool;
  feqb : F -> F -> bool
}.

Declare Scope float_ops_scope.
Delimit Scope float_ops_scope with fl.
Infix "+" := fadd : float_ops_scope.
Infix "-" := fsub : float_ops_scope.
Infix "*" := fmul : float_ops_scope.
Infix "/" := fdiv : float_ops_scope.
Infix "<?" := fltb : float_ops_scope.
Infix "=?" := feqb : float_ops_scope.

Section Numbers.
Context `{A : Arith}.

Local Abbreviation cx := (complex F).

(** [x > y] and [x >= y] on floats. *)
Definition fgtb (x y : F) : bool := (y <? x)%fl.
Definition fgeb (x y : F) : bool := ((y <? x) || (y =? x))%fl.

(** [x**2] with a literal exponent: the product [x*x]. *)
Definition fsq (x : F) : F := (x * x)%fl.

(** A decimal literal [m / 10^d] of the source, such as [0.75] or [1.5]. *)
Definition lit (m : Z) (d : nat) : F := (of_Z m / of_Z (10 ^ Z.of_nat d))%fl.

Definition cadd (a b : cx) : cx :=
  Complex (real a + real b)%fl (imag a + imag b)%fl.

Definition cmul (a b : cx) : cx :=
  Complex (real a * real b - imag a * imag b)%fl
          (real a * imag b + imag a * real b)%fl.

Definition cdiv (a b : cx) : cx :=
  let d := (real b * real b + imag b * imag b)%fl in
  Complex ((real a * real b + imag a * imag b) / d)%fl
          ((imag a * real b - real a * imag b) / d)%fl.

(** [complex(x)] for a float [x], and the literal [1j]. *)
Definition cfloat (x : F) : cx := Complex x (of_Z 0).
Definition c1j : cx := Complex (of_Z 0) (of_Z 1).

(** An integer power as a product of factors [z], by repeated squaring
    ([z*z] for the exponent 2); the reciprocal for a negative exponent. *)
Definition cpow_int (z : cx) (n : Z) : cx :=
  match n with
  | Z0 => cfloat (of_Z 1)
  | Zpos p => Pos.iter_op cmul p z
  | Zneg p => cdiv (cfloat (of_Z 1)) (Pos.iter_op cmul p z)
  end.

End Numbers.

(** The Python and NumPy library calls of the program.
    - [py_int x] is [int(x)] on a float: the truncation, or the exception
      [int] raises (ValueError on NaN, OverflowError on an infinity);
    - [py_float s] is [float(s)], [None] standing for ValueError;
    - [fmt_repr x] is ["{0}".format(x)] and [fmt_fixed x d] is
      ["{0:.{1}f}".format(x, d)] on a float;
    - [cpow z n] is [pow(z, n)] on a complex number and an int. *)
Class Runtime := {
  arith :: Arith;
  py_int : F -> exn + Z;
  py_float : string -> option F;
  fmt_repr : F -> string;
  fmt_fixed : F -> nat -> string;
  cpow : complex F -> Z -> complex F
}.

Section Engine.
Context `{R : Runtime}.

Local Abbreviation cx := (complex F).

(** ** [iterate] *)

(** [range(n)]: the ints [0 .. n-1], empty when [n <= 0]. *)
Definition range (n : Z) : list Z := map Z.of_nat (seq 0 (Z.to_nat n)).

(** The bailout test of the loop body, [z.imag**2 + z.real**2 > zmax2]. *)
Definition escaped (z : cx) (zmax2 : F) : bool :=
  fgtb (fsq (imag z) + fsq (real z))%fl zmax2.

(** The [for] loop of [iterate] over the remaining indices [ks], started with
    the loop variable holding [k] ([None] for a variable that holds nothing);
    [break] leaves the loop with the current index. *)
Fixpoint iterate_loop (C : cx) (n : Z) (zmax2 : F)
    (ks : list Z) (z : cx) (k : option Z) : option Z :=
  match ks with
  | [] => k
  | k' :: ks' =>
      let z' := cadd (cpow z n) C in
      if escaped z' zmax2 then Some k'
      else iterate_loop C n zmax2 ks' z' (Some k')
  end.

(** [iterate(z, C, n, zmax, niter)].  The function is compiled by Numba in
    nopython mode ([@jit(..., nopython=True)]) and only runs compiled: every
    variable is zero-initialised, so [k] holds [0] before the loop and
    [return k] gives [0] when the body never runs. *)
Definition iterate (z C : cx) (n : Z) (zmax : F) (niter : Z) : option Z :=
  let zmax2 := fsq zmax in
  iterate_loop C n zmax2 (range niter) z (Some 0).

(** The value of [z] after [m] applications of [z -> z^n + C]. *)
Definition orbit (z0 C : cx) (n : Z) (m : nat) : cx :=
  Nat.iter m (fun z => cadd (cpow z n) C) z0.

(** The orbit is outside the bailout radius after the [(k+1)]-th application. *)
Definition escapes_at (z0 C : cx) (n : Z) (zmax : F) (k : Z) : bool :=
  escaped (orbit z0 C n (S (Z.to_nat k))) (fsq zmax).

End Engine.

(** ** NumPy helpers and the grid *)

Definition res (A : Type) : Type := exn + A.

Definition res_bind {A B} (m : res A) (f : A -> res B) : res B :=
  match m with inl e => inl e | inr a => f a end.

Fixpoint res_mapM {A B} (f : A -> res B) (l : list A) : res (list B) :=
  match l with
  | [] => inr []
  | a :: l' =>
      res_bind (f a) (fun b => res_bind (res_mapM f l') (fun bs => inr (b :: bs)))
  end.

Section Grid.
Context `{R : Runtime}.

Local Abbreviation cx := (complex F).

(** [np.linspace(start, stop, num)] with the default [endpoint=True]:
    [arange(num) * step + start] with [step = (stop - start) / (num - 1)],
    the last sample overwritten by [stop]; a negative [num] is rejected. *)
Definition linspace_at (start stop : F) (num i : Z) : F :=
  let div := num - 1 in
  let delta := (stop - start)%fl in
  if (1 <? num) && (i =? div) then stop
  else
    let y := of_Z i in
    let scaled :=
      if 0 <? div then
        let step := (delta / of_Z div)%fl in
        if (step =? of_Z 0)%fl then ((y / of_Z div) * delta)%fl
        else (y * step)%fl
      else (y * delta)%fl in
    (scaled + start)%fl.

Definition linspace (start stop : F) (num : Z) : res (list F) :=
  if num <? 0 then inl ValueError
  else inr (map (linspace_at start stop num) (range num)).

(** [np.meshgrid(x, y)]: both results have one row per element of [y]. *)
Definition meshgrid (x y : list F) : list (list F) * list (list F) :=
  (map (fun _ => x) y, map (fun yj => map (fun _ => yj) x) y).

(** [xx + 1j*yy], elementwise on two arrays of the same shape. *)
Definition grid_point (x y : F) : cx := cadd (cfloat x) (cmul c1j (cfloat y)).

Definition complex_grid (xlim ylim : F * F) (nx ny : Z) : res (list (list cx)) :=
  res_bind (linspace (fst xlim) (snd xlim) nx) (fun x =>
  res_bind (linspace (fst ylim) (snd ylim) ny) (fun y =>
  let '(xx, yy) := meshgrid x y in
  inr (zip_with (zip_with grid_point) xx yy))).

(** [np.interp(x, [x0, x1], [y0, y1])], as NumPy evaluates it on two sample
    points: NaN is passed through, positions outside the samples take the
    boundary values, and the segment is interpolated from its left end. *)
Definition is_nan (x : F) : bool := negb (x =? x)%fl.

Definition np_interp (x x0 x1 y0 y1 : F) : F :=
  if is_nan x then x
  else if fgtb x x1 then y1
  else if (x <? x0)%fl then y0
  else if fgeb x x1 then y1
  else if (x0 =? x)%fl then y0
  else
    let slope := ((y1 - y0) / (x1 - x0))%fl in
    let r := (slope * (x - x0) + y0)%fl in
    if is_nan r then
      let r' := (slope * (x - x1) + y1)%fl in
      if is_nan r' && (y0 =? y1)%fl then y0 else r'
    else r.

(** ** [fractal]: the vectorised [iterate] *)

(** An argument of a NumPy ufunc: a scalar or a two-dimensional array. *)
Inductive nd (A : Type) :=
  | Scalar (a : A)
  | Array2 (rows : list (list A)).
Arguments Scalar {A} _.
Arguments Array2 {A} _.

(** One element of the ufunc: [iterate]; a missing result would be an error,
    but the compiled [iterate] always has one. *)
Definition fractal_at (n : Z) (zmax : F) (niter : Z) (z C : cx) : res Z :=
  match iterate z C n zmax niter with
  | Some k => inr k
  | None => inl (UnboundLocalError "k")
  end.

(** [fractal(zz, C, n, zmax, niter)] for scalar [n], [zmax], [niter]: a scalar
    argument is broadcast against the array argument.  Two arrays are combined
    elementwise and must have the same shape. *)
Definition same_shape {A B} (a : list (list A)) (b : list (list B)) : bool :=
  bool_decide (map length a = map length b).

Definition fractal (zz C : nd cx) (n : Z) (zmax : F) (niter : Z) : res (nd Z) :=
  let f := fractal_at n zmax niter in
  match zz, C with
  | Scalar z, Scalar c => res_bind (f z c) (fun k => inr (Scalar k))
  | Array2 g, Scalar c =>
      res_bind (res_mapM (res_mapM (fun z => f z c)) g) (fun m => inr (Array2 m))
  | Scalar z, Array2 g =>
      res_bind (res_mapM (res_mapM (fun c => f z c)) g) (fun m => inr (Array2 m))
  | Array2 g, Array2 h =>
      if same_shape g h then
        res_bind (res_mapM (fun '(r, s) => res_mapM (fun '(z, c) => f z c) (zip r s))
                    (zip g h))
                 (fun m => inr (Array2 m))
      else inl ValueError
  end.

End Grid.

Arguments Scalar {A} _.
Arguments Array2 {A} _.

(** ** The application state *)

(** A Python number held in an attribute of [self]. *)
Inductive value `{R : Runtime} :=
  | VInt (z : Z)
  | VFloat (x : F).
Arguments VInt {R} z.
Arguments VFloat {R} x.

(** What the handlers ask of the canvas and of standard output.  [Preview]
    stands for the pair of [Rectangle] patches of one position and size (a
    white one and a dotted black one) that the motion handler puts on the
    axes in place of the previous pair. *)
Inductive effect `{R : Runtime} :=
  | Print (text : string)
  | Imshow (img : nd Z) (cmap : string) (extent : list value)
  | Preview (x y w h : value)
  | DrawIdle.
Arguments Print {R} text.
Arguments Imshow {R} img cmap extent.
Arguments Preview {R} x y w h.
Arguments DrawIdle {R}.

(** [attrs] holds the numeric attributes of [self] by name (the parameters,
    their [_default] copies and the pointer positions); [entries] lists the
    keys of [self.entries] in insertion order and [texts] gives the text of the
    entry widget of each name; [mode] is the active text of [namecombo];
    [has_fig] tells whether [self.fig] exists. *)
Record app `{R : Runtime} := App {
  attrs : gmap string value;
  cmap : string;
  entries : list string;
  texts : gmap string string;
  mode : string;
  has_fig : bool;
  log : list effect
}.
Arguments App {R} _ _ _ _ _ _ _.

(** A pointer event: position, button number and modifier state. *)
Record pointer `{R : Runtime} := Pointer {
  ev_x : F;
  ev_y : F;
  ev_button : Z;
  ev_state : Z
}.
Arguments Pointer {R} _ _ _ _.

(** Computations on the application state that may raise. *)
Definition M `{R : Runtime} (A : Type) : Type := app -> res A * app.

#[export] Instance M_ret `{R : Runtime} : MRet M := fun A a st => (inr a, st).
#[export] Instance M_bind `{R : Runtime} : MBind M := fun A B f m st =>
  match m st with
  | (inr a, st') => f a st'
  | (inl e, st') => (inl e, st')
  end.

Section Application.
Context `{R : Runtime}.

Definition raise {A} (e : exn) : M A := fun st => (inl e, st).
Definition lift {A} (r : res A) : M A := fun st => (r, st).
Definition get_state : M app := fun st => (inr st, st).
Definition put_attrs (a : gmap string value) : M unit := fun st =>
  (inr tt, App a (cmap st) (entries st) (texts st) (mode st) (has_fig st) (log st)).
Definition put_cmap (c : string) : M unit := fun st =>
  (inr tt, App (attrs st) c (entries st) (texts st) (mode st) (has_fig st) (log st)).
Definition put_entries (l : list string) : M unit := fun st =>
  (inr tt, App (attrs st) (cmap st) l (texts st) (mode st) (has_fig st) (log st)).
Definition put_texts (t : gmap string string) : M unit := fun st =>
  (inr tt, App (attrs st) (cmap st) (entries st) t (mode st) (has_fig st) (log st)).
Definition put_mode (m : string) : M unit := fun st =>
  (inr tt, App (attrs st) (cmap st) (entries st) (texts st) m (has_fig st) (log st)).
Definition put_fig : M unit := fun st =>
  (inr tt, App (attrs st) (cmap st) (entries st) (texts st) (mode st) true (log st)).
Definition emit (e : effect) : M unit := fun st =>
  (inr tt, App (attrs st) (cmap st) (entries st) (texts st) (mode st) (has_fig st)
               (log st ++ [e])).

(** [getattr(self, name)] and [setattr(self, name, v)]. *)
Definition getattr (name : string) : M value :=
  st ← get_state;
  match attrs st !! name with
  | Some v => mret v
  | None => raise (AttributeError name)
  end.

Definition setattr (name : string) (v : value) : M unit :=
  st ← get_state; put_attrs (<[name := v]> (attrs st)).

(** [entry.get_text()] and [entry.set_text(s)] for the entry called [name];
    a new entry is empty. *)
Definition text_of (st : app) (name : string) : string :=
  default "" (texts st !! name).

Definition get_text (name : string) : M string :=
  st ← get_state; mret (text_of st name).

Definition set_text (name s : string) : M unit :=
  st ← get_state; put_texts (<[name := s]> (texts st)).

(** A [for] loop over a list. *)
Fixpoint for_each {A} (l : list A) (body : A -> M unit) : M unit :=
  match l with
  | [] => mret tt
  | a :: l' => body a;; for_each l' body
  end.

(** Arithmetic on Python numbers: ints stay ints, anything else is a float. *)
Definition to_float (v : value) : F :=
  match v with VInt z => of_Z z | VFloat x => x end.

Definition py_sub (a b : value) : value :=
  match a, b with
  | VInt x, VInt y => VInt (x - y)
  | _, _ => VFloat (to_float a - to_float b)%fl
  end.

Definition py_add (a b : value) : value :=
  match a, b with
  | VInt x, VInt y => VInt (x + y)
  | _, _ => VFloat (to_float a + to_float b)%fl
  end.

Definition py_neg (a : value) : value :=
  match a with
  | VInt x => VInt (- x)
  | VFloat x => VFloat (fneg x)
  end.

(** [a == b] on numbers. *)
Definition py_eqb (a b : value) : bool :=
  match a, b with
  | VInt x, VInt y => x =? y
  | _, _ => (to_float a =? to_float b)%fl
  end.

(** [int(v)]. *)
Definition int_of (v : value) : res Z :=
  match v with VInt z => inr z | VFloat x => py_int x end.

End Application.

(** ** Methods of [App] *)

Inductive dtype := DInt | DFloat.

Section Methods.
Context `{R : Runtime}.

Definition py_mul (a b : value) : value :=
  match a, b with
  | VInt x, VInt y => VInt (x * y)
  | _, _ => VFloat (to_float a * to_float b)%fl
  end.

(** [a / b]; the only divisor in the program is the literal [2.0]. *)
Definition py_div (a b : value) : value := VFloat (to_float a / to_float b)%fl.

(** An int where NumPy or the compiled [fractal] needs one. *)
Definition as_int (v : value) : res Z :=
  match v with VInt z => inr z | VFloat _ => inl TypeError end.

Definition digits : nat := 12.

(** [s.rstrip("0")]. *)
Fixpoint lstrip0 (s : string) : string :=
  match s with
  | String "0"%char s' => lstrip0 s'
  | _ => s
  end.

Definition rstrip0 (s : string) : string := String.rev (lstrip0 (String.rev s)).

(** The text [set_entry_value] computes for a value. *)
Definition value_str (v : value) : res string :=
  res_bind (int_of v) (fun i =>
    if py_eqb (VInt i) v then
      inr match v with VInt z => pretty z | VFloat x => fmt_repr x end
    else
      inr (rstrip0 (fmt_fixed (to_float v) digits))).

Definition set_entry_value (name : string) : M unit :=
  value ← getattr name;
  value_str ← lift (value_str value);
  set_text name value_str.

(** [self.entries[name]]: the entry widget, identified by its name. *)
Definition entry_of (name : string) : M string :=
  st ← get_state;
  if bool_decide (name ∈ entries st) then mret name else raise (KeyError name).

(** The body of [get_entry_value] after the text has been read: [float(text)],
    then [int(val)] for an int field; a ValueError of either gives [None]. *)
Definition parse_entry (text : string) (dt : dtype) : res (option value) :=
  match py_float text with
  | None => inr None
  | Some val =>
      match dt with
      | DFloat => inr (Some (VFloat val))
      | DInt =>
          match py_int val with
          | inr z => inr (Some (VInt z))
          | inl ValueError => inr None
          | inl e => inl e
          end
      end
  end.

Definition get_entry_value (name : string) (dt : dtype) : M (option value) :=
  text ← get_text name;
  lift (parse_entry text dt).

Definition Julia : string := "Julia".
Definition Mandelbrot : string := "Mandelbrot".

Definition compute_image : M (option (nd Z)) :=
  x ← getattr "x"; y ← getattr "y";
  let C := Complex (to_float x) (to_float y) in
  xmin ← getattr "xmin"; xmax ← getattr "xmax";
  ymin ← getattr "ymin"; ymax ← getattr "ymax";
  xsize ← getattr "xsize"; ysize ← getattr "ysize";
  nx ← lift (as_int xsize); ny ← lift (as_int ysize);
  zz ← lift (complex_grid (to_float xmin, to_float xmax)
                          (to_float ymin, to_float ymax) nx ny);
  st ← get_state;
  if bool_decide (mode st = Julia) then
    n ← getattr "n"; zmax ← getattr "zmax"; niter ← getattr "niter";
    n ← lift (as_int n); niter ← lift (as_int niter);
    img ← lift (fractal (Array2 zz) (Scalar C) n (to_float zmax) niter);
    mret (Some img)
  else if bool_decide (mode st = Mandelbrot) then
    n ← getattr "n"; zmax ← getattr "zmax"; niter ← getattr "niter";
    n ← lift (as_int n); niter ← lift (as_int niter);
    img ← lift (fractal (Scalar C) (Array2 zz) n (to_float zmax) niter);
    mret (Some img)
  else mret None.

Definition display_image : M unit :=
  img ← compute_image;
  st ← get_state;
  if has_fig st then
    xmin ← getattr "xmin"; xmax ← getattr "xmax";
    ymin ← getattr "ymin"; ymax ← getattr "ymax";
    match img with
    | Some a => emit (Imshow a (cmap st) [xmin; xmax; ymin; ymax])
    | None => raise TypeError
    end
  else raise (AttributeError "fig").

Definition dtype_of (name : string) : dtype :=
  if bool_decide (name ∈ ["n"; "niter"; "xsize"; "ysize"]) then DInt else DFloat.

Definition update_image : M unit :=
  st ← get_state;
  for_each (entries st) (fun name =>
    val ← get_entry_value name (dtype_of name);
    match val with
    | Some v => setattr name v
    | None => mret tt
    end);;
  st ← get_state;
  for_each (entries st) set_entry_value;;
  display_image;;
  emit DrawIdle.

Definition on_button_save_clicked : M unit := mret tt.

Definition on_cmapcombo_changed (name : string) : M unit :=
  put_cmap name;;
  st ← get_state;
  if has_fig st then display_image;; emit DrawIdle else mret tt.

Definition on_namecombo_changed : M unit :=
  st ← get_state;
  let text := mode st in
  emit (Print text);;
  (if bool_decide (text = Mandelbrot) then
     setattr "x" (VInt 0);;
     setattr "y" (VInt 0);;
     ex ← entry_of "x"; set_entry_value ex;;
     ey ← entry_of "y"; set_entry_value ey
   else mret tt);;
  st ← get_state;
  if has_fig st then update_image else mret tt.

Definition on_button_apply_clicked : M unit := update_image.

Definition on_button_reset_clicked : M unit :=
  st ← get_state;
  for_each (entries st) (fun name =>
    d ← getattr (name +:+ "_default");
    setattr name d;;
    set_entry_value name).

(** [np.interp(p, [0, size-1], [lo, hi])]: the plane coordinate of the pixel
    coordinate [p] on an axis of [size] pixels showing [lo .. hi]. *)
Definition interp_pixel (p : F) (size lo hi : value) : F :=
  np_interp p (of_Z 0) (to_float (py_sub size (VInt 1))) (to_float lo) (to_float hi).

Definition plane_x (p : F) : M value :=
  xsize ← getattr "xsize"; xmin ← getattr "xmin"; xmax ← getattr "xmax";
  mret (VFloat (interp_pixel p xsize xmin xmax)).

Definition plane_y (p : F) : M value :=
  ysize ← getattr "ysize"; ymin ← getattr "ymin"; ymax ← getattr "ymax";
  mret (VFloat (interp_pixel p ysize ymin ymax)).

(** The dictionary [mapping = {1: 0.75, 3: 1.5}]. *)
Definition mapping (button : Z) : option F :=
  if button =? 1 then Some (lit 75 2)
  else if button =? 3 then Some (lit 15 1)
  else None.

(** The branch of [on_canvas_button_release] on the kind of gesture: a click
    (press and current position equal) zooms about the pointer by [factor], a
    drag selects the box between the two positions.  The test compares the
    numbers; the tuple comparison of the source also holds for positions that
    are one and the same object, which differs from it for a NaN only (a NaN
    position right after a press). *)
Definition release_bounds (factor : F) (event : pointer) : M unit :=
  posx1 ← getattr "posx1"; posy1 ← getattr "posy1";
  posx2 ← getattr "posx2"; posy2 ← getattr "posy2";
  if py_eqb posx1 posx2 && py_eqb posy1 posy2 then
    xc ← plane_x (ev_x event);
    yc ← plane_y (ev_y event);
    xmax ← getattr "xmax"; xmin ← getattr "xmin";
    let xlen := py_mul (VFloat factor) (py_sub xmax xmin) in
    ymax ← getattr "ymax"; ymin ← getattr "ymin";
    let ylen := py_mul (VFloat factor) (py_sub ymax ymin) in
    setattr "xmin" (py_sub xc (py_div xlen (VFloat (lit 20 1))));;
    setattr "xmax" (py_add xc (py_div xlen (VFloat (lit 20 1))));;
    setattr "ymin" (py_sub yc (py_div ylen (VFloat (lit 20 1))));;
    setattr "ymax" (py_add yc (py_div ylen (VFloat (lit 20 1))))
  else
    setattr "xmin" posx1;;
    setattr "xmax" posx2;;
    setattr "ymin" posy1;;
    setattr "ymax" posy2.

Definition on_canvas_button_release (event : pointer) : M unit :=
  match mapping (ev_button event) with
  | Some factor =>
      release_bounds factor event;;
      st ← get_state;
      for_each (entries st) set_entry_value
  | None => mret tt
  end;;
  update_image.

(** [Gdk.EventMask.BUTTON_PRESS_MASK] and [Gdk.ModifierType.CONTROL_MASK]. *)
Definition BUTTON_PRESS_MASK : Z := Z.shiftl 1 8.
Definition CONTROL_MASK : Z := Z.shiftl 1 2.

Definition on_canvas_motion_notify (event : pointer) : M unit :=
  px ← plane_x (ev_x event); setattr "posx2" px;;
  py ← plane_y (ev_y event); setattr "posy2" py;;
  if negb (Z.land (ev_state event) BUTTON_PRESS_MASK =? 0) then
    (if negb (Z.land (ev_state event) CONTROL_MASK =? 0) then
       posy1 ← getattr "posy1"; posx2 ← getattr "posx2"; posx1 ← getattr "posx1";
       setattr "posy2" (py_sub (py_add posy1 posx2) posx1)
     else mret tt);;
    posx2 ← getattr "posx2"; ymax ← getattr "ymax"; ymin ← getattr "ymin";
    posy2 ← getattr "posy2"; posx1 ← getattr "posx1"; posy1 ← getattr "posy1";
    emit (Preview posx2 (py_sub (py_add ymax ymin) posy2)
                  (py_sub posx1 posx2) (py_neg (py_sub posy1 posy2)));;
    emit DrawIdle
  else mret tt.

Definition on_canvas_button_press (event : pointer) : M unit :=
  px ← plane_x (ev_x event); setattr "posx1" px;;
  py ← plane_y (ev_y event); setattr "posy1" py;;
  posx1 ← getattr "posx1"; setattr "posx2" posx1;;
  posy1 ← getattr "posy1"; setattr "posy2" posy1.

(** ** Start-up *)

(** [create_labeled_entry]: a new, empty entry under [name]. *)
Definition create_labeled_entry (name : string) : M unit :=
  st ← get_state;
  put_entries (entries st ++ [name]);;
  set_text name "".

Definition setup_left_box : M unit :=
  put_mode Julia;;
  on_namecombo_changed;;
  for_each ["n"; "x"; "y"; "zmax"; "niter"] create_labeled_entry.

(** [cmaps] is the sorted list of colormap names; the first one is selected. *)
Definition setup_right_box (cmaps : list string) : M unit :=
  for_each ["xmin"; "xmax"; "ymin"; "ymax"; "xsize"; "ysize"] create_labeled_entry;;
  match cmaps with
  | c :: _ => on_cmapcombo_changed c
  | [] => mret tt
  end.

Definition setup_image_box : M unit := put_fig.

Definition setup_interface (cmaps : list string) : M unit :=
  setup_left_box;;
  setup_right_box cmaps;;
  st ← get_state;
  for_each (entries st) (fun name =>
    v ← getattr name;
    setattr (name +:+ "_default") v;;
    set_entry_value name);;
  setup_image_box.

Definition App_init (cmaps : list string) : M unit :=
  setattr "xsize" (VInt 600);; setattr "ysize" (VInt 600);;
  setattr "xmin" (VFloat (fneg (lit 15 1)));; setattr "xmax" (VFloat (lit 15 1));;
  setattr "ymin" (VFloat (fneg (lit 15 1)));; setattr "ymax" (VFloat (lit 15 1));;
  setattr "x" (VFloat (fneg (lit 4 1)));; setattr "y" (VFloat (lit 6 1));;
  setattr "n" (VInt 2);;
  setattr "zmax" (VFloat (lit 40 1));;
  setattr "niter" (VInt 256);;
  put_cmap "Set3";;
  setup_interface cmaps;;
  display_image.

(** The object before [__init__] has run. *)
Definition blank : app := App ∅ "" [] ∅ "" false [].

(** ** The event loop *)

Inductive event :=
  | TypeEntry (name text : string)
  | ClickApply
  | ClickReset
  | ClickSave
  | SelectMode (text : string)
  | SelectCmap (name : string)
  | ButtonPress (p : pointer)
  | MotionNotify (p : pointer)
  | ButtonRelease (p : pointer).

(** The handler Gtk calls for an event.  Typing into an entry and choosing an
    item of a combo box first change the widget. *)
Definition handle (ev : event) : M unit :=
  match ev with
  | TypeEntry name text => e ← entry_of name; set_text e text
  | ClickApply => on_button_apply_clicked
  | ClickReset => on_button_reset_clicked
  | ClickSave => on_button_save_clicked
  | SelectMode text => put_mode text;; on_namecombo_changed
  | SelectCmap name => on_cmapcombo_changed name
  | ButtonPress p => on_canvas_button_press p
  | MotionNotify p => on_canvas_motion_notify p
  | ButtonRelease p => on_canvas_button_release p
  end.

(** The main loop reports an exception of a handler and goes on. *)
Definition step (st : app) (ev : event) : app := snd (handle ev st).

Definition run (evs : list event) (st : app) : app := foldl step st evs.

End Methods.

(** ** Decimal texts *)

(** Reading and printing of decimal numerals, shared by the two instances of
    [Runtime] below.  [read] follows the grammar of [float()] on ASCII text:
    blanks around the numeral, a sign, [inf], [infinity] or [nan] in any case,
    or digits with an optional fraction and an optional exponent.  (Digit
    grouping with underscores, which [float()] also accepts, is not read.) *)
Module DecimalText.

Inductive parsed :=
  | PNan
  | PInf (neg : bool)
  | PNum (neg : bool) (m : N) (e10 : Z).

Definition is_blank (c : ascii) : bool :=
  let n := nat_of_ascii c in
  (n =? 32)%nat || ((9 <=? n)%nat && (n <=? 13)%nat).

Fixpoint lstrip (s : string) : string :=
  match s with
  | String c s' => if is_blank c then lstrip s' else s
  | EmptyString => s
  end.

Definition strip (s : string) : string :=
  String.rev (lstrip (String.rev (lstrip s))).

Definition lower (c : ascii) : ascii :=
  let n := nat_of_ascii c in
  if (65 <=? n)%nat && (n <=? 90)%nat then ascii_of_nat (n + 32) else c.

Fixpoint lower_str (s : string) : string :=
  match s with
  | String c s' => String (lower c) (lower_str s')
  | EmptyString => EmptyString
  end.

Definition digit (c : ascii) : option N :=
  let n := N_of_ascii c in
  if (48 <=? n)%N && (n <=? 57)%N then Some (n - 48)%N else None.

(** The longest run of digits at the head of [s]: the number read onto [acc],
    how many digits there were, and the rest of the text. *)
Fixpoint digits_run (s : string) (acc : N) (cnt : nat) : N * nat * string :=
  match s with
  | String c s' =>
      match digit c with
      | Some d => digits_run s' (10 * acc + d)%N (S cnt)
      | None => (acc, cnt, s)
      end
  | EmptyString => (acc, cnt, s)
  end.

Definition sign (s : string) : bool * string :=
  match s with
  | String "-"%char s' => (true, s')
  | String "+"%char s' => (false, s')
  | _ => (false, s)
  end.

Definition exponent (s : string) : option Z :=
  match s with
  | EmptyString => Some 0
  | String c s' =>
      if bool_decide (lower c = "e"%char) then
        let '(neg, s'') := sign s' in
        let '(v, cnt, rest) := digits_run s'' 0%N 0%nat in
        if (0 <? cnt)%nat && bool_decide (rest = "") then
          Some (if neg then - Z.of_N v else Z.of_N v)
        else None
      else None
  end.

(** An underscore is accepted between two digits only, and is then skipped;
    [prev] tells whether the character before [s] is a digit. *)
Fixpoint underscores (prev : bool) (s : string) : option string :=
  match s with
  | EmptyString => Some EmptyString
  | String c s' =>
      if bool_decide (c = "_"%char) then
        match s' with
        | String d _ =>
            if prev && bool_decide (is_Some (digit d)) then underscores false s' else None
        | EmptyString => None
        end
      else option_map (String c) (underscores (bool_decide (is_Some (digit c))) s')
  end.

Definition read (text : string) : option parsed :=
  match underscores false (strip text) with
  | None => None
  | Some t =>
      let '(neg, s) := sign t in
      let l := lower_str s in
      if bool_decide (l = "nan") then Some PNan
      else if bool_decide (l = "inf") || bool_decide (l = "infinity") then Some (PInf neg)
      else
        let '(ip, n1, s1) := digits_run s 0%N 0%nat in
        let '(m, n2, s2) :=
          match s1 with
          | String "."%char s1' => digits_run s1' ip 0%nat
          | _ => (ip, 0%nat, s1)
          end in
        if (n1 + n2 =? 0)%nat then None
        else
          match exponent s2 with
          | Some e => Some (PNum neg m (e - Z.of_nat n2))
          | None => None
          end
  end.

(** The integer nearest to [num/den], ties to even. *)
Definition div_rne (num : N) (den : positive) : N :=
  let q := (num / Npos den)%N in
  let r := (num mod Npos den)%N in
  match (2 * r ?= Npos den)%N with
  | Lt => q
  | Gt => (q + 1)%N
  | Eq => if N.even q then q else (q + 1)%N
  end.

Fixpoint zeros (n : nat) : string :=
  match n with
  | O => ""
  | S n' => String "0"%char (zeros n')
  end.

Definition pad0 (w : nat) (s : string) : string :=
  zeros (w - String.length s) +:+ s.

(** ["%.df"] of the number [±num/den]. *)
Definition fixed (neg : bool) (num : N) (den : positive) (d : nat) : string :=
  let scaled := div_rne (num * 10 ^ N.of_nat d)%N den in
  let ip := (scaled / 10 ^ N.of_nat d)%N in
  let fp := (scaled mod 10 ^ N.of_nat d)%N in
  (if neg then "-" else "") +:+ pretty ip +:+
  (if (d =? 0)%nat then "" else "." +:+ pad0 d (pretty fp)).

(** The shortest-digits notation of [repr]: the decimal digits [ds] of a
    number whose decimal point stands after [decpt] of them. *)
Definition positional (ds : string) (decpt : Z) : string :=
  let len := Z.of_nat (String.length ds) in
  if decpt <=? 0 then "0." +:+ zeros (Z.to_nat (- decpt)) +:+ ds
  else if len <=? decpt then ds +:+ zeros (Z.to_nat (decpt - len)) +:+ ".0"
  else substring 0 (Z.to_nat decpt) ds +:+ "." +:+
       substring (Z.to_nat decpt) (Z.to_nat (len - decpt)) ds.

Definition scientific (ds : string) (decpt : Z) : string :=
  let e := decpt - 1 in
  let len := String.length ds in
  substring 0 1 ds +:+
  (if (1 <? len)%nat then "." +:+ substring 1 (len - 1) ds else "") +:+
  "e" +:+ (if e <? 0 then "-" else "+") +:+ pad0 2 (pretty (Z.abs e)).

Definition repr_digits (neg : bool) (ds : string) (decpt : Z) : string :=
  (if neg then "-" else "") +:+
  (if (-4 <? decpt) && (decpt <=? 16) then positional ds decpt
   else scientific ds decpt).

End DecimalText.

(** ** The instance [binary64]: IEEE 754 double precision *)

Module B64.
Import DecimalText.

Definition of_Z (z : Z) : float := SF2Prim (binary_normalize prec emax z 0 false).

(** The float nearest to [±num/den], ties to even. *)
Definition of_ratio (neg : bool) (num : N) (den : positive) : float :=
  match num with
  | N0 => if neg then neg_zero else zero
  | Npos p =>
      SF2Prim (SFdiv prec emax (S754_finite neg p 0) (S754_finite false den 0))
  end.

(** Sign and magnitude [num/den] of a finite float. *)
Definition ratio_of (x : float) : option (bool * N * positive) :=
  match Prim2SF x with
  | S754_zero s => Some (s, 0%N, 1%positive)
  | S754_finite s m e =>
      if 0 <=? e then Some (s, Npos m * 2 ^ Z.to_N e, 1%positive)%N
      else Some (s, Npos m, 2 ^ Z.to_pos (- e))%positive
  | _ => None
  end.

(** [int(x)]: truncation toward zero. *)
Definition to_int (x : float) : exn + Z :=
  match Prim2SF x with
  | S754_nan => inl ValueError
  | S754_infinity _ => inl OverflowError
  | S754_zero _ => inr 0
  | S754_finite s m e => inr (cond_Zopp s (Z.shiftl (Zpos m) e))
  end.

Definition of_parsed (p : parsed) : float :=
  match p with
  | PNan => nan
  | PInf neg => if neg then neg_infinity else infinity
  | PNum neg m e10 =>
      if 0 <=? e10 then of_ratio neg (m * 10 ^ Z.to_N e10) 1
      else of_ratio neg m (10 ^ Z.to_pos (- e10))
  end.

(** [float(text)]. *)
Definition of_text (text : string) : option float := of_parsed <$> read text.

(** ["{0:.{1}f}".format(x, d)]. *)
Definition to_fixed (x : float) (d : nat) : string :=
  match ratio_of x with
  | Some (neg, num, den) => fixed neg num den d
  | None =>
      if PrimFloat.is_nan x then "nan" else if (x <? zero)%float then "-inf" else "inf"
  end.

(** [floor(log10(num/den))] for [num > 0]. *)
Definition floor_log10 (num : N) (den : positive) : Z :=
  let e := Z.of_nat (String.length (pretty num))
           - Z.of_nat (String.length (pretty (Npos den))) in
  let ge :=
    if 0 <=? e then (Npos den * 10 ^ Z.to_N e <=? num)%N
    else (Npos den <=? num * 10 ^ Z.to_N (- e))%N in
  if ge then e else e - 1.

(** [num/den] in units of [10^s], rounded to the nearest integer. *)
Definition scaled (num : N) (den : positive) (s : Z) : N :=
  if 0 <=? s then div_rne num (den * 10 ^ Z.to_pos s)
  else div_rne (num * 10 ^ Z.to_N (- s)) den.

(** The first precision [p, p+1, ..] (at most [p + fuel] digits) at which the
    rounded decimal reads back as [x]. *)
Fixpoint shortest (x : float) (neg : bool) (num : N) (den : positive)
    (e : Z) (p : nat) (fuel : nat) : N * Z :=
  let s := e - Z.of_nat p + 1 in
  let d := scaled num den s in
  match fuel with
  | O => (d, s)
  | S fuel' =>
      if (of_parsed (PNum neg d s) =? x)%float then (d, s)
      else shortest x neg num den e (S p) fuel'
  end.

(** ["{0}".format(x)]: the shortest numeral that reads back as [x]. *)
Definition to_repr (x : float) : string :=
  match ratio_of x with
  | Some (neg, N0, _) => if neg then "-0.0" else "0.0"
  | Some (neg, num, den) =>
      let '(d, s) := shortest x neg num den (floor_log10 num den) 1 16 in
      let ds := pretty d in
      let decpt := Z.of_nat (String.length ds) + s in
      repr_digits neg (String.rev (lstrip0 (String.rev ds))) decpt
  | None =>
      if PrimFloat.is_nan x then "nan" else if (x <? zero)%float then "-inf" else "inf"
  end.

End B64.

Definition binary64_arith : Arith := {|
  F := float;
  of_Z := B64.of_Z;
  fadd := PrimFloat.add;
  fsub := PrimFloat.sub;
  fmul := PrimFloat.mul;
  fdiv := PrimFloat.div;
  fneg := PrimFloat.opp;
  fltb := PrimFloat.ltb;
  feqb := PrimFloat.eqb
|}.

Definition binary64 : Runtime := {|
  arith := binary64_arith;
  py_int := B64.to_int;
  py_float := B64.of_text;
  fmt_repr := B64.to_repr;
  fmt_fixed := B64.to_fixed;
  cpow := cpow_int
|}.

(** ** The instance [exact]: rational numbers, no rounding *)

(** The arithmetic of the program with every operation exact.  There are no
    infinities and no NaN: [inf] and [nan] are not numerals here, and a
    quotient by zero is [0]. *)
Module Exact.
Import DecimalText.

Definition of_Z (z : Z) : Qc := Q2Qc (inject_Z z).

Definition to_int (x : Qc) : exn + Z := inr (Z.quot (Qnum x) (Zpos (Qden x))).

Definition of_parsed (p : parsed) : option Qc :=
  match p with
  | PNum neg m e10 =>
      let q := if 0 <=? e10 then Q2Qc (inject_Z (Z.of_N m * 10 ^ e10))
               else Q2Qc (Z.of_N m # Z.to_pos (10 ^ (- e10))) in
      Some (if neg then (- q)%Qc else q)
  | _ => None
  end.

Definition of_text (text : string) : option Qc := read text ≫= of_parsed.

Definition to_fixed (x : Qc) (d : nat) : string :=
  fixed (Qnum x <? 0) (Z.abs_N (Qnum x)) (Qden x) d.

(** An integral number prints as its digits followed by [.0]; other numbers
    (which the program never prints this way) with 17 decimals. *)
Definition to_repr (x : Qc) : string :=
  if (Qden x =? 1)%positive then pretty (Qnum x) +:+ ".0"
  else to_fixed x 17.

End Exact.

Definition exact_arith : Arith := {|
  F := Qc;
  of_Z := Exact.of_Z;
  fadd := Qcplus;
  fsub := Qcminus;
  fmul := Qcmult;
  fdiv := Qcdiv;
  fneg := Qcopp;
  fltb := fun x y => bool_decide (x < y)%Qc;
  feqb := fun x y => bool_decide (x = y)
|}.

Definition exact : Runtime := {|
  arith := exact_arith;
  py_int := Exact.to_int;
  py_float := Exact.of_text;
  fmt_repr := Exact.to_repr;
  fmt_fixed := Exact.to_fixed;
  cpow := cpow_int
|}.

(** ** Vocabulary of the statements *)

(** Sample [i] of [np.linspace(start, stop, num)] written out for [num >= 2]:
    the last sample is [stop]; the others are [i*step + start] with
    [step = (stop - start)/(num - 1)] (NumPy multiplies [i/(num-1)] by the
    difference instead when [step] is zero). *)
Definition linspace_sample `{R : Runtime} (start stop : F) (num i : Z) : F :=
  if i =? num - 1 then stop
  else
    let step := ((stop - start) / of_Z (num - 1))%fl in
    ((if (step =? of_Z 0)%fl then (of_Z i / of_Z (num - 1)) * (stop - start)
      else of_Z i * step) + start)%fl.

(** The element of a two-dimensional array in row [j] and column [i]. *)
Definition cell {A} (m : list (list A)) (j i : nat) : option A :=
  row ← m !! j; row !! i.

(** Two arrays have the same shape and [P] relates their elements pairwise. *)
Definition pointwise {A B} (P : A -> B -> Prop)
    (a : list (list A)) (b : list (list B)) : Prop :=
  Forall2 (Forall2 P) a b.

(** The attributes [compute_image] reads. *)
Definition has_params `{R : Runtime} (st : app) (C : complex F) (xlim ylim : F * F)
    (nx ny n : Z) (zmax : F) (niter : Z) : Prop :=
  to_float <$> attrs st !! "x" = Some (real C) /\
  to_float <$> attrs st !! "y" = Some (imag C) /\
  to_float <$> attrs st !! "xmin" = Some xlim.1 /\
  to_float <$> attrs st !! "xmax" = Some xlim.2 /\
  to_float <$> attrs st !! "ymin" = Some ylim.1 /\
  to_float <$> attrs st !! "ymax" = Some ylim.2 /\
  attrs st !! "xsize" = Some (VInt nx) /\
  attrs st !! "ysize" = Some (VInt ny) /\
  attrs st !! "n" = Some (VInt n) /\
  to_float <$> attrs st !! "zmax" = Some zmax /\
  attrs st !! "niter" = Some (VInt niter).

(** A computation leaves its final state related to its initial state by
    [Rel], whether it returns or raises. *)
Definition preserves `{R : Runtime} {A} (Rel : relation app) (m : M A) : Prop :=
  forall st, Rel st (snd (m st)).

(** The component [f] of the state is unchanged. *)
Definition same `{R : Runtime} {X} (f : app -> X) : relation app :=
  fun st st' => f st' = f st.

(** Starting with all entries named in [K], the list of entries and the
    attributes other than those named in [K] are unchanged. *)
Definition within `{R : Runtime} (K : list string) : relation app :=
  fun st st' =>
    entries st ⊆ K ->
    entries st' = entries st /\ forall k, k ∉ K -> attrs st' !! k = attrs st !! k.

(** [get_entry_value] gets no value from [text]: the conversion raises. *)
Definition no_value `{R : Runtime} (text : string) (dt : dtype) : Prop :=
  forall v, parse_entry text dt <> inr (Some v).

(** [float(text)], or [int(float(text))] for an int field, raises ValueError. *)
Definition value_error `{R : Runtime} (text : string) (dt : dtype) : Prop :=
  py_float text = None \/
  (dt = DInt /\ exists x, py_float text = Some x /\ py_int x = inl ValueError).

(** The names of the eleven entries, in the order of their creation. *)
Definition fields : list string :=
  ["n"; "x"; "y"; "zmax"; "niter"; "xmin"; "xmax"; "ymin"; "ymax"; "xsize"; "ysize"].

(** A state of the running program: the start-up parameters on an 8 by 8
    canvas with three iterations. *)
Definition sample `{R : Runtime} : app :=
  App (list_to_map
         [("n", VInt 2); ("x", VFloat (fneg (lit 4 1))); ("y", VFloat (lit 6 1));
          ("zmax", VFloat (lit 40 1)); ("niter", VInt 3);
          ("xmin", VFloat (fneg (lit 15 1))); ("xmax", VFloat (lit 15 1));
          ("ymin", VFloat (fneg (lit 15 1))); ("ymax", VFloat (lit 15 1));
          ("xsize", VInt 8); ("ysize", VInt 8);
          ("n_default", VInt 2); ("x_default", VFloat (fneg (lit 4 1)));
          ("y_default", VFloat (lit 6 1)); ("zmax_default", VFloat (lit 40 1));
          ("niter_default", VInt 256);
          ("xmin_default", VFloat (fneg (lit 15 1))); ("xmax_default", VFloat (lit 15 1));
          ("ymin_default", VFloat (fneg (lit 15 1))); ("ymax_default", VFloat (lit 15 1));
          ("xsize_default", VInt 600); ("ysize_default", VInt 600)])
      "Accent" fields
      (list_to_map
         [("n", "2"); ("x", "-0.4"); ("y", "0.6"); ("zmax", "4.0"); ("niter", "3");
          ("xmin", "-1.5"); ("xmax", "1.5"); ("ymin", "-1.5"); ("ymax", "1.5");
          ("xsize", "8"); ("ysize", "8")])
      Julia true [].

(** The same state with the text [abc] typed into the entry [zmax]. *)
Definition sample_typo `{R : Runtime} : app := step sample (TypeEntry "zmax" "abc").

(** A pointer event at the pixel [(x, y)]. *)
Definition at_pixel `{R : Runtime} (x y button state : Z) : pointer :=
  Pointer (of_Z x) (of_Z y) button state.

(** Gestures on [sample] with button 1 held (modifier state 256): a drag from
    the pixel [(7, 7)] to the pixel [(0, 0)], a drag from [(1, 2)] to [(5, 6)],
    and a press on the pixel [(1, 1)]. *)
Definition dragging_back `{R : Runtime} : app :=
  run [ButtonPress (at_pixel 7 7 1 0); MotionNotify (at_pixel 0 0 0 256)] sample.

Definition dragging_in `{R : Runtime} : app :=
  run [ButtonPress (at_pixel 1 2 1 0); MotionNotify (at_pixel 5 6 0 256)] sample.

Definition clicking `{R : Runtime} : app :=
  run [ButtonPress (at_pixel 1 1 1 0)] sample.

(** The number zero, as the int [0] or as the float [0.0]. *)
Definition is_zero `{R : Runtime} (v : value) : Prop :=
  v = VInt 0 \/ v = VFloat (of_Z 0).

(** The attributes [x] and [y], the components of [C], are zero. *)
Definition C_is_zero `{R : Runtime} (st : app) : Prop :=
  exists vx vy, attrs st !! "x" = Some vx /\ is_zero vx /\
                attrs st !! "y" = Some vy /\ is_zero vy.

(** A request to show an image. *)
Definition is_imshow `{R : Runtime} (e : effect) : bool :=
  match e with Imshow _ _ _ => true | _ => false end.

(** The number of images the canvas was asked to show. *)
Definition redisplays `{R : Runtime} (st : app) : nat :=
  length (filter (fun e => is_imshow e = true) (log st)).

(** The positions recorded by the press and the motion handlers. *)
Definition gesture `{R : Runtime} (st : app) (x1 y1 x2 y2 : value) : Prop :=
  attrs st !! "posx1" = Some x1 /\ attrs st !! "posy1" = Some y1 /\
  attrs st !! "posx2" = Some x2 /\ attrs st !! "posy2" = Some y2.

(** The test [(posx1, posy1) == (posx2, posy2)] of the release handler. *)
Definition is_click `{R : Runtime} (x1 y1 x2 y2 : value) : bool :=
  py_eqb x1 x2 && py_eqb y1 y2.

(** The values of the four bounds, and the numbers they stand for. *)
Definition bounds `{R : Runtime} (st : app) (xmin xmax ymin ymax : value) : Prop :=
  attrs st !! "xmin" = Some xmin /\ attrs st !! "xmax" = Some xmax /\
  attrs st !! "ymin" = Some ymin /\ attrs st !! "ymax" = Some ymax.

Definition viewport `{R : Runtime} (st : app) (xmin xmax ymin ymax : F) : Prop :=
  to_float <$> attrs st !! "xmin" = Some xmin /\
  to_float <$> attrs st !! "xmax" = Some xmax /\
  to_float <$> attrs st !! "ymin" = Some ymin /\
  to_float <$> attrs st !! "ymax" = Some ymax.

(** [min(a, b)] and [max(a, b)] of Python on two floats. *)
Definition fmin `{A : Arith} (a b : F) : F := if (b <? a)%fl then b else a.
Definition fmax `{A : Arith} (a b : F) : F := if fgtb b a then b else a.

(** [a < b] holds and [b < a] does not. *)
Definition below `{A : Arith} (a b : F) : Prop :=
  (a <? b)%fl = true /\ (b <? a)%fl = false.

(** The rectangle of [st'] is the rectangle of [st] scaled by [factor] in
    width and in height and centred at [(xc, yc)]. *)
Definition zoomed `{R : Runtime} (st st' : app) (factor xc yc : F) : Prop :=
  exists xmin xmax ymin ymax a b c d,
    viewport st xmin xmax ymin ymax /\ viewport st' a b c d /\
    (b - a = factor * (xmax - xmin))%fl /\ (d - c = factor * (ymax - ymin))%fl /\
    ((a + b) / of_Z 2 = xc)%fl /\ ((c + d) / of_Z 2 = yc)%fl.

(** The attributes the event handlers assign: the eleven fields and the
    pointer positions. *)
Definition assigned : list string :=
  fields ++ ["posx1"; "posy1"; "posx2"; "posy2"].

(** The values [__init__] gives to the eleven fields. *)
Definition startup `{R : Runtime} : list (string * value) :=
  [("n", VInt 2); ("x", VFloat (fneg (lit 4 1))); ("y", VFloat (lit 6 1));
   ("zmax", VFloat (lit 40 1)); ("niter", VInt 256);
   ("xmin", VFloat (fneg (lit 15 1))); ("xmax", VFloat (lit 15 1));
   ("ymin", VFloat (fneg (lit 15 1))); ("ymax", VFloat (lit 15 1));
   ("xsize", VInt 600); ("ysize", VInt 600)].

(** [set_entry_value] can print the value: [int(v)] is defined. *)
Definition printable `{R : Runtime} (v : value) : Prop :=
  exists s, value_str v = inr s.

(** The state holds the start-up snapshot: the eleven entries exist and every
    [_default] attribute has the value [__init__] gave to its field. *)
Definition snapshot_taken `{R : Runtime} (st : app) : Prop :=
  entries st = fields /\
  forall name v, (name, v) ∈ startup -> attrs st !! (name +:+ "_default") = Some v.

(** Every field has the value of its [_default] attribute. *)
Definition fields_at_defaults `{R : Runtime} (st : app) : Prop :=
  forall name, name ∈ fields ->
    exists v, attrs st !! (name +:+ "_default") = Some v /\ attrs st !! name = Some v.

(** The attributes and the entry texts when [setup_interface] comes to take
    the snapshot: the values of [__init__] and eleven empty entries. *)
Definition startup_attrs `{R : Runtime} : gmap string value :=
  <["niter" := VInt 256]> (<["zmax" := VFloat (lit 40 1)]> (<["n" := VInt 2]>
  (<["y" := VFloat (lit 6 1)]> (<["x" := VFloat (fneg (lit 4 1))]>
  (<["ymax" := VFloat (lit 15 1)]> (<["ymin" := VFloat (fneg (lit 15 1))]>
  (<["xmax" := VFloat (lit 15 1)]> (<["xmin" := VFloat (fneg (lit 15 1))]>
  (<["ysize" := VInt 600]> (<["xsize" := VInt 600]> ∅)))))))))).

Definition startup_texts : gmap string string :=
  foldl (fun m name => <[name := ""%string]> m) ∅ fields.

(** The sizes and the bounds the pointer handlers read. *)
Definition canvas `{R : Runtime} (st : app) (xsize ysize xmin xmax ymin ymax : value) : Prop :=
  attrs st !! "xsize" = Some xsize /\ attrs st !! "ysize" = Some ysize /\
  attrs st !! "xmin" = Some xmin /\ attrs st !! "xmax" = Some xmax /\
  attrs st !! "ymin" = Some ymin /\ attrs st !! "ymax" = Some ymax.

(** [two_point_interp], and the two methods that call it; they read [xmin]
    (or [ymin]) for both ends of the target range. *)
Definition two_point_interp `{R : Runtime} (xp x1 x2 y1 y2 : F) : F :=
  np_interp xp x1 x2 y1 y2.

Definition transform_x `{R : Runtime} (xval : F) : M value :=
  xsize ← getattr "xsize"; xmin ← getattr "xmin"; xmin' ← getattr "xmin";
  mret (VFloat (two_point_interp xval (of_Z 0) (to_float (py_sub xsize (VInt 1)))
                                 (to_float xmin) (to_float xmin'))).

Definition transform_y `{R : Runtime} (yval : F) : M value :=
  ysize ← getattr "ysize"; ymin ← getattr "ymin"; ymin' ← getattr "ymin";
  mret (VFloat (two_point_interp yval (of_Z 0) (to_float (py_sub ysize (VInt 1)))
                                 (to_float ymin) (to_float ymin'))).

(** What an entry gives back for [v]: the number [float] reads from the text
    [set_entry_value] writes for [v] (at most 12 decimals); [v] itself when
    [v] has no text or the text is not a number. *)
Definition shown `{R : Runtime} (v : value) : value :=
  match value_str v with
  | inr s => match py_float s with Some r => VFloat r | None => v end
  | inl _ => v
  end.

(** The four bounds have entries, as they have from start-up on. *)
Definition bound_entries `{R : Runtime} (st : app) : Prop :=
  "xmin" ∈ entries st /\ "xmax" ∈ entries st /\
  "ymin" ∈ entries st /\ "ymax" ∈ entries st.

(** None of the positions is a NaN. *)
Definition numbers `{R : Runtime} (x1 y1 x2 y2 : value) : Prop :=
  is_nan (to_float x1) = false /\ is_nan (to_float y1) = false /\
  is_nan (to_float x2) = false /\ is_nan (to_float y2) = false.

(** * Properties *)

(** ** Running a computation step by step *)

Section MonadFacts.
Context `{R : Runtime}.

Lemma bind_ret {A B} (a : A) (f : A -> M B) (st : app) : (mret a ≫= f) st = f a st.
Proof. done. Qed.

Lemma bind_raise {A B} (e : exn) (f : A -> M B) (st : app) :
  (raise e ≫= f) st = (inl e, st).
Proof. done. Qed.

Lemma bind_lift {A B} (r : res A) (f : A -> M B) (st : app) :
  (lift r ≫= f) st = match r with inr a => f a st | inl e => (inl e, st) end.
Proof. by destruct r. Qed.

Lemma bind_get_state {B} (f : app -> M B) (st : app) : (get_state ≫= f) st = f st st.
Proof. done. Qed.

Lemma bind_getattr {B} (name : string) (f : value -> M B) (st : app) :
  (getattr name ≫= f) st =
  match attrs st !! name with
  | Some v => f v st
  | None => (inl (AttributeError name), st)
  end.
Proof.
  unfold getattr, get_state, raise, mbind, M_bind, mret, M_ret.
  by destruct (attrs st !! name).
Qed.

Lemma bind_assoc {A B C} (m : M A) (f : A -> M B) (g : B -> M C) (st : app) :
  ((m ≫= f) ≫= g) st = (m ≫= (fun a => f a ≫= g)) st.
Proof. unfold mbind, M_bind. by destruct (m st) as [[e|a] st']. Qed.

Lemma bind_setattr {B} (k : string) (v : value) (f : unit -> M B) (st : app) :
  (setattr k v ≫= f) st =
  f tt (App (<[k := v]> (attrs st)) (cmap st) (entries st) (texts st) (mode st)
            (has_fig st) (log st)).
Proof. done. Qed.

Lemma bind_set_text {B} (k s : string) (f : unit -> M B) (st : app) :
  (set_text k s ≫= f) st =
  f tt (App (attrs st) (cmap st) (entries st) (<[k := s]> (texts st)) (mode st)
            (has_fig st) (log st)).
Proof. done. Qed.

Lemma bind_emit {B} (e : effect) (f : unit -> M B) (st : app) :
  (emit e ≫= f) st =
  f tt (App (attrs st) (cmap st) (entries st) (texts st) (mode st) (has_fig st)
            (log st ++ [e])).
Proof. done. Qed.

Lemma bind_put_cmap {B} (c : string) (f : unit -> M B) (st : app) :
  (put_cmap c ≫= f) st =
  f tt (App (attrs st) c (entries st) (texts st) (mode st) (has_fig st) (log st)).
Proof. done. Qed.

Lemma bind_put_entries {B} (l : list string) (f : unit -> M B) (st : app) :
  (put_entries l ≫= f) st =
  f tt (App (attrs st) (cmap st) l (texts st) (mode st) (has_fig st) (log st)).
Proof. done. Qed.

Lemma bind_put_fig {B} (f : unit -> M B) (st : app) :
  (put_fig ≫= f) st =
  f tt (App (attrs st) (cmap st) (entries st) (texts st) (mode st) true (log st)).
Proof. done. Qed.

Lemma bind_put_mode {B} (m : string) (f : unit -> M B) (st : app) :
  (put_mode m ≫= f) st =
  f tt (App (attrs st) (cmap st) (entries st) (texts st) m (has_fig st) (log st)).
Proof. done. Qed.

Lemma bind_entry_of {B} (name : string) (f : string -> M B) (st : app) :
  (entry_of name ≫= f) st =
  if bool_decide (name ∈ entries st) then f name st else (inl (KeyError name), st).
Proof.
  unfold entry_of. rewrite bind_assoc, bind_get_state.
  by case_bool_decide.
Qed.

End MonadFacts.

(** Symbolic execution of a computation: the binds are run one after the
    other, attribute reads are resolved from the hypotheses. *)
Ltac mrun :=
  repeat first
    [ rewrite bind_ret | rewrite bind_raise | rewrite bind_get_state
    | rewrite bind_getattr | rewrite bind_lift | rewrite bind_assoc
    | rewrite bind_setattr | rewrite bind_set_text | rewrite bind_emit
    | rewrite bind_put_mode | rewrite bind_put_cmap | rewrite bind_put_entries
    | rewrite bind_put_fig | rewrite bind_entry_of
    | match goal with
      | H : attrs ?st !! ?n = _ |- context [attrs ?st !! ?n] => rewrite H
      end
    | progress cbv beta iota
    | progress cbn [attrs cmap entries texts mode has_fig log] ].


(** ** The escape-time evaluator *)

Section EngineFacts.
Context `{R : Runtime}.

Local Abbreviation cx := (complex F).

Lemma range_length (n : Z) : length (range n) = Z.to_nat n.
Proof. unfold range. by rewrite length_map, length_seq. Qed.

Lemma range_lookup (n i : Z) : 0 <= i < n -> range n !! Z.to_nat i = Some i.
Proof.
  intros Hi. unfold range. rewrite list_lookup_fmap, lookup_seq_lt by lia.
  simpl. f_equal. lia.
Qed.

(** What the loop returns when it runs over the indices [a, a+1, ..] from the
    value [z]: the first index at which the next value is outside the radius,
    or else the last index (or [k0] when there is no index at all). *)
Lemma iterate_loop_spec (C : cx) (n : Z) (zmax2 : F) (len : nat) :
  forall (a : nat) (z : cx) (k0 : option Z),
    let out := fun i => escaped (Nat.iter (S i) (fun z => cadd (cpow z n) C) z) zmax2 in
    let r := iterate_loop C n zmax2 (map Z.of_nat (seq a len)) z k0 in
    (len = 0%nat /\ r = k0) \/
    (exists j, (j < len)%nat /\ r = Some (Z.of_nat (a + j)) /\
               out j = true /\ forall i, (i < j)%nat -> out i = false) \/
    ((0 < len)%nat /\ r = Some (Z.of_nat (a + len - 1)) /\
     forall i, (i < len)%nat -> out i = false).
Proof.
  induction len as [|len IH]; intros a z k0; cbv zeta.
  - left. by split.
  - right. cbn [seq map iterate_loop].
    destruct (escaped (cadd (cpow z n) C) zmax2) eqn:Hesc.
    + left. exists 0%nat. split_and!; [lia | f_equal; lia | done | intros; lia].
    + destruct (IH (S a) (cadd (cpow z n) C) (Some (Z.of_nat a)))
        as [[-> Hr] | [(j & Hj & Hr & Hout & Hin) | (Hpos & Hr & Hin)]].
      * right. split_and!; [lia | rewrite Hr; f_equal; lia |].
        intros i Hi. replace i with 0%nat by lia. done.
      * left. exists (S j). split_and!; [lia | rewrite Hr; f_equal; lia | |].
        -- rewrite Nat.iter_succ_r. exact Hout.
        -- intros [|i] Hi; [done |]. rewrite Nat.iter_succ_r. apply Hin. lia.
      * right. split_and!; [lia | rewrite Hr; f_equal; lia |].
        intros [|i] Hi; [done |]. rewrite Nat.iter_succ_r. apply Hin. lia.
Qed.

Lemma iterate_spec (z0 C : cx) (n : Z) (zmax : F) (niter : Z) :
  1 <= niter ->
  exists k, iterate z0 C n zmax niter = Some k /\ 0 <= k <= niter - 1 /\
    ((escapes_at z0 C n zmax k = true /\
      forall j, 0 <= j < k -> escapes_at z0 C n zmax j = false) \/
     (k = niter - 1 /\
      forall j, 0 <= j < niter -> escapes_at z0 C n zmax j = false)).
Proof.
  intros Hn. unfold iterate, range, escapes_at, orbit.
  destruct (iterate_loop_spec C n (fsq zmax) (Z.to_nat niter) 0 z0 (Some 0))
    as [[H0 _] | [(j & Hj & Hr & Hout & Hin) | (Hpos & Hr & Hin)]]; [lia | |].
  - exists (Z.of_nat j). rewrite Hr. split; [f_equal; lia |]. split; [lia |].
    left. rewrite Nat2Z.id. split; [done |].
    intros i Hi. apply Hin. lia.
  - exists (niter - 1). rewrite Hr. split; [f_equal; lia |]. split; [lia |].
    right. split; [done |]. intros i Hi. apply Hin. lia.
Qed.

Lemma iterate_zero_initialised (z0 C : cx) (n : Z) (zmax : F) (niter : Z) :
  niter <= 0 -> iterate z0 C n zmax niter = Some 0.
Proof.
  intros Hn. unfold iterate, range.
  replace (Z.to_nat niter) with 0%nat by lia. done.
Qed.

End EngineFacts.

(** C1. With [niter >= 1], [iterate] returns the smallest index [k] of
    [0 .. niter-1] at which the value after the [(k+1)]-th application of
    [z -> z^n + C] has [z.re^2 + z.im^2 > zmax^2], and [niter-1] when there is
    no such index; the result lies in [0 .. niter-1].  In double precision,
    [iterate(0+0j, 0+0j, 2, 4, 256)] is [255]. *)
Theorem iterate_first_escape :
  (forall (R : Runtime) (z0 C : complex F) (n : Z) (zmax : F) (niter : Z),
     1 <= niter ->
     exists k, iterate z0 C n zmax niter = Some k /\ 0 <= k <= niter - 1 /\
       ((escapes_at z0 C n zmax k = true /\
         forall j, 0 <= j < k -> escapes_at z0 C n zmax j = false) \/
        (k = niter - 1 /\
         forall j, 0 <= j < niter -> escapes_at z0 C n zmax j = false))) /\
  @iterate binary64 (Complex (of_Z 0) (of_Z 0)) (Complex (of_Z 0) (of_Z 0))
                    2 (of_Z 4) 256 = Some 255.
Proof.
  split.
  - intros R z0 C n zmax niter Hn. by apply iterate_spec.
  - vm_compute. reflexivity.
Qed.

Lemma iterate_first_escape_witness :
  1 <= 256 /\
  exists k, @iterate binary64 (Complex (of_Z 0) (of_Z 2)) (Complex (of_Z 1) (of_Z 0))
                     2 (of_Z 4) 256 = Some k /\ 0 <= k <= 256 - 1 /\
    ((@escapes_at binary64 (Complex (of_Z 0) (of_Z 2)) (Complex (of_Z 1) (of_Z 0))
                  2 (of_Z 4) k = true /\
      forall j, 0 <= j < k ->
        @escapes_at binary64 (Complex (of_Z 0) (of_Z 2)) (Complex (of_Z 1) (of_Z 0))
                    2 (of_Z 4) j = false) \/
     (k = 256 - 1 /\
      forall j, 0 <= j < 256 ->
        @escapes_at binary64 (Complex (of_Z 0) (of_Z 2)) (Complex (of_Z 1) (of_Z 0))
                    2 (of_Z 4) j = false)).
Proof.
  split; [lia |].
  apply (proj1 iterate_first_escape binary64); lia.
Defined.

(** C10, as the code has it.  The value [iterate] returns is the loop
    variable.  With [niter >= 1] the loop body runs, so [iterate] returns an
    integer, which lies in [0 .. niter-1].  With [niter <= 0] the body never
    runs and the compiled function returns the zero the variable was
    initialised with: [iterate] has a result for every [niter]. *)
Theorem iterate_always_returns :
  forall (R : Runtime) (z0 C : complex F) (n : Z) (zmax : F) (niter : Z),
    (exists k, iterate z0 C n zmax niter = Some k) /\
    (1 <= niter ->
     exists k, iterate z0 C n zmax niter = Some k /\ 0 <= k <= niter - 1) /\
    (niter <= 0 -> iterate z0 C n zmax niter = Some 0).
Proof.
  intros R z0 C n zmax niter. split_and!.
  - destruct (Z.le_gt_cases niter 0) as [Hn | Hn].
    + exists 0. by apply iterate_zero_initialised.
    + destruct (iterate_spec z0 C n zmax niter) as (k & Hk & _); [lia | eauto].
  - intros Hn. destruct (iterate_spec z0 C n zmax niter Hn) as (k & Hk & Hb & _). eauto.
  - apply iterate_zero_initialised.
Qed.

Lemma iterate_always_returns_witness :
  1 <= 3 /\
  exists k, @iterate binary64 (Complex (of_Z 0) (of_Z 0)) (Complex (of_Z 2) (of_Z 0))
                     2 (of_Z 4) 3 = Some k /\ 0 <= k <= 3 - 1.
Proof.
  split; [lia |].
  apply (proj1 (proj2 (iterate_always_returns binary64 (Complex (of_Z 0) (of_Z 0))
                         (Complex (of_Z 2) (of_Z 0)) 2 (of_Z 4) 3))).
  lia.
Defined.

(** C10 as stated fails: with [niter = 0] (and with [niter = -1]) [iterate]
    returns [0]; it is not without a result. *)
Lemma iterate_without_iterations_returns_zero :
  @iterate binary64 (Complex (of_Z 0) (of_Z 0)) (Complex (of_Z 2) (of_Z 0))
           2 (of_Z 4) 0 = Some 0 /\
  @iterate binary64 (Complex (of_Z 0) (of_Z 0)) (Complex (of_Z 2) (of_Z 0))
           2 (of_Z 4) (-1) = Some 0 /\
  ~ (@iterate binary64 (Complex (of_Z 0) (of_Z 0)) (Complex (of_Z 2) (of_Z 0))
              2 (of_Z 4) 0 = None).
Proof. split_and!; [vm_compute; reflexivity.. |]. intros H. vm_compute in H. discriminate H. Qed.

(** ** The grid *)

Section GridFacts.
Context `{R : Runtime}.

Local Abbreviation cx := (complex F).

Lemma linspace_ok (start stop : F) (num : Z) :
  0 <= num -> linspace start stop num = inr (map (linspace_at start stop num) (range num)).
Proof. intros H. unfold linspace. by rewrite (proj2 (Z.ltb_ge num 0)). Qed.

Lemma zip_with_const_r {A B C} (f : A -> B -> C) (x : list A) (b : B) :
  zip_with f x (map (fun _ => b) x) = map (fun a => f a b) x.
Proof. induction x as [|a x IH]; simpl; by f_equal. Qed.

Lemma meshgrid_zip {C} (f : F -> F -> C) (x y : list F) :
  zip_with (zip_with f) (meshgrid x y).1 (meshgrid x y).2
  = map (fun yj => map (fun xi => f xi yj) x) y.
Proof.
  unfold meshgrid. simpl. induction y as [|b y IH]; simpl; [done |].
  by rewrite zip_with_const_r, IH.
Qed.

(** The grid has one row per sample of [ylim] and one column per sample of
    [xlim]. *)
Lemma complex_grid_rows (xlim ylim : F * F) (nx ny : Z) :
  0 <= nx -> 0 <= ny ->
  complex_grid xlim ylim nx ny =
  inr (map (fun j => map (fun i =>
              grid_point (linspace_at xlim.1 xlim.2 nx i) (linspace_at ylim.1 ylim.2 ny j))
            (range nx)) (range ny)).
Proof.
  intros Hx Hy. unfold complex_grid. rewrite !linspace_ok by done. simpl.
  f_equal. pose proof (meshgrid_zip grid_point
    (map (linspace_at xlim.1 xlim.2 nx) (range nx))
    (map (linspace_at ylim.1 ylim.2 ny) (range ny))) as H.
  unfold meshgrid in H. simpl in H. rewrite H.
  rewrite map_map. apply map_ext. intros j. by rewrite map_map.
Qed.

Lemma complex_grid_cell (xlim ylim : F * F) (nx ny i j : Z) :
  0 <= i < nx -> 0 <= j < ny ->
  exists g, complex_grid xlim ylim nx ny = inr g /\
    cell g (Z.to_nat j) (Z.to_nat i)
    = Some (grid_point (linspace_at xlim.1 xlim.2 nx i) (linspace_at ylim.1 ylim.2 ny j)).
Proof.
  intros Hi Hj. eexists. split; [apply complex_grid_rows; lia |].
  unfold cell. rewrite list_lookup_fmap, range_lookup by done. simpl.
  by rewrite list_lookup_fmap, range_lookup.
Qed.

End GridFacts.

(** Facts of the exact arithmetic. *)
Lemma exact_of_Z_nonzero (z : Z) : z <> 0 -> Exact.of_Z z <> 0%Qc.
Proof.
  intros Hz H. apply Hz. unfold Exact.of_Z in H.
  apply (Q2Qc_eq_iff (inject_Z z) 0) in H.
  unfold Qeq in H. simpl in H. lia.
Qed.

Lemma exact_linspace_at (start stop : Qc) (num i : Z) :
  2 <= num ->
  @linspace_at exact start stop num i
  = (start + Exact.of_Z i * (stop - start) / Exact.of_Z (num - 1))%Qc.
Proof.
  intros Hn. unfold linspace_at.
  pose proof (exact_of_Z_nonzero (num - 1) ltac:(lia)) as Hd.
  rewrite (proj2 (Z.ltb_lt 1 num)) by lia.
  rewrite (proj2 (Z.ltb_lt 0 (num - 1))) by lia.
  cbn -[Exact.of_Z Z.sub].
  destruct (Z.eqb_spec i (num - 1)) as [-> | Hne]; simpl.
  - field. done.
  - case_bool_decide; field; done.
Qed.

Lemma exact_grid_point (x y : Qc) : @grid_point exact x y = Complex x y.
Proof.
  unfold grid_point, cadd, cmul, cfloat, c1j. cbn.
  f_equal; change (Exact.of_Z 0) with 0%Qc; change (Exact.of_Z 1) with 1%Qc; ring.
Qed.

(** The samples of [linspace] written out, for at least two samples. *)
Lemma linspace_at_sample `{R : Runtime} (start stop : F) (num i : Z) :
  2 <= num -> linspace_at start stop num i = linspace_sample start stop num i.
Proof.
  intros Hn. unfold linspace_at, linspace_sample.
  rewrite (proj2 (Z.ltb_lt 1 num)), (proj2 (Z.ltb_lt 0 (num - 1))) by lia.
  cbn [andb]. by destruct (i =? num - 1).
Qed.

(** C6, as the code has it.  For a resolution of at least 2 by 2 and any
    bounds, the grid element in column [i] and row [j] is [x + 1j*y], where
    [x] is the sample [i] of [linspace] over the x bounds and [y] the sample
    [j] of [linspace] over the y bounds: the upper bound itself for the last
    index, [i*step + xmin] with [step = (xmax-xmin)/(width-1)] otherwise, in
    the arithmetic of the runtime.  In exact arithmetic this is the complex
    number with real part [xmin + i*(xmax-xmin)/(width-1)] and imaginary part
    [ymin + j*(ymax-ymin)/(height-1)].  In double precision the grid of the
    rectangle [-1, 1] x [-1, 1] at resolution 3 by 3 has the corners
    [(-1,-1)], [(1,-1)], [(-1,1)], [(1,1)] and the centre [(0,0)]. *)
Theorem complex_grid_samples :
  (forall (R : Runtime) (xmin xmax ymin ymax : F) (nx ny i j : Z),
     2 <= nx -> 2 <= ny -> 0 <= i < nx -> 0 <= j < ny ->
     exists g, complex_grid (xmin, xmax) (ymin, ymax) nx ny = inr g /\
       cell g (Z.to_nat j) (Z.to_nat i)
       = Some (grid_point (linspace_sample xmin xmax nx i)
                          (linspace_sample ymin ymax ny j))) /\
  (forall (xmin xmax ymin ymax : Qc) (nx ny i j : Z),
     2 <= nx -> 2 <= ny -> 0 <= i < nx -> 0 <= j < ny ->
     exists g, @complex_grid exact (xmin, xmax) (ymin, ymax) nx ny = inr g /\
       cell g (Z.to_nat j) (Z.to_nat i)
       = Some (Complex
           (xmin + Exact.of_Z i * (xmax - xmin) / Exact.of_Z (nx - 1))%Qc
           (ymin + Exact.of_Z j * (ymax - ymin) / Exact.of_Z (ny - 1))%Qc)) /\
  @complex_grid binary64 ((-1)%float, 1%float) ((-1)%float, 1%float) 3 3
  = inr [ [Complex (-1) (-1); Complex 0 (-1); Complex 1 (-1)];
          [Complex (-1) 0;    Complex 0 0;    Complex 1 0];
          [Complex (-1) 1;    Complex 0 1;    Complex 1 1] ]%float.
Proof.
  split_and!.
  - intros R xmin xmax ymin ymax nx ny i j Hnx Hny Hi Hj.
    destruct (complex_grid_cell (xmin, xmax) (ymin, ymax) nx ny i j Hi Hj)
      as (g & Hg & Hcell).
    exists g. split; [done |]. rewrite Hcell. cbn [fst snd].
    by rewrite !linspace_at_sample.
  - intros xmin xmax ymin ymax nx ny i j Hnx Hny Hi Hj.
    destruct (@complex_grid_cell exact (xmin, xmax) (ymin, ymax) nx ny i j Hi Hj)
      as (g & Hg & Hcell).
    exists g. split; [done |]. rewrite Hcell. simpl.
    by rewrite exact_grid_point, !exact_linspace_at.
  - vm_compute. reflexivity.
Qed.

Lemma complex_grid_samples_witness :
  (2 <= 7 /\ 0 <= 5 < 7 /\ 0 <= 2 < 7) /\
  (exists g, @complex_grid binary64 (fneg (lit 15 1), lit 7 1) (fneg (lit 15 1), lit 7 1) 7 7
             = inr g /\
     cell g (Z.to_nat 2) (Z.to_nat 5)
     = Some (@grid_point binary64
               (@linspace_sample binary64 (fneg (lit 15 1)) (lit 7 1) 7 5)
               (@linspace_sample binary64 (fneg (lit 15 1)) (lit 7 1) 7 2))) /\
  (exists g, @complex_grid exact (Exact.of_Z 0, Exact.of_Z 1) (Exact.of_Z 0, Exact.of_Z 3) 4 2
             = inr g /\
     cell g (Z.to_nat 1) (Z.to_nat 2)
     = Some (Complex
         (Exact.of_Z 0 + Exact.of_Z 2 * (Exact.of_Z 1 - Exact.of_Z 0) / Exact.of_Z (4 - 1))%Qc
         (Exact.of_Z 0 + Exact.of_Z 1 * (Exact.of_Z 3 - Exact.of_Z 0) / Exact.of_Z (2 - 1))%Qc)).
Proof.
  split; [lia |]. split.
  - apply (proj1 complex_grid_samples binary64); lia.
  - apply (proj1 (proj2 complex_grid_samples)); lia.
Defined.

Section GridRounding.
#[local] Existing Instance binary64.

(** C6 as stated fails in double precision.  Over the rectangle
    [-1.5 .. 0.7] in both directions at resolution 7 by 7, the element in the
    last column (6) of row 0 has the real part [0.7], the upper bound, while
    [xmin + i*(xmax-xmin)/(width-1)] is [0.7000000000000002], in either order
    of evaluation; in column 5 of row 2 the real part is [5*step + xmin], which
    differs from [xmin + 5*(xmax-xmin)/6]. *)
Lemma complex_grid_formula_is_rounded :
  (fneg (lit 15 1) <? lit 7 1)%fl = true /\
  exists g,
    complex_grid (fneg (lit 15 1), lit 7 1) (fneg (lit 15 1), lit 7 1) 7 7 = inr g /\
    real <$> cell g 0 6 = Some (lit 7 1) /\
    ~ (real <$> cell g 0 6
       = Some (fneg (lit 15 1) + of_Z 6 * (lit 7 1 - fneg (lit 15 1)) / of_Z 6)%fl) /\
    ~ (real <$> cell g 0 6
       = Some (fneg (lit 15 1) + of_Z 6 * ((lit 7 1 - fneg (lit 15 1)) / of_Z 6))%fl) /\
    ~ (real <$> cell g 2 5
       = Some (fneg (lit 15 1) + of_Z 5 * (lit 7 1 - fneg (lit 15 1)) / of_Z 6)%fl).
Proof.
  split; [vm_compute; reflexivity |].
  destruct (complex_grid (fneg (lit 15 1), lit 7 1) (fneg (lit 15 1), lit 7 1) 7 7)
    as [e | g] eqn:Hg; [vm_compute in Hg; discriminate Hg |].
  exists g. split; [reflexivity |].
  assert (real <$> cell g 0 6 = Some (lit 7 1) /\
          real <$> cell g 2 5
          = Some (of_Z 5 * ((lit 7 1 - fneg (lit 15 1)) / of_Z 6) + fneg (lit 15 1))%fl)
    as [H06 H25].
  { vm_compute in Hg. injection Hg as <-. split; vm_compute; reflexivity. }
  split; [exact H06 |]. rewrite H06, H25.
  split_and!; intros H;
    match type of H with
    | Some ?a = _ =>
        apply (f_equal (fun o : option F =>
                          match o with Some x => feqb x a | None => false end)) in H
    end;
    vm_compute in H; discriminate H.
Qed.

End GridRounding.

(** ** Whole-grid evaluation *)

Section FractalFacts.
Context `{R : Runtime}.

Local Abbreviation cx := (complex F).

Lemma res_mapM_Forall2 {A B} (f : A -> res B) (P : A -> B -> Prop) (l : list A) :
  (forall a, a ∈ l -> exists b, f a = inr b /\ P a b) ->
  exists l', res_mapM f l = inr l' /\ Forall2 P l l'.
Proof.
  induction l as [|a l IH]; intros H; simpl.
  - exists []. by split.
  - destruct (H a) as (b & Hb & HP); [by left |].
    destruct IH as (l' & Hl' & HF); [intros a' Ha'; apply H; by right |].
    exists (b :: l'). rewrite Hb, Hl'. simpl. split; [done | by constructor].
Qed.

Lemma fractal_at_defined (n : Z) (zmax : F) (niter : Z) (z C : cx) :
  1 <= niter ->
  exists k, fractal_at n zmax niter z C = inr k /\ iterate z C n zmax niter = Some k.
Proof.
  intros Hn. destruct (iterate_spec z C n zmax niter Hn) as (k & Hk & _).
  exists k. unfold fractal_at. by rewrite Hk.
Qed.

(** Julia call: the array supplies [z0], the scalar is [C]. *)
Lemma fractal_array_scalar (g : list (list cx)) (C : cx) (n : Z) (zmax : F) (niter : Z) :
  1 <= niter ->
  exists m, fractal (Array2 g) (Scalar C) n zmax niter = inr (Array2 m) /\
    pointwise (fun z k => iterate z C n zmax niter = Some k) g m.
Proof.
  intros Hn. unfold fractal, pointwise.
  destruct (res_mapM_Forall2
    (res_mapM (fun z => fractal_at n zmax niter z C))
    (Forall2 (fun z k => iterate z C n zmax niter = Some k)) g) as (m & Hm & HF).
  { intros row _. apply res_mapM_Forall2. intros z _. by apply fractal_at_defined. }
  exists m. by rewrite Hm.
Qed.

(** Mandelbrot call: the scalar is [z0], the array supplies [C]. *)
Lemma fractal_scalar_array (z0 : cx) (g : list (list cx)) (n : Z) (zmax : F) (niter : Z) :
  1 <= niter ->
  exists m, fractal (Scalar z0) (Array2 g) n zmax niter = inr (Array2 m) /\
    pointwise (fun c k => iterate z0 c n zmax niter = Some k) g m.
Proof.
  intros Hn. unfold fractal, pointwise.
  destruct (res_mapM_Forall2
    (res_mapM (fun c => fractal_at n zmax niter z0 c))
    (Forall2 (fun c k => iterate z0 c n zmax niter = Some k)) g) as (m & Hm & HF).
  { intros row _. apply res_mapM_Forall2. intros c _. by apply fractal_at_defined. }
  exists m. by rewrite Hm.
Qed.

Lemma pointwise_cell {A B} (P : A -> B -> Prop) (a : list (list A)) (b : list (list B)) :
  pointwise P a b ->
  map length a = map length b /\
  forall j i x, cell a j i = Some x -> exists y, cell b j i = Some y /\ P x y.
Proof.
  intros H. split.
  - induction H as [|r s a b Hrs _ IH]; simpl; [done |].
    f_equal; [by eapply Forall2_length | done].
  - intros j i x. unfold cell. intros Hx.
    destruct (a !! j) as [r|] eqn:Hr; [|done]. simpl in Hx.
    destruct (Forall2_lookup_l _ _ _ _ _ H Hr) as (s & Hs & Hrs).
    destruct (Forall2_lookup_l _ _ _ _ _ Hrs Hx) as (y & Hy & HP).
    exists y. rewrite Hs. simpl. by split.
Qed.

Lemma compute_image_dispatch (st : app) (C : cx) (xlim ylim : F * F)
    (nx ny n : Z) (zmax : F) (niter : Z) :
  has_params st C xlim ylim nx ny n zmax niter ->
  compute_image st =
  (res_bind (complex_grid xlim ylim nx ny) (fun zz =>
     if bool_decide (mode st = Julia) then
       res_bind (fractal (Array2 zz) (Scalar C) n zmax niter) (fun img => inr (Some img))
     else if bool_decide (mode st = Mandelbrot) then
       res_bind (fractal (Scalar C) (Array2 zz) n zmax niter) (fun img => inr (Some img))
     else inr None), st).
Proof.
  intros (Hx & Hy & Hxmin & Hxmax & Hymin & Hymax & Hxs & Hys & Hn & Hz & Hni).
  destruct (attrs st !! "x") as [vx|] eqn:Ex; [|done].
  destruct (attrs st !! "y") as [vy|] eqn:Ey; [|done].
  destruct (attrs st !! "xmin") as [vxmin|] eqn:Exmin; [|done].
  destruct (attrs st !! "xmax") as [vxmax|] eqn:Exmax; [|done].
  destruct (attrs st !! "ymin") as [vymin|] eqn:Eymin; [|done].
  destruct (attrs st !! "ymax") as [vymax|] eqn:Eymax; [|done].
  destruct (attrs st !! "zmax") as [vzmax|] eqn:Ezmax; [|done].
  destruct C as [cre cim], xlim as [x0 x1], ylim as [y0 y1].
  simpl in Hx, Hy, Hxmin, Hxmax, Hymin, Hymax, Hz.
  simplify_eq. unfold compute_image, as_int. mrun.
  destruct (complex_grid _ _ nx ny) as [e|zz]; unfold res_bind at 1; [done |].
  mrun. destruct (bool_decide (mode st = Julia)); mrun.
  - by destruct (fractal _ _ _ _ _).
  - destruct (bool_decide (mode st = Mandelbrot)); mrun; [|done].
    by destruct (fractal _ _ _ _ _).
Qed.

End FractalFacts.

(** C2. Whole-grid evaluation applies [iterate] at every grid point and
    returns an array of the shape of the grid: in Julia mode the grid point is
    the start [z0] and the parameter [C] is fixed; in Mandelbrot mode the
    parameter [C] is the start and the grid point is the additive constant.
    This holds of the vectorised function [fractal] on every grid, and
    [compute_image] calls it in this way on the grid of the viewport. *)
Theorem fractal_evaluates_grid :
  forall (R : Runtime) (C : complex F) (n : Z) (zmax : F) (niter : Z),
    1 <= niter ->
    (forall g : list (list (complex F)),
       (exists m, fractal (Array2 g) (Scalar C) n zmax niter = inr (Array2 m) /\
          pointwise (fun z k => iterate z C n zmax niter = Some k) g m) /\
       (exists m, fractal (Scalar C) (Array2 g) n zmax niter = inr (Array2 m) /\
          pointwise (fun c k => iterate C c n zmax niter = Some k) g m)) /\
    (forall (st : app) (xlim ylim : F * F) (nx ny : Z),
       has_params st C xlim ylim nx ny n zmax niter -> 0 <= nx -> 0 <= ny ->
       exists zz, complex_grid xlim ylim nx ny = inr zz /\
         (mode st = Julia ->
          exists m, compute_image st = (inr (Some (Array2 m)), st) /\
            pointwise (fun g k => iterate g C n zmax niter = Some k) zz m) /\
         (mode st = Mandelbrot ->
          exists m, compute_image st = (inr (Some (Array2 m)), st) /\
            pointwise (fun g k => iterate C g n zmax niter = Some k) zz m)).
Proof.
  intros R C n zmax niter Hn. split.
  - intros g. split; [by apply fractal_array_scalar | by apply fractal_scalar_array].
  - intros st xlim ylim nx ny Hp Hx Hy.
    eexists. split; [by apply complex_grid_rows |].
    rewrite (compute_image_dispatch st C xlim ylim nx ny n zmax niter Hp).
    rewrite complex_grid_rows by done. cbv beta iota delta [res_bind].
    split; intros Hmode; rewrite Hmode.
    + rewrite bool_decide_eq_true_2 by done.
      destruct (fractal_array_scalar
        (map (fun j => map (fun i =>
           grid_point (linspace_at xlim.1 xlim.2 nx i) (linspace_at ylim.1 ylim.2 ny j))
           (range nx)) (range ny)) C n zmax niter Hn) as (m & Hm & HP).
      exists m. rewrite Hm. by split.
    + rewrite bool_decide_eq_false_2, bool_decide_eq_true_2 by done.
      destruct (fractal_scalar_array C
        (map (fun j => map (fun i =>
           grid_point (linspace_at xlim.1 xlim.2 nx i) (linspace_at ylim.1 ylim.2 ny j))
           (range nx)) (range ny)) n zmax niter Hn) as (m & Hm & HP).
      exists m. rewrite Hm. by split.
Qed.

(** An instance on binary64: a row of two points, and the state [sample]. *)
Section GridExample.
#[local] Existing Instance binary64.

Lemma sample_has_params :
  has_params sample (Complex (fneg (lit 4 1)) (lit 6 1))
    (fneg (lit 15 1), lit 15 1) (fneg (lit 15 1), lit 15 1) 8 8 2 (lit 40 1) 3.
Proof. unfold has_params. split_and!; reflexivity. Qed.

Lemma fractal_evaluates_grid_witness :
  1 <= 3 /\
  (exists m,
     fractal (Array2 [[Complex (of_Z 0) (of_Z 0); Complex (of_Z 2) (of_Z 0)]])
             (Scalar (Complex (fneg (lit 4 1)) (lit 6 1))) 2 (lit 40 1) 3 = inr (Array2 m) /\
     pointwise (fun z k => iterate z (Complex (fneg (lit 4 1)) (lit 6 1)) 2 (lit 40 1) 3 = Some k)
       [[Complex (of_Z 0) (of_Z 0); Complex (of_Z 2) (of_Z 0)]] m) /\
  (exists zz,
     complex_grid (fneg (lit 15 1), lit 15 1) (fneg (lit 15 1), lit 15 1) 8 8 = inr zz /\
     exists m, compute_image sample = (inr (Some (Array2 m)), sample) /\
       pointwise (fun g k =>
         iterate g (Complex (fneg (lit 4 1)) (lit 6 1)) 2 (lit 40 1) 3 = Some k) zz m).
Proof.
  assert (1 <= 3) as H by lia.
  split; [exact H |]. split.
  - exact (proj1 (proj1 (fractal_evaluates_grid binary64
             (Complex (fneg (lit 4 1)) (lit 6 1)) 2 (lit 40 1) 3 H) _)).
  - destruct (proj2 (fractal_evaluates_grid binary64
             (Complex (fneg (lit 4 1)) (lit 6 1)) 2 (lit 40 1) 3 H)
             sample _ _ 8 8 sample_has_params) as (zz & Hzz & HJ & _); [lia | lia |].
    exists zz. split; [exact Hzz |]. apply HJ. reflexivity.
Defined.
End GridExample.

(** ** What a method leaves unchanged *)

Create HintDb frame discriminated.

Section Frames.
Context `{R : Runtime}.

#[export] Instance same_preorder {X} (f : app -> X) : PreOrder (same f).
Proof. split; [by intros st | intros a b c Hab Hbc; unfold same in *; congruence]. Qed.

#[export] Instance within_preorder (K : list string) : PreOrder (within K).
Proof.
  split; [by intros st _ | intros a b c Hab Hbc Ha].
  destruct (Hab Ha) as [Eb Hb]. destruct Hbc as [Ec Hc]; [by rewrite Eb |].
  split; [congruence | intros k Hk; by rewrite Hc, Hb].
Qed.

Section Generic.
Context (Rel : relation app) `{!PreOrder Rel}.

Lemma preserves_ret {A} (a : A) : preserves Rel (mret a).
Proof. intros st. simpl. reflexivity. Qed.

Lemma preserves_raise {A} (e : exn) : preserves Rel (@raise _ A e).
Proof. intros st. simpl. reflexivity. Qed.

Lemma preserves_lift {A} (r : res A) : preserves Rel (lift r).
Proof. intros st. simpl. reflexivity. Qed.

Lemma preserves_get_state : preserves Rel get_state.
Proof. intros st. simpl. reflexivity. Qed.

Lemma preserves_bind {A B} (m : M A) (f : A -> M B) :
  preserves Rel m -> (forall a, preserves Rel (f a)) -> preserves Rel (m ≫= f).
Proof.
  intros Hm Hf st. unfold mbind, M_bind.
  specialize (Hm st). destruct (m st) as [[e|a] st']; simpl in *; [done |].
  etrans; [exact Hm | apply Hf].
Qed.

Lemma preserves_for_each {A} (l : list A) (body : A -> M unit) :
  (forall a, preserves Rel (body a)) -> preserves Rel (for_each l body).
Proof.
  intros Hb. induction l as [|a l IH]; simpl.
  - apply preserves_ret.
  - apply preserves_bind; [apply Hb | by intros _].
Qed.

Lemma preserves_getattr (name : string) : preserves Rel (getattr name).
Proof.
  unfold getattr. apply preserves_bind; [apply preserves_get_state |].
  intros st. destruct (attrs st !! name); [apply preserves_ret | apply preserves_raise].
Qed.

Lemma preserves_entry_of (name : string) : preserves Rel (entry_of name).
Proof.
  unfold entry_of. apply preserves_bind; [apply preserves_get_state |].
  intros st. case_bool_decide; [apply preserves_ret | apply preserves_raise].
Qed.

Lemma preserves_get_text (name : string) : preserves Rel (get_text name).
Proof.
  unfold get_text. apply preserves_bind; [apply preserves_get_state |].
  intros st. apply preserves_ret.
Qed.

Lemma preserves_get_entry_value (name : string) (dt : dtype) :
  preserves Rel (get_entry_value name dt).
Proof.
  unfold get_entry_value. apply preserves_bind; [apply preserves_get_text |].
  intros text. apply preserves_lift.
Qed.

End Generic.

End Frames.

#[export] Hint Resolve preserves_ret preserves_raise preserves_lift preserves_get_state
  preserves_getattr preserves_entry_of preserves_get_text preserves_get_entry_value
  : frame.

(** Decomposition of a computation along its binds, loops and branches; the
    leaves are closed by the hints of [frame] or by computation. *)
Ltac frame :=
  repeat first
    [ solve [auto with frame typeclass_instances]
    | apply preserves_bind; [try apply _ | | intros ?]
    | apply preserves_for_each; [try apply _ | intros ?]
    | match goal with
      | |- preserves _ (match ?x with _ => _ end) => destruct x
      | |- preserves _ (let _ := _ in _) => cbv zeta
      | |- preserves _ (let '(_, _) := ?x in _) => destruct x
      end
    | solve [intros ?; reflexivity]
    | solve [intros ? ?; split; [reflexivity | intros; reflexivity]] ].

Section MethodFrames.
Context `{R : Runtime}.

Lemma preserves_for_each_in {A} (Rel : relation app) `{!PreOrder Rel}
    (l : list A) (body : A -> M unit) :
  (forall a, a ∈ l -> preserves Rel (body a)) -> preserves Rel (for_each l body).
Proof.
  induction l as [|a l IH]; intros Hb; simpl.
  - apply preserves_ret, _.
  - apply preserves_bind; [apply _ | apply Hb; by left |].
    intros _. apply IH. intros b Hb'. apply Hb. by right.
Qed.

Lemma snd_bind {A B} (m : M A) (f : A -> M B) (st : app) :
  snd ((m ≫= f) st) =
  match m st with
  | (inr a, st1) => snd (f a st1)
  | (inl _, st1) => st1
  end.
Proof. unfold mbind, M_bind. by destruct (m st) as [[e|a] st1]. Qed.

(** Which part of the state each method can change. *)
Lemma set_entry_value_attrs (name : string) : preserves (same attrs) (set_entry_value name).
Proof. unfold set_entry_value, set_text. frame. Qed.

Lemma set_entry_value_entries (name : string) :
  preserves (same entries) (set_entry_value name).
Proof. unfold set_entry_value, set_text. frame. Qed.

Lemma set_entry_value_log (name : string) : preserves (same log) (set_entry_value name).
Proof. unfold set_entry_value, set_text. frame. Qed.

Lemma set_entry_value_within (K : list string) (name : string) :
  preserves (within K) (set_entry_value name).
Proof. unfold set_entry_value, set_text. frame. Qed.

Lemma compute_image_same {X} (f : app -> X) : preserves (same f) compute_image.
Proof. unfold compute_image. frame. Qed.

Lemma compute_image_within (K : list string) : preserves (within K) compute_image.
Proof. unfold compute_image. frame. Qed.

Lemma display_image_attrs : preserves (same attrs) display_image.
Proof. unfold display_image, emit. pose proof (compute_image_same attrs). frame. Qed.

Lemma display_image_texts : preserves (same texts) display_image.
Proof. unfold display_image, emit. pose proof (compute_image_same texts). frame. Qed.

Lemma display_image_entries : preserves (same entries) display_image.
Proof. unfold display_image, emit. pose proof (compute_image_same entries). frame. Qed.

Lemma display_image_within (K : list string) : preserves (within K) display_image.
Proof. unfold display_image, emit. pose proof (compute_image_within K). frame. Qed.

End MethodFrames.

#[export] Hint Resolve set_entry_value_attrs set_entry_value_entries set_entry_value_log
  set_entry_value_within compute_image_same compute_image_within
  display_image_attrs display_image_texts display_image_entries display_image_within
  : frame.

(** ** Reading the entries: [update_image] *)

Section UpdateFacts.
Context `{R : Runtime}.

(** The body of the first loop of [update_image]. *)
Local Abbreviation update_field := (fun name : string =>
  val ← get_entry_value name (dtype_of name);
  match val with
  | Some v => setattr name v
  | None => mret tt
  end).

Lemma update_field_run (name : string) (st : app) :
  update_field name st =
  match parse_entry (text_of st name) (dtype_of name) with
  | inr (Some v) =>
      (inr tt, App (<[name := v]> (attrs st)) (cmap st) (entries st) (texts st)
                   (mode st) (has_fig st) (log st))
  | inr None => (inr tt, st)
  | inl e => (inl e, st)
  end.
Proof.
  cbv beta. unfold get_entry_value, get_text. mrun.
  by destruct (parse_entry _ _) as [e|[v|]].
Qed.

(** The first loop changes attributes only: an attribute keeps its value or
    takes the value its entry parses to. *)
Lemma update_loop_spec (name : string) (l : list string) :
  forall st, let st' := snd (for_each l update_field st) in
    texts st' = texts st /\ entries st' = entries st /\ log st' = log st /\
    (attrs st' !! name = attrs st !! name \/
     (name ∈ l /\
      exists v, parse_entry (text_of st name) (dtype_of name) = inr (Some v) /\
                attrs st' !! name = Some v)).
Proof.
  induction l as [|a l IH]; intros st; cbv zeta.
  - simpl. by split_and!; [..| left].
  - cbn [for_each]. rewrite snd_bind, update_field_run.
    destruct (parse_entry (text_of st a) (dtype_of a)) as [e|[v|]] eqn:Hp.
    + by split_and!; [..| left].
    + specialize (IH (App (<[a := v]> (attrs st)) (cmap st) (entries st) (texts st)
                          (mode st) (has_fig st) (log st))).
      cbv zeta in IH. simpl in IH. destruct IH as (Ht & He & Hl & Ha).
      split_and!; [done..|].
      destruct Ha as [Ha | (Hin & v' & Hv' & Ha)].
      * destruct (decide (a = name)) as [-> | Hne].
        -- right. split; [by left |]. exists v. split; [done |].
           by rewrite Ha, lookup_insert_eq.
        -- left. by rewrite Ha, lookup_insert_ne.
      * right. split; [by right |]. by exists v'.
    + destruct (IH st) as (Ht & He & Hl & Ha). split_and!; [done..|].
      destruct Ha as [Ha | (Hin & v' & Hv' & Ha)]; [by left |].
      right. split; [by right |]. by exists v'.
Qed.

(** The second loop writes, for every entry, the text of its attribute. *)
Lemma refresh_spec (l : list string) :
  forall st st', for_each l set_entry_value st = (inr tt, st') ->
    attrs st' = attrs st /\ entries st' = entries st /\ log st' = log st /\
    forall name,
      (name ∈ l ->
       exists v s, attrs st !! name = Some v /\ value_str v = inr s /\
                   texts st' !! name = Some s) /\
      (name ∉ l -> texts st' !! name = texts st !! name).
Proof.
  induction l as [|a l IH]; intros st st' Hrun.
  - simpl in Hrun. injection Hrun as <-. split_and!; [done..|].
    intros name. split; [intros Hin; by apply elem_of_nil in Hin | done].
  - cbn [for_each] in Hrun. unfold mbind at 1, M_bind at 1 in Hrun.
    destruct (set_entry_value a st) as [[e|[]] st1] eqn:H1; [done |].
    destruct (IH st1 st' Hrun) as (Ha & He & Hl & Ht).
    unfold set_entry_value in H1. rewrite bind_getattr in H1.
    destruct (attrs st !! a) as [v|] eqn:Hv; [|done].
    rewrite bind_lift in H1. destruct (value_str v) as [e|s] eqn:Hs; [done |].
    unfold set_text in H1. rewrite bind_get_state in H1.
    injection H1 as <-. simpl in *.
    split_and!; [done..|].
    intros name. destruct (Ht name) as [Hin Hout]. split.
    + intros Hname. destruct (decide (name ∈ l)) as [Hl' | Hl'].
      * by apply Hin.
      * apply elem_of_cons in Hname as [-> | Hname]; [|done].
        exists v, s. split_and!; [done..|].
        by rewrite Hout, lookup_insert_eq.
    + intros Hname. apply not_elem_of_cons in Hname as [Hne Hname].
      by rewrite Hout, lookup_insert_ne.
Qed.

End UpdateFacts.

Section UpdateImage.
Context `{R : Runtime}.

Lemma update_image_tail_attrs :
  preserves (same attrs)
    (st ← get_state; for_each (entries st) set_entry_value;; display_image;; emit DrawIdle).
Proof. unfold emit. frame. Qed.

(** After [update_image] an attribute has its old value or the value its
    entry parses to. *)
Lemma update_image_attr (name : string) (st : app) :
  let st' := snd (update_image st) in
  attrs st' !! name = attrs st !! name \/
  (name ∈ entries st /\
   exists v, parse_entry (text_of st name) (dtype_of name) = inr (Some v) /\
             attrs st' !! name = Some v).
Proof.
  cbv zeta. unfold update_image. rewrite bind_get_state, snd_bind.
  pose proof (update_loop_spec name (entries st) st) as Hloop. cbv zeta in Hloop.
  destruct (for_each (entries st) _ st) as [[e|[]] st1]; simpl in Hloop;
    destruct Hloop as (Ht & He & Hl & Ha); [done |].
  pose proof (update_image_tail_attrs st1) as Htail. unfold same in Htail.
  rewrite Htail. done.
Qed.

(** When [update_image] returns, every entry shows the text of its attribute. *)
Lemma update_image_texts (name : string) (st st' : app) :
  update_image st = (inr tt, st') -> name ∈ entries st ->
  exists v s, attrs st' !! name = Some v /\ value_str v = inr s /\
              texts st' !! name = Some s.
Proof.
  unfold update_image. rewrite bind_get_state. unfold mbind at 1, M_bind at 1.
  pose proof (update_loop_spec name (entries st) st) as Hloop. cbv zeta in Hloop.
  destruct (for_each (entries st) _ st) as [[e|[]] st1]; simpl in Hloop;
    destruct Hloop as (Ht & He & Hl & Ha); [done |].
  rewrite bind_get_state. unfold mbind at 1, M_bind at 1.
  destruct (for_each (entries st1) set_entry_value st1) as [[e|[]] st2] eqn:Hrefresh; [done |].
  destruct (refresh_spec _ _ _ Hrefresh) as (Ha2 & He2 & Hl2 & Ht2).
  unfold mbind, M_bind.
  pose proof (display_image_attrs st2) as Hda. pose proof (display_image_texts st2) as Hdt.
  unfold same in Hda, Hdt.
  destruct (display_image st2) as [[e|[]] st3]; [done |]. simpl in Hda, Hdt.
  intros Hret Hin. injection Hret as <-. simpl.
  rewrite He in Ht2. destruct (Ht2 name) as [Hname _].
  destruct (Hname Hin) as (v & s & Hv & Hs & Htext).
  exists v, s. by rewrite Hda, Ha2, Hdt.
Qed.

End UpdateImage.

Lemma value_error_no_value `{R : Runtime} (text : string) (dt : dtype) :
  value_error text dt -> no_value text dt.
Proof.
  intros Herr v. unfold parse_entry.
  destruct Herr as [-> | (-> & x & -> & ->)]; done.
Qed.

(** C7. When the text of an entry does not convert to a number of the kind of
    its field, [get_entry_value] reports it by returning [None] (ValueError) and
    [update_image] leaves the attribute as it was; when [update_image] returns,
    the entry shows the text of that unchanged value again. *)
Theorem parse_failure_keeps_field :
  forall (R : Runtime) (st : app) (name : string),
    (forall dt, value_error (text_of st name) dt ->
       get_entry_value name dt st = (inr None, st)) /\
    (no_value (text_of st name) (dtype_of name) ->
     attrs (snd (update_image st)) !! name = attrs st !! name) /\
    (no_value (text_of st name) (dtype_of name) ->
     forall st', update_image st = (inr tt, st') -> name ∈ entries st ->
     exists v s, attrs st !! name = Some v /\ value_str v = inr s /\
                 texts st' !! name = Some s).
Proof.
  intros R st name. split_and!.
  - intros dt Herr. unfold get_entry_value, get_text. mrun.
    unfold parse_entry.
    destruct Herr as [-> | (-> & x & -> & ->)]; done.
  - intros Hno. destruct (update_image_attr name st) as [H | (_ & v & Hv & _)]; [done |].
    by destruct (Hno v).
  - intros Hno st' Hret Hin.
    destruct (update_image_texts name st st' Hret Hin) as (v & s & Hv & Hs & Ht).
    exists v, s. split_and!; [|done..].
    destruct (update_image_attr name st) as [H | (_ & v' & Hv' & _)].
    + rewrite Hret in H. simpl in H. congruence.
    + by destruct (Hno v').
Qed.

Section ParseFailureExample.
#[local] Existing Instance binary64.

Lemma parse_failure_keeps_field_witness :
  value_error (text_of sample_typo "zmax") (dtype_of "zmax") /\
  no_value (text_of sample_typo "zmax") (dtype_of "zmax") /\
  get_entry_value "zmax" (dtype_of "zmax") sample_typo = (inr None, sample_typo) /\
  attrs (snd (update_image sample_typo)) !! "zmax" = attrs sample_typo !! "zmax".
Proof.
  assert (value_error (text_of sample_typo "zmax") (dtype_of "zmax")) as Herr.
  { left. vm_compute. reflexivity. }
  assert (no_value (text_of sample_typo "zmax") (dtype_of "zmax")) as Hno.
  { by apply value_error_no_value. }
  split; [exact Herr |]. split; [exact Hno |]. split.
  - exact (proj1 (parse_failure_keeps_field binary64 sample_typo "zmax") _ Herr).
  - exact (proj1 (proj2 (parse_failure_keeps_field binary64 sample_typo "zmax")) Hno).
Defined.

End ParseFailureExample.

(** ** Switching the mode *)

Section ModeFacts.
Context `{R : Runtime}.

Lemma value_str_int (z : Z) : value_str (VInt z) = inr (pretty z).
Proof. unfold value_str. simpl. by rewrite Z.eqb_refl. Qed.

Lemma set_entry_value_int {B} (name : string) (z : Z) (f : unit -> M B) (st : app) :
  attrs st !! name = Some (VInt z) ->
  (set_entry_value name ≫= f) st =
  f tt (App (attrs st) (cmap st) (entries st) (<[name := pretty z]> (texts st))
            (mode st) (has_fig st) (log st)).
Proof.
  intros H. unfold set_entry_value. rewrite !bind_assoc, bind_getattr, H.
  rewrite bind_assoc, bind_lift, value_str_int. done.
Qed.

(** [update_image] keeps a zero attribute zero when its entry shows [0]. *)
Lemma update_image_zero (name : string) (st : app) :
  py_float "0" = Some (of_Z 0) -> dtype_of name = DFloat ->
  attrs st !! name = Some (VInt 0) -> text_of st name = "0" ->
  exists v, attrs (snd (update_image st)) !! name = Some v /\ is_zero v.
Proof.
  intros Hzero Hdt Hv Ht.
  destruct (update_image_attr name st) as [H | (_ & v & Hp & H)].
  - exists (VInt 0). split; [congruence | by left].
  - exists v. split; [done |]. right.
    rewrite Ht, Hdt in Hp. unfold parse_entry in Hp. rewrite Hzero in Hp. congruence.
Qed.

Lemma on_namecombo_changed_mandelbrot (st : app) :
  py_float "0" = Some (of_Z 0) -> mode st = Mandelbrot ->
  C_is_zero (snd (on_namecombo_changed st)).
Proof.
  intros Hzero Hmode. unfold on_namecombo_changed.
  assert (forall st0 : app,
    attrs st0 !! "x" = Some (VInt 0) -> attrs st0 !! "y" = Some (VInt 0) ->
    C_is_zero st0) as Hdone.
  { intros st0 Hx Hy. exists (VInt 0), (VInt 0). split_and!; [done | by left | done | by left]. }
  mrun. rewrite Hmode, bool_decide_eq_true_2 by done. mrun.
  case_bool_decide as Hex.
  2: { simpl. apply Hdone; by simplify_map_eq. }
  rewrite (set_entry_value_int "x" 0) by by simplify_map_eq. mrun.
  case_bool_decide as Hey.
  2: { simpl. apply Hdone; by simplify_map_eq. }
  rewrite (set_entry_value_int "y" 0) by by simplify_map_eq. mrun.
  destruct (has_fig st).
  2: { simpl. apply Hdone; by simplify_map_eq. }
  match goal with |- C_is_zero (snd (update_image ?s)) => set (st1 := s) end.
  destruct (update_image_zero "x" st1) as (vx & Hx & Zx);
    [done | done | by subst st1; simplify_map_eq
    | by subst st1; unfold text_of; simplify_map_eq |].
  destruct (update_image_zero "y" st1) as (vy & Hy & Zy);
    [done | done | by subst st1; simplify_map_eq
    | by subst st1; unfold text_of; simplify_map_eq |].
  by exists vx, vy.
Qed.

End ModeFacts.

(** C9. Switching the mode to Mandelbrot sets the attributes [x] and [y] to
    zero, whatever they held before (here [float("0")] is the float zero). *)
Theorem mandelbrot_zeroes_C :
  forall (R : Runtime) (st : app),
    py_float "0" = Some (of_Z 0) ->
    C_is_zero (step st (SelectMode Mandelbrot)).
Proof.
  intros R st Hzero. unfold step, handle. mrun.
  by apply on_namecombo_changed_mandelbrot.
Qed.

Section ModeExample.
#[local] Existing Instance binary64.

Lemma mandelbrot_zeroes_C_witness :
  py_float "0" = Some (of_Z 0) /\
  C_is_zero (step sample (SelectMode Mandelbrot)).
Proof.
  assert (py_float "0" = Some (of_Z 0)) as Hzero by (vm_compute; reflexivity).
  split; [exact Hzero |].
  exact (mandelbrot_zeroes_C binary64 sample Hzero).
Defined.

End ModeExample.

(** ** Redisplay *)

Section DisplayFacts.
Context `{R : Runtime}.

Lemma redisplays_app (st st' : app) (l : list effect) :
  log st' = log st ++ l ->
  redisplays st' = (redisplays st + length (filter (fun e => is_imshow e = true) l))%nat.
Proof. intros H. unfold redisplays. by rewrite H, filter_app, length_app. Qed.

Lemma compute_image_state (st : app) : snd (compute_image st) = st.
Proof. exact (compute_image_same id st). Qed.

(** [display_image] evaluates the image once and asks the canvas to show it. *)
Lemma display_image_log (st st' : app) :
  display_image st = (inr tt, st') ->
  exists img ext, fst (compute_image st) = inr (Some img) /\
                  log st' = log st ++ [Imshow img (cmap st) ext].
Proof.
  unfold display_image. unfold mbind at 1, M_bind at 1.
  pose proof (compute_image_state st) as Hst.
  destruct (compute_image st) as [[e|img] st0]; simpl in Hst; subst st0; [done |].
  mrun. destruct (has_fig st); [|done].
  mrun. destruct (attrs st !! "xmin") as [xmin|]; [|done].
  mrun. destruct (attrs st !! "xmax") as [xmax|]; [|done].
  mrun. destruct (attrs st !! "ymin") as [ymin|]; [|done].
  mrun. destruct (attrs st !! "ymax") as [ymax|]; [|done].
  destruct img as [img|]; [|done].
  unfold emit. intros H. injection H as <-. simpl. eauto.
Qed.

(** A run of [update_image] that returns has asked for exactly one image. *)
Lemma update_image_log (st st' : app) :
  update_image st = (inr tt, st') -> redisplays st' = S (redisplays st).
Proof.
  unfold update_image. rewrite bind_get_state. unfold mbind at 1, M_bind at 1.
  pose proof (update_loop_spec "" (entries st) st) as Hloop. cbv zeta in Hloop.
  destruct (for_each (entries st) _ st) as [[e|[]] st1]; simpl in Hloop;
    destruct Hloop as (_ & _ & Hl & _); [done |].
  rewrite bind_get_state. unfold mbind at 1, M_bind at 1.
  destruct (for_each (entries st1) set_entry_value st1) as [[e|[]] st2] eqn:Hrefresh; [done |].
  destruct (refresh_spec _ _ _ Hrefresh) as (_ & _ & Hl2 & _).
  unfold mbind, M_bind.
  destruct (display_image st2) as [[e|[]] st3] eqn:Hd; [done |].
  destruct (display_image_log _ _ Hd) as (img & ext & _ & Hl3).
  unfold emit. intros H. injection H as <-.
  rewrite (redisplays_app st (App (attrs st3) (cmap st3) (entries st3) (texts st3)
             (mode st3) (has_fig st3) (log st3 ++ [DrawIdle]))
             [Imshow img (cmap st2) ext; DrawIdle]).
  - simpl. lia.
  - simpl. rewrite Hl3, Hl2, Hl. by rewrite <- app_assoc.
Qed.

Lemma on_button_reset_clicked_log : preserves (same log) on_button_reset_clicked.
Proof. unfold on_button_reset_clicked, setattr, put_attrs. frame. Qed.

Lemma bind_inv {A B} (m : M A) (f : A -> M B) (st st' : app) (b : B) :
  (m ≫= f) st = (inr b, st') ->
  exists a st1, m st = (inr a, st1) /\ f a st1 = (inr b, st').
Proof.
  unfold mbind, M_bind. destruct (m st) as [[e|a] st1]; [done |]. eauto.
Qed.

Lemma emit_print_redisplays (text : string) :
  preserves (same redisplays) (emit (Print text)).
Proof.
  intros st. unfold same, redisplays. simpl.
  by rewrite filter_app, length_app, Nat.add_0_r.
Qed.

Lemma set_entry_value_redisplays (name : string) :
  preserves (same redisplays) (set_entry_value name).
Proof. unfold set_entry_value, set_text. frame. Qed.

Lemma set_entry_value_has_fig (name : string) :
  preserves (same has_fig) (set_entry_value name).
Proof. unfold set_entry_value, set_text. frame. Qed.

Lemma release_bounds_redisplays (factor : F) (event : pointer) :
  preserves (same redisplays) (release_bounds factor event).
Proof. unfold release_bounds, plane_x, plane_y, setattr, put_attrs. frame. Qed.

(** The other handlers that change the parameters end with [update_image]:
    when they return, exactly one image has been evaluated and shown. *)
Lemma handlers_redisplay_once (ev : event) (st st' : app) :
  match ev with
  | ClickApply | ButtonRelease _ => True
  | SelectMode _ => has_fig st = true
  | _ => False
  end ->
  handle ev st = (inr tt, st') -> redisplays st' = S (redisplays st).
Proof.
  destruct ev as [| | | |text| | | |p]; try done; intros Hev Hrun; unfold handle in Hrun.
  - by apply update_image_log.
  - unfold on_namecombo_changed in Hrun. revert Hrun. mrun.
    set (st0 := App _ _ _ _ _ _ _).
    intros Hrun. apply bind_inv in Hrun as ([] & st1 & Hpre & Hrun).
    assert (redisplays st1 = redisplays st /\ has_fig st1 = true) as [Hr Hf].
    { assert (preserves (same redisplays) (if bool_decide (text = Mandelbrot) then
          setattr "x" (VInt 0);; setattr "y" (VInt 0);;
          ex ← entry_of "x"; set_entry_value ex;;
          ey ← entry_of "y"; set_entry_value ey else mret tt)) as H1.
      { pose proof set_entry_value_redisplays. unfold setattr, put_attrs. frame. }
      assert (preserves (same has_fig) (if bool_decide (text = Mandelbrot) then
          setattr "x" (VInt 0);; setattr "y" (VInt 0);;
          ex ← entry_of "x"; set_entry_value ex;;
          ey ← entry_of "y"; set_entry_value ey else mret tt)) as H2.
      { pose proof set_entry_value_has_fig. unfold setattr, put_attrs. frame. }
      specialize (H1 st0). specialize (H2 st0). unfold same in H1, H2.
      rewrite Hpre in H1, H2. simpl in H1, H2. rewrite H1, H2. split; [|done].
      apply (emit_print_redisplays text
        (App (attrs st) (cmap st) (entries st) (texts st) text (has_fig st) (log st))). }
    revert Hrun. mrun. rewrite Hf. intros Hrun.
    rewrite <- Hr. by apply update_image_log.
  - unfold on_canvas_button_release in Hrun.
    apply bind_inv in Hrun as ([] & st1 & Hpre & Hrun).
    rewrite (update_image_log _ _ Hrun). f_equal.
    assert (preserves (same redisplays) (match mapping (ev_button p) with
        | Some factor => release_bounds factor p;;
            st ← get_state; for_each (entries st) set_entry_value
        | None => mret tt end)) as H1.
    { pose proof set_entry_value_redisplays. pose proof release_bounds_redisplays. frame. }
    specialize (H1 st). unfold same in H1. by rewrite Hpre in H1.
Qed.

End DisplayFacts.

(** C5, the part the code breaks.  The handler of the Reset button restores
    the attributes and the entry texts and returns: it asks for no evaluation
    and no redisplay, whatever the state. *)
Theorem reset_requests_no_redisplay :
  forall (R : Runtime) (st : app),
    log (step st ClickReset) = log st /\
    redisplays (step st ClickReset) = redisplays st.
Proof.
  intros R st. pose proof (on_button_reset_clicked_log st) as H. unfold same in H.
  unfold step, handle, redisplays. by rewrite H.
Qed.

(** ** Applying the entries *)

Section ApplyFacts.
Context `{R : Runtime}.

Local Abbreviation update_field := (fun name : string =>
  val ← get_entry_value name (dtype_of name);
  match val with
  | Some v => setattr name v
  | None => mret tt
  end).

Local Abbreviation parse := (fun (st : app) (name : string) =>
  parse_entry (text_of st name) (dtype_of name)).

(** When no conversion raises, the first loop of [update_image] runs to its
    end and stores what each entry parses to. *)
Lemma update_loop_applies (l : list string) :
  forall st,
    (forall name, name ∈ l -> exists r, parse st name = inr r) ->
    exists st',
      for_each l update_field st = (inr tt, st') /\
      texts st' = texts st /\ entries st' = entries st /\ log st' = log st /\
      mode st' = mode st /\ has_fig st' = has_fig st /\ cmap st' = cmap st /\
      (forall name v, name ∈ l -> parse st name = inr (Some v) ->
                      attrs st' !! name = Some v) /\
      (forall name, name ∈ l -> parse st name = inr None ->
                    attrs st' !! name = attrs st !! name) /\
      (forall name, name ∉ l -> attrs st' !! name = attrs st !! name).
Proof.
  induction l as [|a l IH]; intros st Hok.
  - exists st. split_and!; try done; intros name; intros; by apply elem_of_nil in H.
  - destruct (Hok a) as [r Hr]; [by left |].
    cbn [for_each]. unfold mbind at 1, M_bind at 1. rewrite update_field_run.
    cbv beta in Hr. rewrite Hr.
    set (st1 := match r with
                | Some v => App (<[a := v]> (attrs st)) (cmap st) (entries st) (texts st)
                                (mode st) (has_fig st) (log st)
                | None => st
                end).
    assert (texts st1 = texts st /\ entries st1 = entries st /\ log st1 = log st /\
            mode st1 = mode st /\ has_fig st1 = has_fig st /\ cmap st1 = cmap st)
      as (Ht1 & He1 & Hl1 & Hm1 & Hf1 & Hc1) by (by destruct r).
    assert (forall name, parse st1 name = parse st name) as Hp1.
    { intros name. cbv beta. unfold text_of. by rewrite Ht1. }
    destruct (IH st1) as (st' & Hrun & Ht & He & Hl & Hm & Hf & Hc & Hsome & Hnone & Hout).
    { intros name Hin. rewrite Hp1. apply Hok. by right. }
    exists st'. split; [by destruct r |].
    split_and!; [congruence.. | | |].
    + intros name v Hin Hv. destruct (decide (name ∈ l)) as [Hl' | Hl'].
      * apply Hsome; [done |]. by rewrite Hp1.
      * apply elem_of_cons in Hin as [-> | Hin]; [| done].
        rewrite Hout by done. cbv beta in Hv. rewrite Hr in Hv. injection Hv as ->.
        subst st1. cbn [attrs]. by rewrite lookup_insert_eq.
    + intros name Hin Hn. destruct (decide (name ∈ l)) as [Hl' | Hl'].
      * rewrite Hnone by (by rewrite ?Hp1). subst st1. destruct r as [v|]; [| done].
        cbn [attrs]. rewrite lookup_insert_ne; [done |]. intros ->.
        cbv beta in Hn. rewrite Hr in Hn. done.
      * apply elem_of_cons in Hin as [-> | Hin]; [| done].
        rewrite Hout by done. cbv beta in Hn. rewrite Hr in Hn. injection Hn as ->. done.
    + intros name Hin. apply not_elem_of_cons in Hin as [Hne Hin].
      rewrite Hout by done. subst st1. destruct r as [v|]; [| done].
      cbn [attrs]. by rewrite lookup_insert_ne.
Qed.

(** When a conversion raises, the loop stops with an exception and has
    changed attributes only. *)
Lemma update_loop_raises (l : list string) :
  forall st name e,
    name ∈ l -> parse st name = inl e ->
    exists e' st',
      for_each l update_field st = (inl e', st') /\
      texts st' = texts st /\ log st' = log st.
Proof.
  induction l as [|a l IH]; intros st name e Hin He.
  - by apply elem_of_nil in Hin.
  - cbn [for_each]. unfold mbind at 1, M_bind at 1. rewrite update_field_run.
    destruct (parse_entry (text_of st a) (dtype_of a)) as [e0 | r] eqn:Hr.
    + by exists e0, st.
    + assert (name ∈ l) as Hin'.
      { apply elem_of_cons in Hin as [-> | Hin]; [| done].
        cbv beta in He. rewrite Hr in He. done. }
      set (st1 := match r with
                  | Some v => App (<[a := v]> (attrs st)) (cmap st) (entries st) (texts st)
                                  (mode st) (has_fig st) (log st)
                  | None => st
                  end).
      destruct (IH st1 name e Hin') as (e' & st' & Hrun & Ht & Hl).
      { cbv beta. replace (text_of st1 name) with (text_of st name); [done |].
        by destruct r. }
      exists e', st'. split; [by destruct r |]. by destruct r.
Qed.

Lemma update_image_attrs_after_loop (st st1 : app) :
  for_each (entries st) update_field st = (inr tt, st1) ->
  attrs (snd (update_image st)) = attrs st1.
Proof.
  intros Hrun. unfold update_image. rewrite bind_get_state, snd_bind, Hrun. cbn [fst snd].
  apply update_image_tail_attrs.
Qed.

(** [get_entry_value] on a float field never raises; on an int field it gives
    the integer [int(float(text))] when both conversions succeed. *)
Lemma parse_entry_float_field (text : string) (name : string) :
  dtype_of name = DFloat -> exists r, parse_entry text (dtype_of name) = inr r.
Proof. intros ->. unfold parse_entry. destruct (py_float text); eauto. Qed.

Lemma parse_entry_float_value (text : string) (name : string) (x : F) :
  dtype_of name = DFloat -> py_float text = Some x ->
  parse_entry text (dtype_of name) = inr (Some (VFloat x)).
Proof. intros -> Hx. unfold parse_entry. by rewrite Hx. Qed.

Lemma parse_entry_int_field (text : string) (name : string) (x : F) (z : Z) :
  dtype_of name = DInt -> py_float text = Some x -> py_int x = inr z ->
  parse_entry text (dtype_of name) = inr (Some (VInt z)).
Proof. intros -> Hx Hz. unfold parse_entry. by rewrite Hx, Hz. Qed.

End ApplyFacts.

(** ** Releasing the button *)

Section ReleaseFacts.
Context `{R : Runtime}.

Lemma refresh_attrs (l : list string) :
  preserves (same attrs) (for_each l set_entry_value).
Proof. frame. Qed.

(** A drag: the press position goes to the [min] bounds and the current
    position to the [max] bounds, in this order. *)
Lemma release_bounds_drag (factor : F) (event : pointer) (st : app) (x1 y1 x2 y2 : value) :
  gesture st x1 y1 x2 y2 -> is_click x1 y1 x2 y2 = false ->
  exists st1, release_bounds factor event st = (inr tt, st1) /\ bounds st1 x1 x2 y1 y2.
Proof.
  intros (H1 & H2 & H3 & H4) Hdrag. unfold is_click in Hdrag.
  unfold release_bounds. mrun. rewrite Hdrag. mrun.
  eexists. split; [reflexivity |].
  unfold bounds. cbn [attrs]. by simplify_map_eq.
Qed.

(** A click: the new bounds lie half of the scaled extent on either side of
    the plane position of the pointer. *)
Lemma release_bounds_click (factor : F) (event : pointer) (st : app)
    (x1 y1 x2 y2 xmin xmax ymin ymax xsize ysize : value) :
  gesture st x1 y1 x2 y2 -> is_click x1 y1 x2 y2 = true ->
  bounds st xmin xmax ymin ymax ->
  attrs st !! "xsize" = Some xsize -> attrs st !! "ysize" = Some ysize ->
  let xc := interp_pixel (ev_x event) xsize xmin xmax in
  let yc := interp_pixel (ev_y event) ysize ymin ymax in
  let xlen := (factor * to_float (py_sub xmax xmin))%fl in
  let ylen := (factor * to_float (py_sub ymax ymin))%fl in
  exists st1, release_bounds factor event st = (inr tt, st1) /\
    bounds st1 (VFloat (xc - xlen / lit 20 1)%fl) (VFloat (xc + xlen / lit 20 1)%fl)
               (VFloat (yc - ylen / lit 20 1)%fl) (VFloat (yc + ylen / lit 20 1)%fl).
Proof.
  intros (H1 & H2 & H3 & H4) Hclick (Hxmin & Hxmax & Hymin & Hymax) Hxs Hys.
  unfold is_click in Hclick. cbv zeta.
  unfold release_bounds, plane_x, plane_y. mrun. rewrite Hclick. mrun.
  eexists. split; [reflexivity |].
  unfold bounds. cbn [attrs]. by simplify_map_eq.
Qed.

End ReleaseFacts.

Lemma bounds_viewport `{R : Runtime} (st : app) (a b c d : value) :
  bounds st a b c d -> viewport st (to_float a) (to_float b) (to_float c) (to_float d).
Proof. intros (Ha & Hb & Hc & Hd). unfold viewport. by rewrite Ha, Hb, Hc, Hd. Qed.

(** ** What the release handler leaves in the bounds *)

Section SettleFacts.
Context `{R : Runtime}.

Local Abbreviation update_field := (fun name : string =>
  val ← get_entry_value name (dtype_of name);
  match val with
  | Some v => setattr name v
  | None => mret tt
  end).

(** When the first loop of [update_image] returns, no conversion raised. *)
Lemma update_loop_returns (l : list string) (st st' : app) (name : string) :
  for_each l update_field st = (inr tt, st') -> name ∈ l ->
  exists r, parse_entry (text_of st name) (dtype_of name) = inr r.
Proof.
  intros Hrun Hin.
  destruct (parse_entry (text_of st name) (dtype_of name)) as [e | r] eqn:Hp; [| eauto].
  destruct (update_loop_raises l st name e Hin Hp) as (e' & st1 & Hrun' & _).
  rewrite Hrun in Hrun'. done.
Qed.

(** When [update_image] returns, a float field whose entry shows the text of
    its value holds the number read back from that text. *)
Lemma update_image_shown (st st' : app) (name : string) (v : value) (s : string) :
  update_image st = (inr tt, st') ->
  name ∈ entries st -> dtype_of name = DFloat ->
  attrs st !! name = Some v -> value_str v = inr s -> texts st !! name = Some s ->
  attrs st' !! name = Some (shown v).
Proof.
  intros Hupd Hin Hdt Hv Hs Ht.
  assert (exists st1, for_each (entries st) update_field st = (inr tt, st1)) as [st1 Hrun].
  { unfold update_image in Hupd. rewrite bind_get_state in Hupd.
    unfold mbind at 1, M_bind at 1 in Hupd.
    destruct (for_each (entries st) _ st) as [[e | []] st1]; [done | eauto]. }
  pose proof (update_image_attrs_after_loop st st1 Hrun) as Ha.
  rewrite Hupd in Ha. cbn [snd] in Ha. rewrite Ha.
  destruct (update_loop_applies (entries st) st)
    as (st1' & Hrun' & _ & _ & _ & _ & _ & _ & Hsome & Hnone & _).
  { intros name' Hin'. by eapply update_loop_returns. }
  rewrite Hrun in Hrun'. injection Hrun' as <-.
  assert (text_of st name = s) as Htext by (unfold text_of; by rewrite Ht).
  unfold shown. rewrite Hs.
  destruct (py_float s) as [r |] eqn:Hr.
  - apply Hsome; [done |]. rewrite Htext, Hdt. unfold parse_entry. by rewrite Hr.
  - rewrite Hnone; [done | done |]. rewrite Htext, Hdt. unfold parse_entry. by rewrite Hr.
Qed.

(** When the release handler returns after [release_bounds] has assigned the
    bounds, a float field with an entry holds its value as the entry gives it
    back. *)
Lemma release_settles (event : pointer) (st st1 : app) (factor : F)
    (name : string) (v : value) :
  mapping (ev_button event) = Some factor ->
  release_bounds factor event st = (inr tt, st1) ->
  fst (handle (ButtonRelease event) st) = inr tt ->
  name ∈ entries st1 -> dtype_of name = DFloat -> attrs st1 !! name = Some v ->
  attrs (step st (ButtonRelease event)) !! name = Some (shown v).
Proof.
  intros Hmap Hrb Hret Hin Hdt Hv.
  unfold step. destruct (handle (ButtonRelease event) st) as [r st'] eqn:Hrun.
  cbn [fst snd] in *. subst r.
  unfold handle, on_canvas_button_release in Hrun. rewrite Hmap in Hrun.
  rewrite !bind_assoc in Hrun. unfold mbind at 1, M_bind at 1 in Hrun. rewrite Hrb in Hrun.
  rewrite bind_assoc, bind_get_state in Hrun. unfold mbind at 1, M_bind at 1 in Hrun.
  destruct (for_each (entries st1) set_entry_value st1) as [[e | []] st2] eqn:Hrefresh; [done |].
  destruct (refresh_spec _ _ _ Hrefresh) as (Ha & He & _ & Ht).
  destruct (proj1 (Ht name) Hin) as (v0 & s & Hv0 & Hs & Htext).
  assert (v0 = v) as -> by congruence.
  apply (update_image_shown st2 st' name v s); [done | by rewrite He | done | | done | done].
  by rewrite Ha.
Qed.

Lemma release_bounds_entries (factor : F) (event : pointer) :
  preserves (same entries) (release_bounds factor event).
Proof. unfold release_bounds, plane_x, plane_y, setattr. frame. Qed.

Lemma release_settles_bounds (event : pointer) (st st1 : app) (factor : F)
    (a b c d : value) :
  mapping (ev_button event) = Some factor ->
  release_bounds factor event st = (inr tt, st1) ->
  bounds st1 a b c d -> bound_entries st ->
  fst (handle (ButtonRelease event) st) = inr tt ->
  bounds (step st (ButtonRelease event)) (shown a) (shown b) (shown c) (shown d).
Proof.
  intros Hmap Hrb (Ha & Hb & Hc & Hd) (Ea & Eb & Ec & Ed) Hret.
  pose proof (release_bounds_entries factor event st) as He. unfold same in He.
  rewrite Hrb in He. cbn [snd] in He.
  split_and!; eapply release_settles; try done; by rewrite He.
Qed.

End SettleFacts.

(** C3, as the code has it.  A press at [(x1, y1)] followed by motion to
    [(x2, y2)], none of the four a NaN and the two positions not comparing
    equal: on releasing button 1 or 3 the handler assigns [xmin = x1],
    [xmax = x2], [ymin = y1], [ymax = y2], in this order and without comparing
    them.  When the four bounds have entries and the handler returns, the
    rectangle it leaves is these four numbers as their entries give them back
    (written with at most 12 decimals and read again).  This is the bounding
    box of the two corners so given back when the first lies below the second
    in both coordinates. *)
Theorem drag_assigns_press_then_release :
  forall (R : Runtime) (st : app) (event : pointer) (factor : F) (x1 y1 x2 y2 : value),
    mapping (ev_button event) = Some factor ->
    gesture st x1 y1 x2 y2 -> numbers x1 y1 x2 y2 -> is_click x1 y1 x2 y2 = false ->
    (exists st1, release_bounds factor event st = (inr tt, st1) /\
                 bounds st1 x1 x2 y1 y2) /\
    (bound_entries st -> fst (handle (ButtonRelease event) st) = inr tt ->
     bounds (step st (ButtonRelease event)) (shown x1) (shown x2) (shown y1) (shown y2)) /\
    (bound_entries st -> fst (handle (ButtonRelease event) st) = inr tt ->
     below (to_float (shown x1)) (to_float (shown x2)) ->
     below (to_float (shown y1)) (to_float (shown y2)) ->
     viewport (step st (ButtonRelease event))
       (fmin (to_float (shown x1)) (to_float (shown x2)))
       (fmax (to_float (shown x1)) (to_float (shown x2)))
       (fmin (to_float (shown y1)) (to_float (shown y2)))
       (fmax (to_float (shown y1)) (to_float (shown y2)))).
Proof.
  intros R st event factor x1 y1 x2 y2 Hmap Hg _ Hdrag.
  destruct (release_bounds_drag factor event st x1 y1 x2 y2 Hg Hdrag) as (st1 & Hrb & Hb).
  assert (bound_entries st -> fst (handle (ButtonRelease event) st) = inr tt ->
          bounds (step st (ButtonRelease event))
                 (shown x1) (shown x2) (shown y1) (shown y2)) as Hfinal.
  { intros He Hret. by eapply release_settles_bounds. }
  split_and!; [by exists st1 | done |].
  intros He Hret [Hx Hx'] [Hy Hy']. unfold fmin, fmax, fgtb.
  rewrite Hx, Hx', Hy, Hy'. by apply bounds_viewport, Hfinal.
Qed.

Section DragExamples.
#[local] Existing Instance binary64.

Local Abbreviation pixel := (fun k : Z =>
  VFloat (interp_pixel (of_Z k) (VInt 8) (VFloat (fneg (lit 15 1))) (VFloat (lit 15 1)))).

(** On [sample], a drag with button 1 from the pixel [(1, 2)] to the pixel
    [(5, 6)]: the handler returns and leaves the two positions, rounded to 12
    decimals by their entries. *)
Lemma drag_assigns_press_then_release_witness :
  mapping (ev_button (at_pixel 5 6 1 256)) = Some (lit 75 2) /\
  gesture dragging_in (pixel 1) (pixel 2) (pixel 5) (pixel 6) /\
  numbers (pixel 1) (pixel 2) (pixel 5) (pixel 6) /\
  is_click (pixel 1) (pixel 2) (pixel 5) (pixel 6) = false /\
  bound_entries dragging_in /\
  fst (handle (ButtonRelease (at_pixel 5 6 1 256)) dragging_in) = inr tt /\
  bounds (step dragging_in (ButtonRelease (at_pixel 5 6 1 256)))
         (shown (pixel 1)) (shown (pixel 5)) (shown (pixel 2)) (shown (pixel 6)) /\
  to_float (shown (pixel 1)) = lit (-1071428571429) 12 /\
  to_float (shown (pixel 5)) = lit 642857142857 12 /\
  to_float (shown (pixel 2)) = lit (-642857142857) 12 /\
  to_float (shown (pixel 6)) = lit 1071428571429 12.
Proof.
  assert (mapping (ev_button (at_pixel 5 6 1 256)) = Some (lit 75 2)) as Hmap
    by (vm_compute; reflexivity).
  assert (gesture dragging_in (pixel 1) (pixel 2) (pixel 5) (pixel 6)) as Hg
    by (repeat split; reflexivity).
  assert (numbers (pixel 1) (pixel 2) (pixel 5) (pixel 6)) as Hn
    by (repeat split; vm_compute; reflexivity).
  assert (is_click (pixel 1) (pixel 2) (pixel 5) (pixel 6) = false) as Hdrag
    by (vm_compute; reflexivity).
  assert (bound_entries dragging_in) as He.
  { repeat split; change (entries dragging_in) with fields; unfold fields;
      repeat first [apply list_elem_of_here | apply list_elem_of_further]. }
  assert (fst (handle (ButtonRelease (at_pixel 5 6 1 256)) dragging_in) = inr tt) as Hret
    by (vm_compute; reflexivity).
  split_and!; [done.. | | | | |].
  - exact (proj1 (proj2 (drag_assigns_press_then_release binary64 dragging_in
             (at_pixel 5 6 1 256) (lit 75 2) _ _ _ _ Hmap Hg Hn Hdrag)) He Hret).
  - vm_compute. reflexivity.
  - vm_compute. reflexivity.
  - vm_compute. reflexivity.
  - vm_compute. reflexivity.
Defined.

(** C3 as stated fails.  On [sample], drag with button 1 from the pixel
    [(7, 7)] (plane position [(1.5, 1.5)]) to the pixel [(0, 0)] (plane
    position [(-1.5, -1.5)]) and release: the handler returns, and the
    rectangle it leaves is not the bounding box of the two positions; it has
    [xmin = 1.5] and [xmax = -1.5]. *)
Lemma drag_backwards_is_not_bounding_box :
  mapping (ev_button (at_pixel 0 0 1 256)) = Some (lit 75 2) /\
  gesture dragging_back (VFloat 1.5%float) (VFloat 1.5%float)
                        (VFloat (-1.5)%float) (VFloat (-1.5)%float) /\
  is_click (VFloat 1.5%float) (VFloat 1.5%float)
           (VFloat (-1.5)%float) (VFloat (-1.5)%float) = false /\
  fst (handle (ButtonRelease (at_pixel 0 0 1 256)) dragging_back) = inr tt /\
  viewport (step dragging_back (ButtonRelease (at_pixel 0 0 1 256)))
           1.5%float (-1.5)%float 1.5%float (-1.5)%float /\
  ~ viewport (step dragging_back (ButtonRelease (at_pixel 0 0 1 256)))
             (fmin 1.5 (-1.5))%float (fmax 1.5 (-1.5))%float
             (fmin 1.5 (-1.5))%float (fmax 1.5 (-1.5))%float.
Proof.
  split_and!.
  - vm_compute. reflexivity.
  - repeat split; reflexivity.
  - vm_compute. reflexivity.
  - vm_compute. reflexivity.
  - repeat split; vm_compute; reflexivity.
  - intros (H & _).
    apply (f_equal (fun o => match o with Some x => PrimFloat.ltb 0 x | None => false end)) in H.
    vm_compute in H. discriminate.
Qed.

End DragExamples.

(** Facts of the exact arithmetic used for the click zoom. *)
Lemma exact_of_Z_sub (x y : Z) : Exact.of_Z (x - y) = (Exact.of_Z x - Exact.of_Z y)%Qc.
Proof.
  unfold Exact.of_Z. apply Qc_is_canon. simpl.
  rewrite !Qred_correct. unfold inject_Z, Qminus, Qplus, Qopp, Qeq. simpl. lia.
Qed.

Lemma exact_to_float_sub (a b : @value exact) :
  to_float (py_sub a b) = (to_float a - to_float b)%Qc.
Proof. destruct a, b; simpl; try done. apply exact_of_Z_sub. Qed.

Lemma exact_lit_two : @lit (@arith exact) 20 1 = Exact.of_Z 2.
Proof. apply Qc_is_canon. vm_compute. reflexivity. Qed.

Lemma exact_of_Z_two : Exact.of_Z 2 = (1 + 1)%Qc.
Proof. apply Qc_is_canon. reflexivity. Qed.

Lemma exact_zoom_extent (c l : Qc) :
  ((c + l / Exact.of_Z 2) - (c - l / Exact.of_Z 2) = l)%Qc.
Proof. rewrite exact_of_Z_two. field. intros H. discriminate H. Qed.

Lemma exact_zoom_centre (c l : Qc) :
  (((c - l / Exact.of_Z 2) + (c + l / Exact.of_Z 2)) / Exact.of_Z 2 = c)%Qc.
Proof. rewrite exact_of_Z_two. field. intros H. discriminate H. Qed.

(** C4, as the code has it.  On a release of button 1 or 3 with press and
    current position comparing equal, the handler assigns
    [xmin = xc - xlen/2.0], [xmax = xc + xlen/2.0], [ymin = yc - ylen/2.0],
    [ymax = yc + ylen/2.0], where [(xc, yc)] is the plane position of the
    pointer under the current rectangle, [xlen = factor * (xmax - xmin)] and
    [ylen = factor * (ymax - ymin)], each operation in the arithmetic of the
    runtime.  When the four bounds have entries and the handler returns, the
    rectangle it leaves is these four numbers as their entries give them back
    (written with at most 12 decimals and read again).  In exact arithmetic
    the assigned rectangle has exactly [factor] times the width and the height
    of the current one and is centred at [(xc, yc)].  The factor is [0.75] for
    button 1 and [1.5] for button 3. *)
Theorem click_zoom_about_pointer :
  (forall (R : Runtime) (st : app) (event : pointer) (factor : F)
          (x1 y1 x2 y2 xmin xmax ymin ymax xsize ysize : value),
     mapping (ev_button event) = Some factor ->
     gesture st x1 y1 x2 y2 -> is_click x1 y1 x2 y2 = true ->
     bounds st xmin xmax ymin ymax ->
     attrs st !! "xsize" = Some xsize -> attrs st !! "ysize" = Some ysize ->
     let xc := interp_pixel (ev_x event) xsize xmin xmax in
     let yc := interp_pixel (ev_y event) ysize ymin ymax in
     let xlen := (factor * to_float (py_sub xmax xmin))%fl in
     let ylen := (factor * to_float (py_sub ymax ymin))%fl in
     let a := (xc - xlen / lit 20 1)%fl in
     let b := (xc + xlen / lit 20 1)%fl in
     let c := (yc - ylen / lit 20 1)%fl in
     let d := (yc + ylen / lit 20 1)%fl in
     (exists st1, release_bounds factor event st = (inr tt, st1) /\
                  bounds st1 (VFloat a) (VFloat b) (VFloat c) (VFloat d)) /\
     (bound_entries st -> fst (handle (ButtonRelease event) st) = inr tt ->
      bounds (step st (ButtonRelease event))
             (shown (VFloat a)) (shown (VFloat b)) (shown (VFloat c)) (shown (VFloat d)))) /\
  (forall (st : @app exact) (event : @pointer exact) (factor : Qc)
          (x1 y1 x2 y2 xmin xmax ymin ymax xsize ysize : @value exact),
     @mapping exact (ev_button event) = Some factor ->
     gesture st x1 y1 x2 y2 -> is_click x1 y1 x2 y2 = true ->
     bounds st xmin xmax ymin ymax ->
     attrs st !! "xsize" = Some xsize -> attrs st !! "ysize" = Some ysize ->
     exists st1, @release_bounds exact factor event st = (inr tt, st1) /\
       @zoomed exact st st1 factor (interp_pixel (ev_x event) xsize xmin xmax)
                                   (interp_pixel (ev_y event) ysize ymin ymax)) /\
  (@mapping binary64 1 = Some 0.75%float /\ @mapping binary64 3 = Some 1.5%float /\
   @mapping exact 1 = Some (Q2Qc (3 # 4)) /\ @mapping exact 3 = Some (Q2Qc (3 # 2))).
Proof.
  split_and!.
  - intros R st event factor x1 y1 x2 y2 xmin xmax ymin ymax xsize ysize
      Hmap Hg Hclick Hb Hxs Hys xc yc xlen ylen a b c d.
    destruct (release_bounds_click factor event st x1 y1 x2 y2 xmin xmax ymin ymax
                xsize ysize Hg Hclick Hb Hxs Hys) as (st1 & Hrb & Hb1).
    split; [by exists st1 |].
    intros He Hret.
    exact (release_settles_bounds event st st1 factor _ _ _ _ Hmap Hrb Hb1 He Hret).
  - intros st event factor x1 y1 x2 y2 xmin xmax ymin ymax xsize ysize
      Hmap Hg Hclick Hb Hxs Hys.
    destruct (@release_bounds_click exact factor event st x1 y1 x2 y2 xmin xmax ymin ymax
                xsize ysize Hg Hclick Hb Hxs Hys) as (st1 & Hrb & Hb1).
    exists st1. split; [done |].
    do 8 eexists. split; [by apply bounds_viewport |]. split; [by apply bounds_viewport |].
    cbn [to_float]. rewrite !exact_to_float_sub, exact_lit_two.
    cbn [F arith exact exact_arith fadd fsub fmul fdiv of_Z].
    split_and!.
    + apply exact_zoom_extent.
    + apply exact_zoom_extent.
    + apply exact_zoom_centre.
    + apply exact_zoom_centre.
  - vm_compute. reflexivity.
  - vm_compute. reflexivity.
  - unfold mapping. simpl. f_equal. apply Qc_is_canon. vm_compute. reflexivity.
  - unfold mapping. simpl. f_equal. apply Qc_is_canon. vm_compute. reflexivity.
Qed.

Section ClickExamples.

Local Abbreviation release64 := (@at_pixel binary64 1 1 1 256).
Local Abbreviation releaseQ := (@at_pixel exact 1 1 1 256).
Local Abbreviation lo64 := (@VFloat binary64 (fneg (lit 15 1))).
Local Abbreviation hi64 := (@VFloat binary64 (lit 15 1)).
Local Abbreviation loQ := (@VFloat exact (fneg (lit 15 1))).
Local Abbreviation hiQ := (@VFloat exact (lit 15 1)).
Local Abbreviation pos64 :=
  (@VFloat binary64 (interp_pixel (of_Z 1) (VInt 8) lo64 hi64)).
Local Abbreviation posQ :=
  (@VFloat exact (interp_pixel (of_Z 1) (VInt 8) loQ hiQ)).
Local Abbreviation centre64 := (@interp_pixel binary64 (of_Z 1) (VInt 8) lo64 hi64).
Local Abbreviation half64 :=
  (@fdiv (@arith binary64)
     (@fmul (@arith binary64) (lit 75 2) (to_float (py_sub hi64 lo64))) (lit 20 1)).
Local Abbreviation low64 := (@VFloat binary64 (@fsub (@arith binary64) centre64 half64)).
Local Abbreviation high64 := (@VFloat binary64 (@fadd (@arith binary64) centre64 half64)).

(** On [sample], press and release button 1 on the pixel [(1, 1)]: the
    handler assigns [-2.1964285714285712] and [0.053571428571428603] to the
    bounds of either axis, returns, and leaves them as their entries give them
    back, [-2.196428571429] and [0.053571428571]; in exact arithmetic the
    assigned rectangle is the current one scaled by [3/4] about the pointer. *)
Lemma click_zoom_about_pointer_witness :
  (@mapping binary64 (ev_button release64) = Some (lit 75 2) /\
   gesture clicking pos64 pos64 pos64 pos64 /\ is_click pos64 pos64 pos64 pos64 = true /\
   bounds clicking lo64 hi64 lo64 hi64 /\
   bound_entries (@clicking binary64) /\
   fst (handle (ButtonRelease release64) clicking) = inr tt /\
   (exists st1,
      release_bounds (lit 75 2) release64 clicking = (inr tt, st1) /\
      bounds st1 low64 high64 low64 high64) /\
   bounds (step clicking (ButtonRelease release64))
          (shown low64) (shown high64) (shown low64) (shown high64) /\
   @to_float binary64 low64 = lit (-21964285714285712) 16 /\
   @to_float binary64 high64 = lit 53571428571428603 18 /\
   to_float (shown low64) = @lit (@arith binary64) (-2196428571429) 12 /\
   to_float (shown high64) = @lit (@arith binary64) 53571428571 12) /\
  (@mapping exact (ev_button releaseQ) = Some (lit 75 2) /\
   gesture clicking posQ posQ posQ posQ /\ is_click posQ posQ posQ posQ = true /\
   bounds clicking loQ hiQ loQ hiQ /\
   exists st1,
     @release_bounds exact (lit 75 2) releaseQ clicking = (inr tt, st1) /\
     @zoomed exact clicking st1 (lit 75 2) (interp_pixel (ev_x releaseQ) (VInt 8) loQ hiQ)
                                           (interp_pixel (ev_y releaseQ) (VInt 8) loQ hiQ)).
Proof.
  split.
  - assert (@mapping binary64 (ev_button release64) = Some (lit 75 2)) as Hmap
      by (vm_compute; reflexivity).
    assert (gesture clicking pos64 pos64 pos64 pos64) as Hg by (repeat split; reflexivity).
    assert (is_click pos64 pos64 pos64 pos64 = true) as Hc by (vm_compute; reflexivity).
    assert (bounds clicking lo64 hi64 lo64 hi64) as Hb by (repeat split; reflexivity).
    assert (bound_entries (@clicking binary64)) as He.
    { repeat split; change (entries (@clicking binary64)) with fields; unfold fields;
        repeat first [apply list_elem_of_here | apply list_elem_of_further]. }
    assert (fst (handle (ButtonRelease release64) clicking) = inr tt) as Hret
      by (vm_compute; reflexivity).
    split; [exact Hmap |]. split; [exact Hg |]. split; [exact Hc |]. split; [exact Hb |].
    split; [exact He |]. split; [exact Hret |].
    split; [| split; [| split_and!; vm_compute; reflexivity]].
    + exact (proj1 (proj1 click_zoom_about_pointer binary64 clicking release64 (lit 75 2)
               pos64 pos64 pos64 pos64 lo64 hi64 lo64 hi64 (VInt 8) (VInt 8)
               Hmap Hg Hc Hb eq_refl eq_refl)).
    + exact (proj2 (proj1 click_zoom_about_pointer binary64 clicking release64 (lit 75 2)
               pos64 pos64 pos64 pos64 lo64 hi64 lo64 hi64 (VInt 8) (VInt 8)
               Hmap Hg Hc Hb eq_refl eq_refl) He Hret).
  - assert (@mapping exact (ev_button releaseQ) = Some (lit 75 2)) as Hmap by reflexivity.
    assert (gesture clicking posQ posQ posQ posQ) as Hg by (repeat split; reflexivity).
    assert (is_click posQ posQ posQ posQ = true) as Hc by (vm_compute; reflexivity).
    assert (bounds clicking loQ hiQ loQ hiQ) as Hb by (repeat split; reflexivity).
    split; [exact Hmap |]. split; [exact Hg |]. split; [exact Hc |]. split; [exact Hb |].
    exact (proj1 (proj2 click_zoom_about_pointer) clicking releaseQ (@lit (@arith exact) 75 2)
             posQ posQ posQ posQ loQ hiQ loQ hiQ (VInt 8) (VInt 8)
             Hmap Hg Hc Hb eq_refl eq_refl).
Defined.

#[local] Existing Instance binary64.

(** C4 as stated fails.  On [sample], press and release button 1 on the pixel
    [(1, 1)], whose plane position is [-1.0714285714285714] on both axes.  The
    bounds the handler assigns, [-2.1964285714285712] and
    [0.053571428571428603], have the midpoint [-1.0714285714285712]: the
    assigned rectangle is not centred at the plane position of the click.
    The handler returns; the entries have given the bounds back as
    [-2.196428571429] and [0.053571428571], and the rectangle it leaves is not
    centred there either. *)
Lemma click_zoom_is_not_exact :
  @mapping binary64 (ev_button release64) = Some (lit 75 2) /\
  gesture clicking pos64 pos64 pos64 pos64 /\ is_click pos64 pos64 pos64 pos64 = true /\
  fst (release_bounds (lit 75 2) release64 clicking) = inr tt /\
  ~ zoomed clicking (snd (release_bounds (lit 75 2) release64 clicking)) (lit 75 2)
           (interp_pixel (ev_x release64) (VInt 8) lo64 hi64)
           (interp_pixel (ev_y release64) (VInt 8) lo64 hi64) /\
  fst (handle (ButtonRelease release64) clicking) = inr tt /\
  text_of (step clicking (ButtonRelease release64)) "xmin" = "-2.196428571429" /\
  text_of (step clicking (ButtonRelease release64)) "xmax" = "0.053571428571" /\
  to_float <$> attrs (step clicking (ButtonRelease release64)) !! "xmin"
    = py_float "-2.196428571429" /\
  to_float <$> attrs (step clicking (ButtonRelease release64)) !! "xmax"
    = py_float "0.053571428571" /\
  ~ zoomed clicking (step clicking (ButtonRelease release64)) (lit 75 2)
           (interp_pixel (ev_x release64) (VInt 8) lo64 hi64)
           (interp_pixel (ev_y release64) (VInt 8) lo64 hi64).
Proof.
  split_and!.
  - vm_compute. reflexivity.
  - repeat split; reflexivity.
  - vm_compute. reflexivity.
  - vm_compute. reflexivity.
  - intros (xmin & xmax & ymin & ymax & a & b & c & d & _ & (Ha & Hb & _ & _) & _ & _ & Hxc & _).
    assert (match to_float <$> attrs (snd (release_bounds (lit 75 2) release64 clicking)) !! "xmin",
                  to_float <$> attrs (snd (release_bounds (lit 75 2) release64 clicking)) !! "xmax" with
            | Some u, Some w =>
                ((u + w) / of_Z 2 =? interp_pixel (ev_x release64) (VInt 8) lo64 hi64)%fl
            | _, _ => true
            end = false) as E by (vm_compute; reflexivity).
    rewrite Ha, Hb, Hxc in E. vm_compute in E. discriminate E.
  - vm_compute. reflexivity.
  - vm_compute. reflexivity.
  - vm_compute. reflexivity.
  - vm_compute. reflexivity.
  - vm_compute. reflexivity.
  - intros (xmin & xmax & ymin & ymax & a & b & c & d & _ & (Ha & Hb & _ & _) & _ & _ & Hxc & _).
    assert (match to_float <$> attrs (step clicking (ButtonRelease release64)) !! "xmin",
                  to_float <$> attrs (step clicking (ButtonRelease release64)) !! "xmax" with
            | Some u, Some w =>
                ((u + w) / of_Z 2 =? interp_pixel (ev_x release64) (VInt 8) lo64 hi64)%fl
            | _, _ => true
            end = false) as E by (vm_compute; reflexivity).
    rewrite Ha, Hb, Hxc in E. vm_compute in E. discriminate E.
Qed.

End ClickExamples.

(** ** Handlers assign no other attribute than the fields and the positions *)

Section HandlerFrames.
Context `{R : Runtime}.

Lemma setattr_within (K : list string) (k : string) (v : value) :
  bool_decide (k ∈ K) = true -> preserves (within K) (setattr k v).
Proof.
  intros Hk%bool_decide_eq_true st _. split; [done |].
  intros k' Hk'. simpl. apply lookup_insert_ne. by intros ->.
Qed.

(** A loop over the entries, when every entry is named in [K]. *)
Lemma entries_loop_within {B} (K : list string) (body : string -> M unit) (f : unit -> M B) :
  (forall name, name ∈ K -> preserves (within K) (body name)) ->
  (forall a, preserves (within K) (f a)) ->
  preserves (within K) (get_state ≫= fun st => for_each (entries st) body ≫= f).
Proof.
  intros Hbody Hf st Hsub. rewrite bind_get_state.
  assert (preserves (within K) (for_each (entries st) body ≫= f)) as H.
  { apply preserves_bind; [apply _ | | done].
    apply preserves_for_each_in; [apply _ |]. intros a Ha. apply Hbody. by apply Hsub. }
  by apply H.
Qed.

Lemma entries_loop_within' (K : list string) (body : string -> M unit) :
  (forall name, name ∈ K -> preserves (within K) (body name)) ->
  preserves (within K) (get_state ≫= fun st => for_each (entries st) body).
Proof.
  intros Hbody st Hsub. rewrite bind_get_state.
  assert (preserves (within K) (for_each (entries st) body)) as H.
  { apply preserves_for_each_in; [apply _ |]. intros a Ha. apply Hbody. by apply Hsub. }
  by apply H.
Qed.

Lemma setattr_within_in (K : list string) (k : string) (v : value) :
  k ∈ K -> preserves (within K) (setattr k v).
Proof. intros Hk. apply setattr_within. by apply bool_decide_eq_true. Qed.

Lemma update_image_within (K : list string) : preserves (within K) update_image.
Proof.
  unfold update_image. apply entries_loop_within.
  - intros name Hname. pose proof (setattr_within_in K name). frame.
  - intros _. unfold emit. frame.
Qed.

Lemma on_button_reset_clicked_within (K : list string) :
  preserves (within K) on_button_reset_clicked.
Proof.
  unfold on_button_reset_clicked. apply entries_loop_within'.
  intros name Hname. pose proof (setattr_within_in K name). frame.
Qed.

Lemma plane_x_within (K : list string) (p : F) : preserves (within K) (plane_x p).
Proof. unfold plane_x. frame. Qed.

Lemma plane_y_within (K : list string) (p : F) : preserves (within K) (plane_y p).
Proof. unfold plane_y. frame. Qed.

End HandlerFrames.

#[export] Hint Resolve update_image_within on_button_reset_clicked_within
  plane_x_within plane_y_within : frame.
#[export] Hint Extern 1 (preserves (within _) (setattr _ _)) =>
  apply setattr_within; reflexivity : frame.

Section HandleFrame.
Context `{R : Runtime}.

(** Every handler leaves the list of entries and the attributes outside
    [assigned] as they were. *)
Lemma handle_within (ev : event) : preserves (within assigned) (handle ev).
Proof.
  destruct ev; unfold handle.
  - unfold set_text. frame.
  - unfold on_button_apply_clicked. frame.
  - frame.
  - unfold on_button_save_clicked. frame.
  - unfold on_namecombo_changed, emit. frame.
  - unfold on_cmapcombo_changed, emit. frame.
  - unfold on_canvas_button_press. frame.
  - unfold on_canvas_motion_notify, emit. frame.
  - unfold on_canvas_button_release, release_bounds. frame.
Qed.

End HandleFrame.

(** ** Start-up snapshot and reset *)

Section ResetFacts.
Context `{R : Runtime}.

Local Abbreviation dflt := (fun name : string => name +:+ "_default").

Lemma bind_set_entry_value {B} (name : string) (v : value) (s : string)
    (f : unit -> M B) (st : app) :
  attrs st !! name = Some v -> value_str v = inr s ->
  (set_entry_value name ≫= f) st =
  f tt (App (attrs st) (cmap st) (entries st) (<[name := s]> (texts st))
            (mode st) (has_fig st) (log st)).
Proof. intros Hv Hs. unfold set_entry_value. mrun. rewrite Hs. by mrun. Qed.

(** The loop of [setup_interface] copies every field to its [_default]. *)
Lemma capture_loop (l : list string) :
  forall st,
    (forall name, name ∈ l -> exists v, attrs st !! name = Some v /\ printable v) ->
    (forall name name', name ∈ l -> name' ∈ l -> dflt name <> name') ->
    NoDup (dflt <$> l) ->
    exists st',
      for_each l (fun name =>
        v ← getattr name; setattr (dflt name) v;; set_entry_value name) st = (inr tt, st') /\
      entries st' = entries st /\
      (forall name, name ∈ l -> attrs st' !! dflt name = attrs st !! name) /\
      (forall k, (forall name, name ∈ l -> k <> dflt name) ->
                 attrs st' !! k = attrs st !! k).
Proof.
  induction l as [|a l IH]; intros st Hv Hne Hnd.
  - exists st. split_and!; [done..| |]; [intros name Hin; by apply elem_of_nil in Hin | done].
  - destruct (Hv a) as (v & Ha & s & Hs); [by left |].
    rewrite fmap_cons in Hnd. apply NoDup_cons in Hnd as [Ha_nd Hnd].
    cbn [for_each]. mrun.
    rewrite (bind_set_entry_value a v s).
    2: { cbn [attrs]. rewrite lookup_insert_ne; [done |]. apply Hne; by left. }
    2: done.
    cbn [attrs cmap entries texts mode has_fig log]. mrun.
    set (st1 := App _ _ _ _ _ _ _).
    destruct (IH st1) as (st' & Hrun & He & Hd & Hk); [| |done|].
    { intros name Hin. destruct (Hv name) as (v' & Hv' & Hp); [by right |].
      exists v'. split; [|done]. subst st1. cbn [attrs].
      rewrite lookup_insert_ne; [done |]. apply Hne; [by left | by right]. }
    { intros name name' Hin Hin'. apply Hne; by right. }
    exists st'. split_and!; [done | done | |].
    + intros name Hin. apply elem_of_cons in Hin as [-> | Hin].
      * rewrite Hk.
        -- subst st1. cbn [attrs]. by rewrite lookup_insert_eq.
        -- intros name Hin Heq. apply Ha_nd. rewrite Heq.
           by apply (list_elem_of_fmap_2 dflt).
      * rewrite (Hd name Hin). subst st1. cbn [attrs].
        rewrite lookup_insert_ne; [done |]. apply Hne; [by left | by right].
    + intros k Hk'. rewrite Hk.
      * subst st1. cbn [attrs]. rewrite lookup_insert_ne; [done |].
        intros <-. by apply (Hk' a); [left |].
      * intros name Hin. apply Hk'. by right.
Qed.

(** The loop of [on_button_reset_clicked] copies every [_default] back. *)
Lemma reset_loop (l : list string) :
  forall st,
    (forall name, name ∈ l -> exists v, attrs st !! dflt name = Some v /\ printable v) ->
    (forall name name', name ∈ l -> name' ∈ l -> dflt name <> name') ->
    exists st',
      for_each l (fun name =>
        d ← getattr (dflt name); setattr name d;; set_entry_value name) st = (inr tt, st') /\
      (forall name, name ∈ l -> attrs st' !! name = attrs st !! dflt name) /\
      (forall k, k ∉ l -> attrs st' !! k = attrs st !! k).
Proof.
  induction l as [|a l IH]; intros st Hv Hne.
  - exists st. split_and!; [done | | done]. intros name Hin; by apply elem_of_nil in Hin.
  - destruct (Hv a) as (v & Ha & s & Hs); [by left |].
    cbn [for_each]. mrun.
    rewrite (bind_set_entry_value a v s).
    2: { cbn [attrs]. by rewrite lookup_insert_eq. }
    2: done.
    cbn [attrs cmap entries texts mode has_fig log]. mrun.
    set (st1 := App _ _ _ _ _ _ _).
    assert (forall name, name ∈ a :: l -> attrs st1 !! dflt name = attrs st !! dflt name) as Hsame.
    { intros name Hin. subst st1. cbn [attrs]. rewrite lookup_insert_ne; [done |].
      intros Heq. by apply (Hne name a); [| left |]. }
    destruct (IH st1) as (st' & Hrun & Hd & Hk).
    { intros name Hin. destruct (Hv name) as (v' & Hv' & Hp); [by right |].
      exists v'. split; [|done]. rewrite Hsame; [done | by right]. }
    { intros name name' Hin Hin'. apply Hne; by right. }
    exists st'. split_and!; [done | |].
    + intros name Hin. destruct (decide (name ∈ l)) as [Hl | Hl].
      * rewrite (Hd name Hl). by apply Hsame.
      * apply elem_of_cons in Hin as [-> | Hin]; [|done].
        rewrite (Hk a Hl). subst st1. cbn [attrs]. by rewrite lookup_insert_eq.
    + intros k Hk'. apply not_elem_of_cons in Hk' as [Hka Hkl].
      rewrite (Hk k Hkl). subst st1. cbn [attrs]. by rewrite lookup_insert_ne.
Qed.

End ResetFacts.

(** ** What start-up leaves behind *)

Section StartupFacts.
Context `{R : Runtime}.

Local Abbreviation dflt := (fun name : string => name +:+ "_default").

Lemma fields_startup (name : string) :
  name ∈ fields <-> exists v, (name, v) ∈ startup.
Proof.
  split.
  - intros H. unfold fields in H.
    repeat (apply elem_of_cons in H as [-> | H];
            [eexists; unfold startup;
             repeat first [apply list_elem_of_here | apply list_elem_of_further] |]).
    by apply elem_of_nil in H.
  - intros [v H]. unfold startup in H.
    repeat (apply elem_of_cons in H as [H | H];
            [injection H as -> _; unfold fields;
             repeat first [apply list_elem_of_here | apply list_elem_of_further] |]).
    by apply elem_of_nil in H.
Qed.

Lemma startup_lookup (m : gmap string value) (name : string) (v : value) :
  (name, v) ∈ startup ->
  (<["niter" := VInt 256]> (<["zmax" := VFloat (lit 40 1)]> (<["n" := VInt 2]>
   (<["y" := VFloat (lit 6 1)]> (<["x" := VFloat (fneg (lit 4 1))]>
   (<["ymax" := VFloat (lit 15 1)]> (<["ymin" := VFloat (fneg (lit 15 1))]>
   (<["xmax" := VFloat (lit 15 1)]> (<["xmin" := VFloat (fneg (lit 15 1))]>
   (<["ysize" := VInt 600]> (<["xsize" := VInt 600]> m))))))))))) !! name = Some v.
Proof.
  intros H. unfold startup in H.
  repeat (apply elem_of_cons in H as [H | H]; [injection H as -> ->; by simplify_map_eq |]).
  by apply elem_of_nil in H.
Qed.

Lemma fields_defaults_distinct (name name' : string) :
  name ∈ fields -> name' ∈ fields -> dflt name <> name'.
Proof.
  intros H H'. unfold fields in H, H'.
  repeat (apply elem_of_cons in H as [-> | H]); [..| by apply elem_of_nil in H];
    repeat (apply elem_of_cons in H' as [-> | H']); try done; by apply elem_of_nil in H'.
Qed.

Lemma fields_defaults_NoDup : NoDup (dflt <$> fields).
Proof. apply (bool_decide_unpack _). vm_compute. exact I. Qed.

Lemma bind_run {A B : Type} (m : M A) (k : A -> M B) (st st' : app) (a : A) :
  m st = (inr a, st') -> (m ≫= k) st = k a st'.
Proof. intros H. unfold mbind, M_bind. by rewrite H. Qed.

(** [__init__] up to the loop that takes the snapshot. *)
Lemma App_init_run (cmaps : list string) :
  App_init cmaps blank =
  ((for_each fields (fun name =>
      v ← getattr name;
      setattr (name +:+ "_default") v;;
      set_entry_value name);;
    setup_image_box);;
   display_image)
    (App startup_attrs (match cmaps with c :: _ => c | [] => "Set3"%string end)
         fields startup_texts Julia false [Print Julia]).
Proof. destruct cmaps; reflexivity. Qed.

(** After [__init__] the snapshot is taken and the fields hold it. *)
Lemma App_init_snapshot (cmaps : list string) :
  (forall name v, (name, v) ∈ startup -> printable v) ->
  snapshot_taken (snd (App_init cmaps blank)) /\
  fields_at_defaults (snd (App_init cmaps blank)).
Proof.
  intros Hprint. rewrite App_init_run.
  set (st0 := App startup_attrs _ fields startup_texts Julia false _).
  destruct (capture_loop fields st0) as (st' & Hrun & He & Hd & Hk).
  { intros name [v Hv]%fields_startup. exists v. split; [|by eapply Hprint].
    by apply startup_lookup. }
  { apply fields_defaults_distinct. }
  { apply fields_defaults_NoDup. }
  assert (snapshot_taken st' /\ fields_at_defaults st') as Hst'.
  { split.
    - split; [done |]. intros name v Hv.
      rewrite Hd by (apply fields_startup; eauto). by apply startup_lookup.
    - intros name Hname. destruct (proj1 (fields_startup name) Hname) as [v Hv].
      exists v. rewrite Hd by done. rewrite Hk.
      + by split; apply startup_lookup.
      + intros name' Hname' Heq. by apply (fields_defaults_distinct name' name). }
  destruct Hst' as [[He' Hs] Hf].
  rewrite (bind_run _ _ _ _ _ (bind_run _ (fun _ => setup_image_box) _ _ _ Hrun)).
  cbv beta.
  match goal with |- context [display_image ?s] =>
    pose proof (display_image_attrs s) as Ha;
    pose proof (display_image_entries s) as Hen
  end.
  unfold same in Ha, Hen. unfold snapshot_taken, fields_at_defaults.
  rewrite Ha, Hen. done.
Qed.

Lemma defaults_not_assigned (name : string) :
  name ∈ fields -> dflt name ∉ assigned.
Proof.
  intros H. unfold fields in H.
  repeat (apply elem_of_cons in H as [-> | H];
          [apply (bool_decide_unpack _); vm_compute; exact I |]).
  by apply elem_of_nil in H.
Qed.

Lemma fields_assigned : fields ⊆ assigned.
Proof. intros name H. unfold assigned. apply elem_of_app. by left. Qed.

(** No event handler touches the snapshot. *)
Lemma step_snapshot (st : app) (ev : event) :
  snapshot_taken st -> snapshot_taken (step st ev).
Proof.
  intros [He Hs]. destruct (handle_within ev st) as [He' Hk].
  { rewrite He. apply fields_assigned. }
  split; [unfold step; congruence |].
  intros name v Hv. unfold step. rewrite Hk; [by apply Hs |].
  apply defaults_not_assigned, fields_startup. eauto.
Qed.

Lemma run_snapshot (evs : list event) (st : app) :
  snapshot_taken st -> snapshot_taken (run evs st).
Proof.
  revert st. induction evs as [|ev evs IH]; intros st H; [done |].
  apply IH. by apply step_snapshot.
Qed.

(** Reset gives every field the value of the snapshot. *)
Lemma reset_restores (st : app) :
  (forall name v, (name, v) ∈ startup -> printable v) ->
  snapshot_taken st ->
  fst (handle ClickReset st) = inr tt /\
  forall name v, (name, v) ∈ startup -> attrs (step st ClickReset) !! name = Some v.
Proof.
  intros Hprint [He Hs].
  destruct (reset_loop fields st) as (st' & Hrun & Hd & _).
  { intros name [v Hv]%fields_startup. exists v. split; [by apply Hs | by eapply Hprint]. }
  { apply fields_defaults_distinct. }
  unfold step, handle, on_button_reset_clicked. rewrite bind_get_state, He, Hrun.
  split; [done |]. intros name v Hv. cbn [snd].
  rewrite Hd by (apply fields_startup; eauto). by apply Hs.
Qed.

End StartupFacts.

(** C8. After any sequence of events that follows start-up, the reset handler
    returns normally and every one of the eleven fields [n], [x], [y], [zmax],
    [niter], [xmin], [xmax], [ymin], [ymax], [xsize], [ysize] holds the value
    that [setup_interface] stored in its [_default] attribute at start-up,
    which is the value [__init__] gave to the field.  The start-up values are
    assumed printable: [int] is defined on them. *)
Theorem reset_restores_startup_snapshot `{R : Runtime}
    (cmaps : list string) (evs : list event) :
  (forall name v, (name, v) ∈ startup -> printable v) ->
  let st0 := snd (App_init cmaps blank) in
  let st := run evs st0 in
  fst (handle ClickReset st) = inr tt /\
  forall name, name ∈ fields ->
    exists v, (name, v) ∈ startup /\
              attrs st0 !! (name +:+ "_default") = Some v /\
              attrs (step st ClickReset) !! name = Some v.
Proof.
  intros Hprint st0 st.
  destruct (App_init_snapshot cmaps Hprint) as [Hsnap _].
  pose proof (run_snapshot evs _ Hsnap) as Hst.
  destruct (reset_restores st Hprint Hst) as [Hret Hval].
  split; [exact Hret |].
  intros name [v Hv]%fields_startup. exists v. split_and!; [done | | by apply Hval].
  destruct Hsnap as [_ Hs]. by apply Hs.
Qed.

(** The start-up values are printable on binary64. *)
Lemma startup_printable_binary64 (name : string) (v : @value binary64) :
  (name, v) ∈ @startup binary64 -> @printable binary64 v.
Proof.
  intros H. unfold startup in H.
  repeat (apply elem_of_cons in H as [H | H];
          [injection H as _ ->; eexists; vm_compute; reflexivity |]).
  by apply elem_of_nil in H.
Qed.

(** An instance on binary64: an edit, a mode switch and a zooming click, then
    reset. *)
Lemma reset_restores_startup_snapshot_witness :
  (forall name v, (name, v) ∈ @startup binary64 -> @printable binary64 v) /\
  let st0 := snd (@App_init binary64 ["Accent"%string; "viridis"%string] (@blank binary64)) in
  let st := @run binary64
              [TypeEntry "zmax" "9"; ClickApply; SelectMode Mandelbrot;
               ButtonPress (@at_pixel binary64 300 200 1 0);
               ButtonRelease (@at_pixel binary64 300 200 1 256)] st0 in
  @fst (@res unit) (@app binary64) (@handle binary64 ClickReset st) = inr tt /\
  forall name, name ∈ fields ->
    exists v, (name, v) ∈ @startup binary64 /\
              @attrs binary64 st0 !! (name +:+ "_default") = Some v /\
              @attrs binary64 (@step binary64 st ClickReset) !! name = Some v.
Proof.
  split; [exact startup_printable_binary64 |].
  exact (@reset_restores_startup_snapshot binary64 ["Accent"%string; "viridis"%string]
           [TypeEntry "zmax" "9"; ClickApply; SelectMode Mandelbrot;
            ButtonPress (@at_pixel binary64 300 200 1 0);
            ButtonRelease (@at_pixel binary64 300 200 1 256)] startup_printable_binary64).
Defined.

(** ** Shape of the grid *)

(** X1. [complex_grid] returns [ny] rows of [nx] points each, also for the sizes
    0 and 1, and raises ValueError when a size is negative. *)
Theorem complex_grid_shape :
  forall (R : Runtime) (xlim ylim : F * F) (nx ny : Z),
    (0 <= nx -> 0 <= ny ->
     exists zz, complex_grid xlim ylim nx ny = inr zz /\
       length zz = Z.to_nat ny /\
       Forall (fun row => length row = Z.to_nat nx) zz) /\
    (nx < 0 \/ ny < 0 -> complex_grid xlim ylim nx ny = inl ValueError).
Proof.
  intros R xlim ylim nx ny. split.
  - intros Hx Hy. eexists. split; [by apply complex_grid_rows |].
    split; [by rewrite length_map, range_length |].
    apply Forall_map, Forall_forall. intros j _. cbn. by rewrite length_map, range_length.
  - intros H. unfold complex_grid, linspace.
    destruct (Z.ltb_spec nx 0) as [Hx | Hx]; [done |]. cbn.
    destruct (Z.ltb_spec ny 0) as [Hy | Hy]; [done | lia].
Qed.

(** ** Raising the iteration limit *)

Section IterationLimit.
Context `{R : Runtime}.

(** The first escape determines the result. *)
Lemma iterate_escape (z0 C : complex F) (n : Z) (zmax : F) (niter k : Z) :
  0 <= k < niter ->
  escapes_at z0 C n zmax k = true ->
  (forall j, 0 <= j < k -> escapes_at z0 C n zmax j = false) ->
  iterate z0 C n zmax niter = Some k.
Proof.
  intros Hk He Hbefore.
  destruct (iterate_spec z0 C n zmax niter) as (k' & Hr & Hk' & [[He' Hb'] | [-> Hnone]]);
    [lia | |].
  - rewrite Hr. f_equal.
    destruct (Z.lt_trichotomy k k') as [Hlt | [-> | Hgt]]; [| done |].
    + rewrite Hb' in He by lia. done.
    + rewrite Hbefore in He' by lia. done.
  - rewrite Hnone in He by lia. done.
Qed.

End IterationLimit.

(** X2. A point that escapes before the last iteration keeps its count when the
    iteration limit is raised; and the count never gets smaller when the limit
    is raised. *)
Theorem iterate_limit_raised :
  forall (R : Runtime) (z0 C : complex F) (n : Z) (zmax : F) (niter niter' k : Z),
    1 <= niter -> niter <= niter' ->
    iterate z0 C n zmax niter = Some k ->
    (k < niter - 1 -> iterate z0 C n zmax niter' = Some k) /\
    (exists k', iterate z0 C n zmax niter' = Some k' /\ k <= k').
Proof.
  intros R z0 C n zmax niter niter' k Hn Hle Hr.
  destruct (iterate_spec z0 C n zmax niter Hn) as (k0 & Hr0 & Hk0 & Hcase).
  rewrite Hr in Hr0. injection Hr0 as <-.
  assert (k < niter - 1 -> iterate z0 C n zmax niter' = Some k) as Hstable.
  { intros Hlt. destruct Hcase as [[He Hb] | [-> _]]; [| lia].
    apply iterate_escape; [lia | done..]. }
  split; [exact Hstable |].
  destruct (iterate_spec z0 C n zmax niter') as (k' & Hr' & Hk' & Hcase'); [lia |].
  exists k'. split; [done |].
  destruct Hcase as [[He Hb] | [-> Hnone]].
  - rewrite (iterate_escape z0 C n zmax niter' k) in Hr'; [| lia | done..].
    injection Hr' as <-. lia.
  - destruct Hcase' as [[He' Hb'] | [-> _]]; [| lia].
    destruct (Z.lt_ge_cases k' niter) as [Hlt | Hge]; [| lia].
    rewrite Hnone in He' by lia. done.
Qed.

Lemma iterate_limit_raised_witness :
  1 <= 3 /\ 3 <= 256 /\
  @iterate binary64 (Complex (of_Z 1) (of_Z 0)) (Complex (of_Z 1) (of_Z 0))
           2 (of_Z 2) 3 = Some 1 /\
  @iterate binary64 (Complex (of_Z 1) (of_Z 0)) (Complex (of_Z 1) (of_Z 0))
           2 (of_Z 2) 256 = Some 1.
Proof.
  assert (@iterate binary64 (Complex (of_Z 1) (of_Z 0)) (Complex (of_Z 1) (of_Z 0))
            2 (of_Z 2) 3 = Some 1) as H by (vm_compute; reflexivity).
  split; [lia |]. split; [lia |]. split; [exact H |].
  apply (proj1 (iterate_limit_raised binary64 _ _ 2 _ 3 256 1 ltac:(lia) ltac:(lia) H)). lia.
Defined.

(** ** Pixels and grid points *)

Lemma exact_of_Z_lt (a b : Z) : (Exact.of_Z a < Exact.of_Z b)%Qc <-> a < b.
Proof.
  unfold Exact.of_Z, Qclt. cbn [this Q2Qc]. rewrite !Qred_correct.
  unfold Qlt, inject_Z. cbn. lia.
Qed.

Lemma exact_lt_irrefl (x : Qc) : ~ (x < x)%Qc.
Proof. intros H. by apply Qclt_not_eq in H. Qed.

Lemma exact_of_Z_inj (a b : Z) : Exact.of_Z a = Exact.of_Z b -> a = b.
Proof.
  intros H. destruct (Z.lt_trichotomy a b) as [Hlt | [-> | Hgt]]; [| done |].
  - apply exact_of_Z_lt in Hlt. rewrite H in Hlt. by apply exact_lt_irrefl in Hlt.
  - apply exact_of_Z_lt in Hgt. rewrite H in Hgt. by apply exact_lt_irrefl in Hgt.
Qed.

Lemma exact_of_Z_zero : Exact.of_Z 0 = 0%Qc.
Proof. by apply Qc_is_canon. Qed.

(** [np.interp] on two sample points in exact arithmetic: the boundary
    values outside the samples, the chord between them. *)
Lemma exact_np_interp (x x0 x1 y0 y1 : Qc) :
  (x0 < x1)%Qc ->
  @np_interp exact x x0 x1 y0 y1
  = if bool_decide (x1 <= x)%Qc then y1
    else if bool_decide (x <= x0)%Qc then y0
    else (y0 + (x - x0) * (y1 - y0) / (x1 - x0))%Qc.
Proof.
  intros Hlt. unfold np_interp, is_nan, fgtb, fgeb. cbn.
  assert (x1 - x0 <> 0)%Qc as Hnz.
  { intros H. apply (exact_lt_irrefl x0). replace x0 with (x1 - (x1 - x0))%Qc at 2 by ring.
    rewrite H. by replace (x1 - 0)%Qc with x1 by ring. }
  rewrite (bool_decide_eq_true_2 (x = x)) by done. cbn [negb].
  destruct (Qc_dec x x1) as [[Hx | Hx] | ->].
  - rewrite (bool_decide_eq_false_2 (x1 < x)%Qc) by (by apply Qcle_not_lt, Qclt_le_weak).
    rewrite (bool_decide_eq_false_2 (x1 <= x)%Qc) by (by apply Qclt_not_le).
    rewrite (bool_decide_eq_false_2 (x1 = x)) by (intros ->; by apply exact_lt_irrefl in Hx).
    cbn [orb].
    destruct (Qc_dec x x0) as [[Hx0 | Hx0] | ->].
    + rewrite (bool_decide_eq_true_2 (x < x0)%Qc) by done.
      by rewrite (bool_decide_eq_true_2 (x <= x0)%Qc) by (by apply Qclt_le_weak).
    + rewrite (bool_decide_eq_false_2 (x < x0)%Qc) by (by apply Qcle_not_lt, Qclt_le_weak).
      rewrite (bool_decide_eq_false_2 (x <= x0)%Qc) by (by apply Qclt_not_le).
      rewrite (bool_decide_eq_false_2 (x0 = x)) by (intros ->; by apply exact_lt_irrefl in Hx0).
      rewrite !bool_decide_eq_true_2 by done. cbn [negb]. field. exact Hnz.
    + rewrite (bool_decide_eq_false_2 (x0 < x0)%Qc) by apply exact_lt_irrefl.
      rewrite (bool_decide_eq_true_2 (x0 = x0)) by done.
      by rewrite (bool_decide_eq_true_2 (x0 <= x0)%Qc) by apply Qcle_refl.
  - rewrite (bool_decide_eq_true_2 (x1 < x)%Qc) by done.
    by rewrite (bool_decide_eq_true_2 (x1 <= x)%Qc) by (by apply Qclt_le_weak).
  - rewrite (bool_decide_eq_false_2 (x1 < x1)%Qc) by apply exact_lt_irrefl.
    rewrite (bool_decide_eq_false_2 (x1 < x0)%Qc) by (by apply Qcle_not_lt, Qclt_le_weak).
    rewrite (bool_decide_eq_true_2 (x1 = x1)) by done. cbn [orb].
    by rewrite (bool_decide_eq_true_2 (x1 <= x1)%Qc) by apply Qcle_refl.
Qed.

Lemma exact_interp_pixel (p : Qc) (size : Z) (lo hi : @value exact) :
  2 <= size ->
  @interp_pixel exact p (VInt size) lo hi
  = if bool_decide (Exact.of_Z (size - 1) <= p)%Qc then to_float hi
    else if bool_decide (p <= 0)%Qc then to_float lo
    else (to_float lo + p * (to_float hi - to_float lo) / Exact.of_Z (size - 1))%Qc.
Proof.
  intros Hsize. unfold interp_pixel. cbn [py_sub to_float].
  change (@of_Z (@arith exact)) with Exact.of_Z.
  rewrite exact_np_interp by (apply exact_of_Z_lt; lia).
  rewrite exact_of_Z_zero.
  repeat case_bool_decide; try done.
  pose proof (exact_of_Z_nonzero (size - 1) ltac:(lia)) as Hnz.
  match goal with |- ?a = ?b => change (@eq Qc a b) end.
  field; repeat split; first [exact Hnz | intros H'; apply Hnz; rewrite <- H'; ring].
Qed.

(** On an axis of at least two pixels, the plane coordinate of the pixel [i]
    is the [i]-th sample of [linspace] over the same bounds. *)
Lemma exact_interp_pixel_linspace (size i : Z) (lo hi : @value exact) :
  2 <= size -> 0 <= i < size ->
  @interp_pixel exact (Exact.of_Z i) (VInt size) lo hi
  = @linspace_at exact (to_float lo) (to_float hi) size i.
Proof.
  intros Hsize Hi. rewrite exact_linspace_at, exact_interp_pixel by done.
  pose proof (exact_of_Z_nonzero (size - 1) ltac:(lia)) as Hnz.
  generalize (to_float lo), (to_float hi). change (@F (@arith exact)) with Qc. intros a b.
  destruct (decide (i = size - 1)) as [-> | Hlast].
  { rewrite bool_decide_eq_true_2 by apply Qcle_refl.
    field. exact Hnz. }
  rewrite bool_decide_eq_false_2 by (apply Qclt_not_le, exact_of_Z_lt; lia).
  destruct (decide (i = 0)) as [-> | Hfirst].
  { rewrite exact_of_Z_zero. rewrite bool_decide_eq_true_2 by apply Qcle_refl.
    field. exact Hnz. }
  rewrite bool_decide_eq_false_2.
  2: { apply Qclt_not_le. rewrite <- exact_of_Z_zero. apply exact_of_Z_lt. lia. }
  field. exact Hnz.
Qed.

(** X3. In exact arithmetic, on a canvas of at least 2 by 2 pixels, the plane
    position the pointer handlers compute for the pixel [(i, j)] is the grid
    point of column [i] and row [j] that [complex_grid] builds over the same
    bounds; a pointer left of or above the canvas is taken to the lower bound
    and one beyond the last pixel to the upper bound. *)
Theorem pixel_position_is_grid_point :
  forall (xmin xmax ymin ymax : @value exact) (nx ny i j : Z),
    2 <= nx -> 2 <= ny -> 0 <= i < nx -> 0 <= j < ny ->
    (exists g,
       @complex_grid exact (to_float xmin, to_float xmax) (to_float ymin, to_float ymax) nx ny
         = inr g /\
       cell g (Z.to_nat j) (Z.to_nat i)
       = Some (Complex (@interp_pixel exact (Exact.of_Z i) (VInt nx) xmin xmax)
                       (@interp_pixel exact (Exact.of_Z j) (VInt ny) ymin ymax))) /\
    (forall p : Qc, (p < 0)%Qc ->
       @interp_pixel exact p (VInt nx) xmin xmax = to_float xmin) /\
    (forall p : Qc, (Exact.of_Z (nx - 1) < p)%Qc ->
       @interp_pixel exact p (VInt nx) xmin xmax = to_float xmax).
Proof.
  intros xmin xmax ymin ymax nx ny i j Hnx Hny Hi Hj. split_and!.
  - destruct (@complex_grid_cell exact (to_float xmin, to_float xmax)
                (to_float ymin, to_float ymax) nx ny i j Hi Hj) as (g & Hg & Hcell).
    exists g. split; [exact Hg |]. rewrite Hcell. f_equal.
    rewrite exact_grid_point. cbn [fst snd].
    by rewrite !exact_interp_pixel_linspace.
  - intros p Hp. rewrite exact_interp_pixel by done.
    rewrite bool_decide_eq_false_2.
    2: { apply Qclt_not_le. eapply Qclt_trans; [exact Hp |].
         rewrite <- exact_of_Z_zero. apply exact_of_Z_lt. lia. }
    by rewrite bool_decide_eq_true_2 by (by apply Qclt_le_weak).
  - intros p Hp. rewrite exact_interp_pixel by done.
    by rewrite bool_decide_eq_true_2 by (by apply Qclt_le_weak).
Qed.

Lemma pixel_position_is_grid_point_witness :
  2 <= 8 /\ 0 <= 1 < 8 /\
  exists g,
    @complex_grid exact (Exact.of_Z (-2), Exact.of_Z 2) (Exact.of_Z (-1), Exact.of_Z 1) 8 8
      = inr g /\
    cell g (Z.to_nat 1) (Z.to_nat 1)
    = Some (Complex
        (@interp_pixel exact (Exact.of_Z 1) (VInt 8) (VInt (-2)) (VInt 2))
        (@interp_pixel exact (Exact.of_Z 1) (VInt 8) (VInt (-1)) (VInt 1))).
Proof.
  split; [lia |]. split; [lia |].
  exact (proj1 (pixel_position_is_grid_point (VInt (-2)) (VInt 2) (VInt (-1)) (VInt 1)
                  8 8 1 1 ltac:(lia) ltac:(lia) ltac:(lia) ltac:(lia))).
Defined.

(** ** Pressing and moving the pointer *)

(** Symbolic execution that also reads back the attributes just assigned. *)
Ltac mrun_map :=
  repeat first
    [ progress mrun | rewrite lookup_insert_eq | rewrite lookup_insert_ne by done ].

Section PointerFacts.
Context `{R : Runtime}.

Lemma on_canvas_button_press_run (e : pointer) (st : app)
    (xsize ysize xmin xmax ymin ymax : value) :
  canvas st xsize ysize xmin xmax ymin ymax ->
  let px := VFloat (interp_pixel (ev_x e) xsize xmin xmax) in
  let py := VFloat (interp_pixel (ev_y e) ysize ymin ymax) in
  on_canvas_button_press e st =
  (inr tt, App (<["posy2" := py]> (<["posx2" := px]> (<["posy1" := py]>
                (<["posx1" := px]> (attrs st)))))
               (cmap st) (entries st) (texts st) (mode st) (has_fig st) (log st)).
Proof.
  intros (Hxs & Hys & Hxmin & Hxmax & Hymin & Hymax). cbv zeta.
  unfold on_canvas_button_press, plane_x, plane_y. mrun_map. done.
Qed.

Lemma on_canvas_motion_notify_idle (e : pointer) (st : app)
    (xsize ysize xmin xmax ymin ymax : value) :
  canvas st xsize ysize xmin xmax ymin ymax ->
  Z.land (ev_state e) BUTTON_PRESS_MASK = 0 ->
  on_canvas_motion_notify e st =
  (inr tt, App (<["posy2" := VFloat (interp_pixel (ev_y e) ysize ymin ymax)]>
                (<["posx2" := VFloat (interp_pixel (ev_x e) xsize xmin xmax)]> (attrs st)))
               (cmap st) (entries st) (texts st) (mode st) (has_fig st) (log st)).
Proof.
  intros (Hxs & Hys & Hxmin & Hxmax & Hymin & Hymax) Hmask.
  unfold on_canvas_motion_notify, plane_x, plane_y. mrun_map. rewrite Hmask. done.
Qed.

End PointerFacts.

(** X4. Pressing a button on the canvas, when the sizes and the bounds are set,
    returns normally, records the plane position of the pointer as both the
    press position and the current position, and changes nothing else: no
    other attribute, no entry text, no request to the canvas.  Unless that
    position is NaN, the release handler takes the gesture for a click. *)
Theorem press_anchors_gesture :
  forall (R : Runtime) (st : app) (e : pointer) (xsize ysize xmin xmax ymin ymax : value),
    canvas st xsize ysize xmin xmax ymin ymax ->
    let px := VFloat (interp_pixel (ev_x e) xsize xmin xmax) in
    let py := VFloat (interp_pixel (ev_y e) ysize ymin ymax) in
    let st' := step st (ButtonPress e) in
    fst (handle (ButtonPress e) st) = inr tt /\
    gesture st' px py px py /\
    (forall k, k ∉ ["posx1"; "posy1"; "posx2"; "posy2"] -> attrs st' !! k = attrs st !! k) /\
    texts st' = texts st /\ log st' = log st /\
    (is_nan (to_float px) = false -> is_nan (to_float py) = false ->
     is_click px py px py = true).
Proof.
  intros R st e xsize ysize xmin xmax ymin ymax Hc. cbv zeta.
  unfold step, handle. rewrite (on_canvas_button_press_run e st _ _ _ _ _ _ Hc).
  cbn [fst snd attrs texts log]. split_and!; try done.
  - unfold gesture. by simplify_map_eq.
  - intros k Hk. rewrite !lookup_insert_ne; [done | intros Heq; apply Hk; rewrite <- Heq ..];
      repeat first [apply list_elem_of_here | apply list_elem_of_further].
  - unfold is_click, py_eqb, is_nan. cbn [to_float].
    intros Hx Hy. apply negb_false_iff in Hx, Hy. by rewrite Hx, Hy.
Qed.

Section PressExample.
#[local] Existing Instance binary64.

Lemma sample_canvas :
  canvas sample (VInt 8) (VInt 8) (VFloat (-1.5)%float) (VFloat 1.5%float)
         (VFloat (-1.5)%float) (VFloat 1.5%float).
Proof. repeat split; reflexivity. Qed.

Lemma press_anchors_gesture_witness :
  canvas sample (VInt 8) (VInt 8) (VFloat (-1.5)%float) (VFloat 1.5%float)
         (VFloat (-1.5)%float) (VFloat 1.5%float) /\
  gesture (step sample (ButtonPress (at_pixel 7 0 1 0)))
    (VFloat (interp_pixel (of_Z 7) (VInt 8) (VFloat (-1.5)%float) (VFloat 1.5%float)))
    (VFloat (interp_pixel (of_Z 0) (VInt 8) (VFloat (-1.5)%float) (VFloat 1.5%float)))
    (VFloat (interp_pixel (of_Z 7) (VInt 8) (VFloat (-1.5)%float) (VFloat 1.5%float)))
    (VFloat (interp_pixel (of_Z 0) (VInt 8) (VFloat (-1.5)%float) (VFloat 1.5%float))).
Proof.
  split; [exact sample_canvas |].
  exact (proj1 (proj2 (press_anchors_gesture binary64 sample (at_pixel 7 0 1 0)
                         _ _ _ _ _ _ sample_canvas))).
Defined.

End PressExample.

(** X5. Moving the pointer with no button held, when the sizes and the bounds are
    set, only updates the current position: the press position, every other
    attribute and the entry texts stay, and nothing is drawn. *)
Theorem idle_motion_draws_nothing :
  forall (R : Runtime) (st : app) (e : pointer) (xsize ysize xmin xmax ymin ymax : value),
    canvas st xsize ysize xmin xmax ymin ymax ->
    Z.land (ev_state e) BUTTON_PRESS_MASK = 0 ->
    let st' := step st (MotionNotify e) in
    fst (handle (MotionNotify e) st) = inr tt /\
    attrs st' !! "posx2" = Some (VFloat (interp_pixel (ev_x e) xsize xmin xmax)) /\
    attrs st' !! "posy2" = Some (VFloat (interp_pixel (ev_y e) ysize ymin ymax)) /\
    (forall k, k <> "posx2" -> k <> "posy2" -> attrs st' !! k = attrs st !! k) /\
    texts st' = texts st /\ log st' = log st.
Proof.
  intros R st e xsize ysize xmin xmax ymin ymax Hc Hmask. cbv zeta.
  unfold step, handle. rewrite (on_canvas_motion_notify_idle e st _ _ _ _ _ _ Hc Hmask).
  cbn [fst snd attrs texts log]. split_and!; try done; try by simplify_map_eq.
  intros k H1 H2. by rewrite !lookup_insert_ne.
Qed.

Section MotionExample.
#[local] Existing Instance binary64.

Lemma idle_motion_draws_nothing_witness :
  canvas sample (VInt 8) (VInt 8) (VFloat (-1.5)%float) (VFloat 1.5%float)
         (VFloat (-1.5)%float) (VFloat 1.5%float) /\
  Z.land (ev_state (at_pixel 3 4 0 4)) BUTTON_PRESS_MASK = 0 /\
  log (step sample (MotionNotify (at_pixel 3 4 0 4))) = log sample.
Proof.
  assert (Z.land (ev_state (at_pixel 3 4 0 4)) BUTTON_PRESS_MASK = 0) as Hm
    by reflexivity.
  split; [exact sample_canvas |]. split; [exact Hm |].
  exact (proj2 (proj2 (proj2 (proj2 (proj2
    (idle_motion_draws_nothing binary64 sample (at_pixel 3 4 0 4)
       _ _ _ _ _ _ sample_canvas Hm)))))).
Defined.

End MotionExample.

(** ** Dragging with Control held *)

Section DragFacts.
Context `{R : Runtime}.

Lemma on_canvas_motion_notify_control (e : pointer) (st : app)
    (xsize ysize xmin xmax ymin ymax x1 y1 : value) :
  canvas st xsize ysize xmin xmax ymin ymax ->
  attrs st !! "posx1" = Some x1 -> attrs st !! "posy1" = Some y1 ->
  Z.land (ev_state e) BUTTON_PRESS_MASK <> 0 ->
  Z.land (ev_state e) CONTROL_MASK <> 0 ->
  let x2 := VFloat (interp_pixel (ev_x e) xsize xmin xmax) in
  let y2 := py_sub (py_add y1 x2) x1 in
  on_canvas_motion_notify e st =
  (inr tt,
   App (<["posy2" := y2]>
        (<["posy2" := VFloat (interp_pixel (ev_y e) ysize ymin ymax)]>
        (<["posx2" := x2]> (attrs st))))
       (cmap st) (entries st) (texts st) (mode st) (has_fig st)
       ((log st ++ [Preview x2 (py_sub (py_add ymax ymin) y2)
                            (py_sub x1 x2) (py_neg (py_sub y1 y2))]) ++ [DrawIdle])).
Proof.
  intros (Hxs & Hys & Hxmin & Hxmax & Hymin & Hymax) Hx1 Hy1 Hb Hc. cbv zeta.
  unfold on_canvas_motion_notify, plane_x, plane_y. mrun_map.
  rewrite (proj2 (Z.eqb_neq _ _) Hb), (proj2 (Z.eqb_neq _ _) Hc). cbn [negb].
  mrun_map. done.
Qed.

End DragFacts.

(** X6. Moving the pointer while [event.state] has the bit of
    [BUTTON_PRESS_MASK] (bit 8, set while button 1 is held) and the bit of
    [CONTROL_MASK]: the handler returns, keeps the press position, and sets
    the current position to [x2], the plane position of the pointer, and
    [posy1 + x2 - posx1].  In exact arithmetic the gesture it leaves is a
    square: [posy2 - posy1] equals [posx2 - posx1]. *)
Theorem control_drag_selects_square :
  (forall (R : Runtime) (st : app) (e : pointer)
          (xsize ysize xmin xmax ymin ymax x1 y1 : value),
     canvas st xsize ysize xmin xmax ymin ymax ->
     attrs st !! "posx1" = Some x1 -> attrs st !! "posy1" = Some y1 ->
     Z.land (ev_state e) BUTTON_PRESS_MASK <> 0 ->
     Z.land (ev_state e) CONTROL_MASK <> 0 ->
     let x2 := VFloat (interp_pixel (ev_x e) xsize xmin xmax) in
     let y2 := py_sub (py_add y1 x2) x1 in
     fst (handle (MotionNotify e) st) = inr tt /\
     gesture (step st (MotionNotify e)) x1 y1 x2 y2) /\
  (forall (st : @app exact) (e : @pointer exact)
          (xsize ysize xmin xmax ymin ymax x1 y1 : @value exact),
     canvas st xsize ysize xmin xmax ymin ymax ->
     attrs st !! "posx1" = Some x1 -> attrs st !! "posy1" = Some y1 ->
     Z.land (ev_state e) BUTTON_PRESS_MASK <> 0 ->
     Z.land (ev_state e) CONTROL_MASK <> 0 ->
     exists x2 y2 : @value exact,
       gesture (step st (MotionNotify e)) x1 y1 x2 y2 /\
       ((@to_float exact y2 : Qc) - (@to_float exact y1 : Qc)
        = (@to_float exact x2 : Qc) - (@to_float exact x1 : Qc))%Qc).
Proof.
  assert (forall (R : Runtime) (st : app) (e : pointer)
                 (xsize ysize xmin xmax ymin ymax x1 y1 : value),
            canvas st xsize ysize xmin xmax ymin ymax ->
            attrs st !! "posx1" = Some x1 -> attrs st !! "posy1" = Some y1 ->
            Z.land (ev_state e) BUTTON_PRESS_MASK <> 0 ->
            Z.land (ev_state e) CONTROL_MASK <> 0 ->
            let x2 := VFloat (interp_pixel (ev_x e) xsize xmin xmax) in
            let y2 := py_sub (py_add y1 x2) x1 in
            fst (handle (MotionNotify e) st) = inr tt /\
            gesture (step st (MotionNotify e)) x1 y1 x2 y2) as Hmove.
  { intros R st e xsize ysize xmin xmax ymin ymax x1 y1 Hcv Hx1 Hy1 Hb Hc. cbv zeta.
    unfold step, handle.
    rewrite (on_canvas_motion_notify_control e st _ _ _ _ _ _ x1 y1 Hcv Hx1 Hy1 Hb Hc).
    cbn [fst snd attrs]. split; [done |].
    unfold gesture. by simplify_map_eq. }
  split; [exact Hmove |].
  intros st e xsize ysize xmin xmax ymin ymax x1 y1 Hcv Hx1 Hy1 Hb Hc.
  destruct (Hmove exact st e xsize ysize xmin xmax ymin ymax x1 y1 Hcv Hx1 Hy1 Hb Hc)
    as [_ Hg].
  eexists _, _. split; [exact Hg |].
  generalize (@interp_pixel exact (ev_x e) xsize xmin xmax). intros x2.
  destruct x1 as [a | a], y1 as [b | b]; cbn [py_sub py_add py_neg to_float];
    change (@of_Z (@arith exact)) with Exact.of_Z;
    change (@fsub (@arith exact)) with Qcminus;
    change (@fadd (@arith exact)) with Qcplus;
    ring.
Qed.

Section ControlDragExample.
#[local] Existing Instance binary64.

Local Abbreviation pressed := (step sample (ButtonPress (at_pixel 1 1 1 0))).
Local Abbreviation plane := (fun k : Z =>
  VFloat (interp_pixel (of_Z k) (VInt 8) (VFloat (-1.5)%float) (VFloat 1.5%float))).

(** On [sample], a press on the pixel [(1, 1)] and motion to the pixel
    [(5, 2)] with button 1 and Control held (state 260): the current position
    becomes the plane position of the pixel [(5, 5)]. *)
Lemma control_drag_selects_square_witness :
  canvas pressed (VInt 8) (VInt 8) (VFloat (-1.5)%float) (VFloat 1.5%float)
         (VFloat (-1.5)%float) (VFloat 1.5%float) /\
  Z.land (ev_state (at_pixel 5 2 1 260)) BUTTON_PRESS_MASK <> 0 /\
  Z.land (ev_state (at_pixel 5 2 1 260)) CONTROL_MASK <> 0 /\
  (fst (handle (MotionNotify (at_pixel 5 2 1 260)) pressed) = inr tt /\
   gesture (step pressed (MotionNotify (at_pixel 5 2 1 260)))
           (plane 1) (plane 1) (plane 5) (py_sub (py_add (plane 1) (plane 5)) (plane 1))) /\
  to_float (py_sub (py_add (plane 1) (plane 5)) (plane 1)) = to_float (plane 5).
Proof.
  assert (canvas pressed (VInt 8) (VInt 8) (VFloat (-1.5)%float) (VFloat 1.5%float)
            (VFloat (-1.5)%float) (VFloat 1.5%float)) as Hc
    by (repeat split; reflexivity).
  assert (Z.land (ev_state (at_pixel 5 2 1 260)) BUTTON_PRESS_MASK <> 0) as Hb by done.
  assert (Z.land (ev_state (at_pixel 5 2 1 260)) CONTROL_MASK <> 0) as Hk by done.
  split; [exact Hc |]. split; [exact Hb |]. split; [exact Hk |].
  split.
  - exact (proj1 control_drag_selects_square binary64 pressed (at_pixel 5 2 1 260)
             _ _ _ _ _ _ _ _ Hc eq_refl eq_refl Hb Hk).
  - vm_compute. reflexivity.
Defined.

End ControlDragExample.

(** ** What [compute_image] reads *)

Section ComputeImageReads.
Context `{R : Runtime}.

(** The result of [compute_image] depends on the attributes and on the mode
    only. *)
Lemma compute_image_reads (st st2 : app) :
  attrs st2 = attrs st -> mode st2 = mode st ->
  fst (compute_image st2) = fst (compute_image st).
Proof.
  intros Ha Hm. unfold compute_image.
  repeat (rewrite !bind_getattr, Ha; destruct (attrs st !! _); [| done]).
  repeat (rewrite !bind_lift; match goal with |- context [match ?r with inl _ => _ | inr _ => _ end] =>
            destruct r; [done |] end).
  rewrite !bind_get_state, Hm.
  repeat case_bool_decide; try done.
  - repeat (rewrite !bind_getattr, Ha; destruct (attrs st !! _); [| done]).
    repeat (rewrite !bind_lift; match goal with |- context [match ?r with inl _ => _ | inr _ => _ end] =>
            destruct r; [done |] end). done.
  - repeat (rewrite !bind_getattr, Ha; destruct (attrs st !! _); [| done]).
    repeat (rewrite !bind_lift; match goal with |- context [match ?r with inl _ => _ | inr _ => _ end] =>
            destruct r; [done |] end). done.
Qed.

Lemma display_image_mode : preserves (same mode) display_image.
Proof. unfold display_image, emit. pose proof (compute_image_same mode). frame. Qed.

Lemma display_image_cmap : preserves (same cmap) display_image.
Proof. unfold display_image, emit. pose proof (compute_image_same cmap). frame. Qed.

End ComputeImageReads.

(** ** Choosing a colormap *)

(** X7. Choosing a colormap stores its name and leaves the attributes, the list
    of entries, the entry texts and the mode as they are: text typed into an
    entry is not applied.  Before the canvas exists nothing is requested; once
    it exists and the handler returns, the canvas has been asked for exactly
    one image, with the new colormap and the image [compute_image] gives for
    the unchanged attributes, and then for one redraw. *)
Theorem colormap_change_keeps_parameters :
  forall (R : Runtime) (st : app) (name : string),
    let st' := step st (SelectCmap name) in
    cmap st' = name /\ attrs st' = attrs st /\ entries st' = entries st /\
    texts st' = texts st /\ mode st' = mode st /\
    (has_fig st = false -> fst (handle (SelectCmap name) st) = inr tt /\ log st' = log st) /\
    (has_fig st = true -> fst (handle (SelectCmap name) st) = inr tt ->
     exists img ext,
       fst (compute_image st) = inr (Some img) /\
       log st' = log st ++ [Imshow img name ext; DrawIdle]).
Proof.
  intros R st name. cbv zeta. unfold step, handle, on_cmapcombo_changed.
  rewrite bind_put_cmap, bind_get_state. cbn [has_fig].
  set (st1 := App (attrs st) name (entries st) (texts st) (mode st) (has_fig st) (log st)).
  destruct (has_fig st) eqn:Hfig.
  - pose proof (display_image_attrs st1) as Ha.
    pose proof (display_image_entries st1) as He.
    pose proof (display_image_texts st1) as Ht.
    pose proof (display_image_mode st1) as Hm.
    pose proof (display_image_cmap st1) as Hc.
    unfold same in Ha, He, Ht, Hm, Hc.
    unfold mbind, M_bind.
    destruct (display_image st1) as [[e | []] st2] eqn:Hd; cbn [fst snd] in *.
    + split_and!; done.
    + unfold emit. cbn [fst snd attrs cmap entries texts mode log].
      split_and!; try done. intros _ _.
      destruct (display_image_log st1 st2 Hd) as (img & ext & Himg & Hlog).
      exists img, ext. cbn [cmap] in Hlog. rewrite Hlog, <- app_assoc. split; [| done].
      rewrite <- Himg. by apply compute_image_reads.
  - cbn. split_and!; done.
Qed.

(** ** What Apply stores and shows *)

(** X8. Apply: when no entry's conversion raises (each text is a number of the
    kind of its field, or is rejected with ValueError), every entry whose text
    converts has the converted number as its attribute afterwards; an int
    field holds the integer [int(float(text))].  Attributes without an entry
    stay.  This holds whether or not the image can then be displayed. *)
Theorem apply_stores_converted_entries :
  forall (R : Runtime) (st : app),
    (forall name, name ∈ entries st ->
       exists r, parse_entry (text_of st name) (dtype_of name) = inr r) ->
    let st' := step st ClickApply in
    (forall name v, name ∈ entries st ->
       parse_entry (text_of st name) (dtype_of name) = inr (Some v) ->
       attrs st' !! name = Some v) /\
    (forall name, name ∉ entries st -> attrs st' !! name = attrs st !! name).
Proof.
  intros R st Hok. cbv zeta. unfold step, handle, on_button_apply_clicked.
  destruct (update_loop_applies (entries st) st Hok)
    as (st1 & Hrun & _ & _ & _ & _ & _ & _ & Hsome & _ & Hout).
  rewrite (update_image_attrs_after_loop st st1 Hrun). split.
  - intros name v Hin Hv. by apply Hsome.
  - intros name Hin. by apply Hout.
Qed.

(** X9. Apply: when the text of an int field converts to a float on which [int]
    raises another exception than ValueError (OverflowError for an infinity),
    the exception is not caught: the handler raises, no entry text is
    rewritten and nothing is displayed. *)
Theorem apply_lets_overflow_escape :
  forall (R : Runtime) (st : app) (name : string) (x : F) (e : exn),
    name ∈ entries st -> dtype_of name = DInt ->
    py_float (text_of st name) = Some x -> py_int x = inl e -> e <> ValueError ->
    let st' := step st ClickApply in
    (exists e', fst (handle ClickApply st) = inl e') /\
    texts st' = texts st /\ log st' = log st.
Proof.
  intros R st name x e Hin Hdt Hx He Hne. cbv zeta.
  assert (parse_entry (text_of st name) (dtype_of name) = inl e) as Hp.
  { unfold parse_entry. rewrite Hx, Hdt, He. by destruct e. }
  destruct (update_loop_raises (entries st) st name e Hin Hp) as (e' & st1 & Hrun & Ht & Hl).
  unfold step, handle, on_button_apply_clicked, update_image.
  rewrite bind_get_state. split.
  - exists e'. unfold mbind at 1, M_bind at 1. by rewrite Hrun.
  - rewrite snd_bind, Hrun. done.
Qed.

Section ApplyExamples.
#[local] Existing Instance binary64.

(** On [sample] with [3.7] typed into the entry [n]: every entry converts,
    and Apply stores [int(3.7) = 3]. *)
Lemma apply_stores_converted_entries_witness :
  (forall name, name ∈ entries (step sample (TypeEntry "n" "3.7")) ->
     exists r, parse_entry (text_of (step sample (TypeEntry "n" "3.7")) name)
                           (dtype_of name) = inr r) /\
  attrs (step (step sample (TypeEntry "n" "3.7")) ClickApply) !! "n" = Some (VInt 3).
Proof.
  assert (forall name, name ∈ entries (step sample (TypeEntry "n" "3.7")) ->
     exists r, parse_entry (text_of (step sample (TypeEntry "n" "3.7")) name)
                           (dtype_of name) = inr r) as Hok.
  { intros name Hin. change (name ∈ fields) in Hin. unfold fields in Hin.
    repeat (apply elem_of_cons in Hin as [-> | Hin];
      [first [ by apply parse_entry_float_field
             | eexists; eapply parse_entry_int_field;
               [reflexivity | vm_compute; reflexivity | vm_compute; reflexivity] ] |]).
    by apply elem_of_nil in Hin. }
  split; [exact Hok |].
  apply (proj1 (apply_stores_converted_entries binary64 _ Hok) "n" (VInt 3)).
  - change ("n" ∈ fields). apply list_elem_of_here.
  - eapply parse_entry_int_field; [reflexivity | vm_compute; reflexivity | vm_compute; reflexivity].
Defined.

(** On [sample] with [inf] typed into the entry [niter]: Apply raises. *)
Lemma apply_lets_overflow_escape_witness :
  "niter" ∈ entries (step sample (TypeEntry "niter" "inf")) /\
  dtype_of "niter" = DInt /\
  py_float (text_of (step sample (TypeEntry "niter" "inf")) "niter") = Some infinity /\
  py_int infinity = inl OverflowError /\
  OverflowError <> ValueError /\
  exists e', fst (handle ClickApply (step sample (TypeEntry "niter" "inf"))) = inl e'.
Proof.
  assert ("niter" ∈ entries (step sample (TypeEntry "niter" "inf"))) as Hin.
  { change ("niter" ∈ fields). unfold fields.
    repeat first [apply list_elem_of_here | apply list_elem_of_further]. }
  assert (dtype_of "niter" = DInt) as Hdt by reflexivity.
  assert (py_float (text_of (step sample (TypeEntry "niter" "inf")) "niter") = Some infinity)
    as Hx by (vm_compute; reflexivity).
  assert (py_int infinity = inl OverflowError) as He by (vm_compute; reflexivity).
  assert (OverflowError <> ValueError) as Hne by discriminate.
  split_and!; [done.. |].
  exact (proj1 (apply_lets_overflow_escape binary64 _ "niter" infinity OverflowError
                  Hin Hdt Hx He Hne)).
Defined.

End ApplyExamples.

(** ** Reset, then Apply *)

Section ResetApplyFacts.
Context `{R : Runtime}.

Local Abbreviation dflt := (fun name : string => name +:+ "_default").

Local Abbreviation update_field := (fun name : string =>
  val ← get_entry_value name (dtype_of name);
  match val with
  | Some v => setattr name v
  | None => mret tt
  end).

(** When the loop of the reset handler returns, every entry it went through
    shows the text of its attribute. *)
Lemma reset_loop_texts (l : list string) :
  forall st st',
    for_each l (fun name =>
      d ← getattr (dflt name); setattr name d;; set_entry_value name) st = (inr tt, st') ->
    entries st' = entries st /\
    (forall name, name ∈ l ->
       exists v s, attrs st' !! name = Some v /\ value_str v = inr s /\
                   texts st' !! name = Some s) /\
    (forall k, k ∉ l -> attrs st' !! k = attrs st !! k /\ texts st' !! k = texts st !! k).
Proof.
  induction l as [|a l IH]; intros st st' Hrun.
  - simpl in Hrun. injection Hrun as <-. split_and!; [done | | done].
    intros name Hin. by apply elem_of_nil in Hin.
  - cbn [for_each] in Hrun. revert Hrun. mrun.
    destruct (attrs st !! dflt a) as [d|] eqn:Hd; [| done]. mrun.
    unfold set_entry_value. mrun. rewrite lookup_insert_eq. mrun.
    destruct (value_str d) as [e|s] eqn:Hs; [done |]. mrun.
    set (st1 := App _ _ _ _ _ _ _). intros Hrun.
    destruct (IH st1 st' Hrun) as (He & Hin & Hout).
    split_and!; [done | |].
    + intros name Hname. destruct (decide (name ∈ l)) as [Hl | Hl]; [by apply Hin |].
      apply elem_of_cons in Hname as [-> | Hname]; [| done].
      destruct (Hout a Hl) as [Ha Ht]. exists d, s. rewrite Ha, Ht. subst st1.
      cbn [attrs texts]. by rewrite !lookup_insert_eq.
    + intros k Hk. apply not_elem_of_cons in Hk as [Hka Hkl].
      destruct (Hout k Hkl) as [Ha Ht]. rewrite Ha, Ht. subst st1.
      cbn [attrs texts]. by rewrite !lookup_insert_ne.
Qed.

(** After Reset in a state that holds the snapshot, every entry shows the
    text of the start-up value of its field. *)
Lemma reset_shows_startup (st : app) (name : string) (v : value) (s : string) :
  (forall name v, (name, v) ∈ startup -> printable v) ->
  snapshot_taken st -> (name, v) ∈ startup -> value_str v = inr s ->
  let st' := step st ClickReset in
  entries st' = fields /\ attrs st' !! name = Some v /\ text_of st' name = s.
Proof.
  intros Hprint Hsnap Hv Hs. cbv zeta.
  destruct (reset_restores st Hprint Hsnap) as [Hret Hval].
  destruct Hsnap as [He _].
  unfold step in *. destruct (handle ClickReset st) as [r st'] eqn:Hrun.
  cbn [fst snd] in *. subst r.
  unfold handle, on_button_reset_clicked in Hrun. rewrite bind_get_state, He in Hrun.
  destruct (reset_loop_texts fields st st' Hrun) as (He' & Hin & _).
  split_and!; [congruence | by apply Hval |].
  destruct (Hin name) as (v' & s' & Hv' & Hs' & Ht'); [apply fields_startup; eauto |].
  rewrite (Hval name v Hv) in Hv'. injection Hv' as <-.
  rewrite Hs in Hs'. injection Hs' as <-. unfold text_of. by rewrite Ht'.
Qed.

End ResetApplyFacts.

(** X10. After any sequence of events that follows start-up, clicking Reset and
    then Apply leaves every one of the eleven fields with its start-up value:
    the text Reset writes for the value converts back to the same value.
    Assumed of the eleven start-up values: the text [set_entry_value] prints
    for the value is converted by [get_entry_value] to that value. *)
Theorem reset_then_apply_restores_startup :
  forall (R : Runtime) (cmaps : list string) (evs : list event),
    (forall name v, (name, v) ∈ startup ->
       exists s, value_str v = inr s /\ parse_entry s (dtype_of name) = inr (Some v)) ->
    let st := run (evs ++ [ClickReset; ClickApply]) (snd (App_init cmaps blank)) in
    forall name v, (name, v) ∈ startup -> attrs st !! name = Some v.
Proof.
  intros R cmaps evs Hround. cbv zeta.
  assert (forall name v, (name, v) ∈ startup -> printable v) as Hprint.
  { intros name v Hv. destruct (Hround name v Hv) as (s & Hs & _). by exists s. }
  destruct (App_init_snapshot cmaps Hprint) as [Hsnap _].
  pose proof (run_snapshot evs _ Hsnap) as Hst.
  unfold run. rewrite foldl_app. cbn [foldl]. fold (run evs (snd (App_init cmaps blank))).
  set (st := run evs (snd (App_init cmaps blank))) in *.
  set (st1 := step st ClickReset).
  assert (forall name v, (name, v) ∈ startup ->
            entries st1 = fields /\ attrs st1 !! name = Some v /\
            parse_entry (text_of st1 name) (dtype_of name) = inr (Some v)) as Hreset.
  { intros name v Hv. destruct (Hround name v Hv) as (s & Hs & Hp).
    destruct (reset_shows_startup st name v s Hprint Hst Hv Hs) as (He & Ha & Ht).
    fold st1 in He, Ha, Ht. by rewrite Ht. }
  assert (entries st1 = fields) as He1.
  { destruct (Hreset "n" (VInt 2)) as [He _]; [| done]. apply list_elem_of_here. }
  destruct (update_loop_applies (entries st1) st1)
    as (st2 & Hrun & _ & _ & _ & _ & _ & _ & Hsome & _ & _).
  { intros name Hin. rewrite He1 in Hin. apply fields_startup in Hin as [v Hv].
    destruct (Hreset name v Hv) as (_ & _ & Hp). eauto. }
  intros name v Hv. unfold step at 1, handle, on_button_apply_clicked.
  rewrite (update_image_attrs_after_loop st1 st2 Hrun).
  destruct (Hreset name v Hv) as (_ & _ & Hp).
  apply Hsome; [| done]. rewrite He1. apply fields_startup. eauto.
Qed.

Section ResetApplyExample.
#[local] Existing Instance binary64.

Lemma startup_round_trip_binary64 (name : string) (v : value) :
  (name, v) ∈ startup ->
  exists s, value_str v = inr s /\ parse_entry s (dtype_of name) = inr (Some v).
Proof.
  intros H. unfold startup in H.
  repeat (apply elem_of_cons in H as [H | H];
    [injection H as -> ->; eexists; split; [vm_compute; reflexivity |];
     first [ eapply parse_entry_int_field;
               [reflexivity | vm_compute; reflexivity | vm_compute; reflexivity]
           | eapply parse_entry_float_value; [reflexivity | vm_compute; reflexivity] ] |]).
  by apply elem_of_nil in H.
Qed.

Lemma reset_then_apply_restores_startup_witness :
  (forall name v, (name, v) ∈ startup ->
     exists s, value_str v = inr s /\ parse_entry s (dtype_of name) = inr (Some v)) /\
  forall name v, (name, v) ∈ startup ->
    attrs (run ([TypeEntry "zmax" "9"; ClickApply; SelectMode Mandelbrot]
                  ++ [ClickReset; ClickApply])
               (snd (App_init ["Accent"%string] blank))) !! name = Some v.
Proof.
  split; [exact startup_round_trip_binary64 |].
  exact (reset_then_apply_restores_startup binary64 ["Accent"%string]
           [TypeEntry "zmax" "9"; ClickApply; SelectMode Mandelbrot]
           startup_round_trip_binary64).
Defined.

End ResetApplyExample.

(** ** [transform_x] and [transform_y] *)

(** In exact arithmetic [np.interp] between two equal values is that value. *)
Lemma exact_np_interp_flat (x x0 x1 y : Qc) : @np_interp exact x x0 x1 y y = y.
Proof.
  unfold np_interp, is_nan, fgtb, fgeb. cbn.
  rewrite (bool_decide_eq_true_2 (x = x)) by done. cbn [negb].
  repeat case_bool_decide; try done; cbn [orb negb andb]; try done.
  unfold Qcdiv. ring.
Qed.

(** X11. In exact arithmetic [transform_x] and [transform_y] return the lower
    bound [xmin] (or [ymin]) for every pixel coordinate and every size: the
    upper bound is not read.  They fail with AttributeError when the size or
    the lower bound is not set, and leave the state as it is. *)
Theorem transform_is_lower_bound :
  forall (st : @app exact) (p : Qc),
    (forall xsize xmin, attrs st !! "xsize" = Some xsize -> attrs st !! "xmin" = Some xmin ->
       @transform_x exact p st = (inr (VFloat (to_float xmin)), st)) /\
    (forall ysize ymin, attrs st !! "ysize" = Some ysize -> attrs st !! "ymin" = Some ymin ->
       @transform_y exact p st = (inr (VFloat (to_float ymin)), st)) /\
    (attrs st !! "xsize" = None -> @transform_x exact p st = (inl (AttributeError "xsize"), st)) /\
    (attrs st !! "ysize" = None -> @transform_y exact p st = (inl (AttributeError "ysize"), st)).
Proof.
  intros st p. split_and!.
  - intros xsize xmin Hs Hm. unfold transform_x, two_point_interp. mrun.
    by rewrite exact_np_interp_flat.
  - intros ysize ymin Hs Hm. unfold transform_y, two_point_interp. mrun.
    by rewrite exact_np_interp_flat.
  - intros Hs. unfold transform_x. by mrun.
  - intros Hs. unfold transform_y. by mrun.
Qed.

(** ** What no handler touches *)

Section CmapFrame.
Context `{R : Runtime}.

Lemma update_image_cmap : preserves (same cmap) update_image.
Proof. unfold update_image, emit. pose proof display_image_cmap. pose proof (compute_image_same cmap). frame. Qed.

(** [self.cmap] is assigned by the colormap handler only. *)
Lemma handle_cmap (ev : event) (st : app) :
  cmap (step st ev) = match ev with SelectCmap name => name | _ => cmap st end.
Proof.
  assert (forall m : M unit, preserves (same cmap) m -> cmap (snd (m st)) = cmap st) as Hsame.
  { intros m Hm. exact (Hm st). }
  pose proof display_image_cmap. pose proof update_image_cmap.
  unfold step.
  destruct ev; unfold handle.
  - apply Hsame. unfold set_text. frame.
  - apply Hsame. unfold on_button_apply_clicked. frame.
  - apply Hsame. unfold on_button_reset_clicked. frame.
  - apply Hsame. unfold on_button_save_clicked. frame.
  - apply Hsame. unfold on_namecombo_changed, emit. frame.
  - unfold on_cmapcombo_changed. rewrite snd_bind. unfold put_cmap at 1. cbn iota.
    set (st1 := App (attrs st) name (entries st) (texts st) (mode st) (has_fig st) (log st)).
    transitivity (cmap st1); [| reflexivity].
    assert (preserves (same cmap)
              (st ← get_state; if has_fig st then display_image;; emit DrawIdle else mret tt))
      as Hm by (unfold emit; frame).
    exact (Hm st1).
  - apply Hsame. unfold on_canvas_button_press. frame.
  - apply Hsame. unfold on_canvas_motion_notify, emit. frame.
  - apply Hsame. unfold on_canvas_button_release, release_bounds. frame.
Qed.
End CmapFrame.

(** X12. Whatever the event, a handler leaves the list of entries as it is;
    of the numeric attributes (the parameters, their [_default] copies and
    the pointer positions) it assigns none but the eleven fields and the four
    pointer positions, so the [_default] attributes keep their values; and
    [self.cmap] is assigned by the colormap handler only, which sets it to the
    chosen name.  (The entries are assumed to be among those attributes, as
    they are from start-up on.  The patches [self.rectangle1] and
    [self.rectangle2] of the motion handler are no part of the statement.) *)
Theorem handlers_assign_fields_and_positions_only :
  forall (R : Runtime) (st : app) (ev : event),
    entries st ⊆ assigned ->
    entries (step st ev) = entries st /\
    (forall k, k ∉ assigned -> attrs (step st ev) !! k = attrs st !! k) /\
    cmap (step st ev) = match ev with SelectCmap name => name | _ => cmap st end.
Proof.
  intros R st ev Hsub.
  destruct (handle_within ev st Hsub) as [He Ha].
  split_and!; [exact He | exact Ha | apply handle_cmap].
Qed.

Section HandlerFrameExample.
#[local] Existing Instance binary64.

Lemma handlers_assign_fields_and_positions_only_witness :
  entries sample ⊆ assigned /\
  attrs (step sample (SelectMode Mandelbrot)) !! "x_default" = attrs sample !! "x_default" /\
  cmap (step sample (SelectMode Mandelbrot)) = cmap sample /\
  cmap (step sample (SelectCmap "viridis")) = "viridis".
Proof.
  assert (entries sample ⊆ assigned) as Hsub by exact fields_assigned.
  split; [exact Hsub |].
  split_and!.
  - apply (proj1 (proj2 (handlers_assign_fields_and_positions_only binary64 sample
                           (SelectMode Mandelbrot) Hsub))).
    apply (bool_decide_unpack _). vm_compute. exact I.
  - exact (proj2 (proj2 (handlers_assign_fields_and_positions_only binary64 sample
                           (SelectMode Mandelbrot) Hsub))).
  - exact (proj2 (proj2 (handlers_assign_fields_and_positions_only binary64 sample
                           (SelectCmap "viridis") Hsub))).
Defined.

End HandlerFrameExample.

(** ** Start-up *)

Section StartupDisplay.
Context `{R : Runtime}.

Local Abbreviation dflt := (fun name : string => name +:+ "_default").

Local Abbreviation capture := (fun name : string =>
  v ← getattr name; setattr (dflt name) v;; set_entry_value name).

(** The loop that takes the snapshot changes attributes and entry texts
    only. *)
Lemma capture_loop_cmap (l : list string) : preserves (same cmap) (for_each l capture).
Proof. unfold set_entry_value, set_text, setattr. frame. Qed.

Lemma capture_loop_mode (l : list string) : preserves (same mode) (for_each l capture).
Proof. unfold set_entry_value, set_text, setattr. frame. Qed.

Lemma capture_loop_has_fig (l : list string) : preserves (same has_fig) (for_each l capture).
Proof. unfold set_entry_value, set_text, setattr. frame. Qed.

Lemma capture_loop_log (l : list string) : preserves (same log) (for_each l capture).
Proof. unfold set_entry_value, set_text, setattr. frame. Qed.

(** [display_image] in Julia mode, once the canvas exists and the parameters
    are set: one image of [ysize] rows of [xsize] counts is requested. *)
Lemma display_image_julia (st : app) (C : complex F) (xlim ylim : F * F)
    (nx ny n : Z) (zmax : F) (niter : Z) (xmin xmax ymin ymax : value) :
  has_params st C xlim ylim nx ny n zmax niter ->
  0 <= nx -> 0 <= ny -> 1 <= niter ->
  mode st = Julia -> has_fig st = true -> bounds st xmin xmax ymin ymax ->
  exists img,
    display_image st =
    (inr tt, App (attrs st) (cmap st) (entries st) (texts st) (mode st) (has_fig st)
                 (log st ++ [Imshow (Array2 img) (cmap st) [xmin; xmax; ymin; ymax]])) /\
    length img = Z.to_nat ny /\ Forall (fun row => length row = Z.to_nat nx) img.
Proof.
  intros Hp Hx Hy Hn Hmode Hfig (Hxmin & Hxmax & Hymin & Hymax).
  unfold display_image. unfold mbind at 1, M_bind at 1.
  rewrite (compute_image_dispatch st C xlim ylim nx ny n zmax niter Hp).
  rewrite complex_grid_rows by done. cbv beta iota delta [res_bind].
  rewrite Hmode, bool_decide_eq_true_2 by done.
  set (zz := map _ (range ny)).
  destruct (fractal_array_scalar zz C n zmax niter Hn) as (img & Himg & Hpw).
  rewrite Himg. mrun. rewrite Hfig. mrun.
  exists img. split; [unfold emit; by rewrite Hmode, Hfig |].
  unfold pointwise in Hpw. split.
  - rewrite <- (Forall2_length _ _ _ Hpw). subst zz. by rewrite length_map, range_length.
  - assert (Forall (fun row => length row = Z.to_nat nx) zz) as Hzz.
    { subst zz. apply Forall_map, Forall_forall. intros j _. cbn.
      by rewrite length_map, range_length. }
    clear Himg. induction Hpw as [|r m zz' img' Hrm Hpw IH]; [constructor |].
    apply Forall_cons in Hzz as [Hr Hzz]. constructor; [| by apply IH].
    by rewrite <- (Forall2_length _ _ _ Hrm).
Qed.

End StartupDisplay.

(** X13. Start-up succeeds.  It leaves the eleven entries, the mode Julia and the
    canvas; the colormap is the first of the list given to the combo box (the
    value ['Set3'] of [__init__] only when that list is empty); and the canvas
    has been asked for exactly one image, of 600 rows of 600 counts over the
    rectangle [-1.5, 1.5] x [-1.5, 1.5] in that colormap, after the mode was
    printed once.  The start-up values are assumed printable. *)
Theorem startup_displays_julia_once :
  forall (R : Runtime) (cmaps : list string),
    (forall name v, (name, v) ∈ startup -> printable v) ->
    let st := snd (App_init cmaps blank) in
    fst (App_init cmaps blank) = inr tt /\
    mode st = Julia /\ has_fig st = true /\ entries st = fields /\
    cmap st = hd "Set3"%string cmaps /\
    exists img,
      log st = [Print Julia;
                Imshow (Array2 img) (hd "Set3"%string cmaps)
                  [VFloat (fneg (lit 15 1)); VFloat (lit 15 1);
                   VFloat (fneg (lit 15 1)); VFloat (lit 15 1)]] /\
      length img = 600%nat /\ Forall (fun row => length row = 600%nat) img.
Proof.
  intros R cmaps Hprint. cbv zeta. rewrite App_init_run.
  set (c0 := match cmaps with c :: _ => c | [] => "Set3"%string end).
  assert (c0 = hd "Set3"%string cmaps) as Hc0 by (by destruct cmaps).
  set (st0 := App startup_attrs c0 fields startup_texts Julia false [Print Julia]).
  destruct (capture_loop fields st0) as (st' & Hrun & He & Hd & Hk).
  { intros name [v Hv]%fields_startup. exists v. split; [| by eapply Hprint].
    by apply startup_lookup. }
  { apply fields_defaults_distinct. }
  { apply fields_defaults_NoDup. }
  pose proof (capture_loop_cmap fields st0) as Hcmap.
  pose proof (capture_loop_mode fields st0) as Hmode.
  pose proof (capture_loop_log fields st0) as Hlog.
  unfold same in Hcmap, Hmode, Hlog. rewrite Hrun in Hcmap, Hmode, Hlog.
  cbn [snd cmap mode log st0] in Hcmap, Hmode, Hlog.
  rewrite (bind_run _ _ _ _ _ (bind_run _ (fun _ => setup_image_box) _ _ _ Hrun)).
  cbv beta. unfold setup_image_box, put_fig. cbn [fst snd].
  set (st1 := App (attrs st') (cmap st') (entries st') (texts st') (mode st') true (log st')).
  assert (forall name v, (name, v) ∈ startup -> attrs st1 !! name = Some v) as Hattr.
  { intros name v Hv. subst st1. cbn [attrs]. rewrite Hk; [by apply startup_lookup |].
    intros name' Hname' Heq. apply (fields_defaults_distinct name' name); [done | | done].
    apply fields_startup. eauto. }
  assert (has_params st1 (Complex (fneg (lit 4 1)) (lit 6 1))
            (fneg (lit 15 1), lit 15 1) (fneg (lit 15 1), lit 15 1)
            600 600 2 (lit 40 1) 256 /\
          bounds st1 (VFloat (fneg (lit 15 1))) (VFloat (lit 15 1))
                     (VFloat (fneg (lit 15 1))) (VFloat (lit 15 1))) as [Hp Hb].
  { unfold has_params, bounds. cbn [real imag fst snd].
    rewrite (Hattr "x" (VFloat (fneg (lit 4 1))))
      by (unfold startup; repeat first [apply list_elem_of_here | apply list_elem_of_further]).
    rewrite (Hattr "y" (VFloat (lit 6 1)))
      by (unfold startup; repeat first [apply list_elem_of_here | apply list_elem_of_further]).
    rewrite (Hattr "xmin" (VFloat (fneg (lit 15 1))))
      by (unfold startup; repeat first [apply list_elem_of_here | apply list_elem_of_further]).
    rewrite (Hattr "xmax" (VFloat (lit 15 1)))
      by (unfold startup; repeat first [apply list_elem_of_here | apply list_elem_of_further]).
    rewrite (Hattr "ymin" (VFloat (fneg (lit 15 1))))
      by (unfold startup; repeat first [apply list_elem_of_here | apply list_elem_of_further]).
    rewrite (Hattr "ymax" (VFloat (lit 15 1)))
      by (unfold startup; repeat first [apply list_elem_of_here | apply list_elem_of_further]).
    rewrite (Hattr "xsize" (VInt 600))
      by (unfold startup; repeat first [apply list_elem_of_here | apply list_elem_of_further]).
    rewrite (Hattr "ysize" (VInt 600))
      by (unfold startup; repeat first [apply list_elem_of_here | apply list_elem_of_further]).
    rewrite (Hattr "n" (VInt 2))
      by (unfold startup; repeat first [apply list_elem_of_here | apply list_elem_of_further]).
    rewrite (Hattr "zmax" (VFloat (lit 40 1)))
      by (unfold startup; repeat first [apply list_elem_of_here | apply list_elem_of_further]).
    rewrite (Hattr "niter" (VInt 256))
      by (unfold startup; repeat first [apply list_elem_of_here | apply list_elem_of_further]).
    cbn [fmap option_fmap option_map to_float]. repeat split. }
  destruct (display_image_julia st1 _ _ _ 600 600 2 _ 256 _ _ _ _ Hp
              ltac:(lia) ltac:(lia) ltac:(lia) Hmode eq_refl Hb)
    as (img & Hdisp & Hrows & Hcols).
  rewrite Hdisp. cbn [fst snd mode has_fig entries cmap log st1].
  split_and!; [done | done | done | by rewrite He | by rewrite Hcmap |].
  exists img. rewrite Hlog, Hcmap, <- Hc0. done.
Qed.

Section StartupExample.
#[local] Existing Instance binary64.

Lemma startup_displays_julia_once_witness :
  (forall name v, (name, v) ∈ startup -> printable v) /\
  fst (App_init ["Accent"%string; "Blues"%string] blank) = inr tt /\
  cmap (snd (App_init ["Accent"%string; "Blues"%string] blank)) = "Accent"%string.
Proof.
  split; [exact startup_printable_binary64 |]. split.
  - exact (proj1 (startup_displays_julia_once binary64 ["Accent"%string; "Blues"%string]
                    startup_printable_binary64)).
  - exact (proj1 (proj2 (proj2 (proj2 (proj2
      (startup_displays_julia_once binary64 ["Accent"%string; "Blues"%string]
         startup_printable_binary64)))))).
Defined.

End StartupExample.

(** ** A number that cannot be printed *)

Section UnprintableFacts.
Context `{R : Runtime}.

Local Abbreviation update_field := (fun name : string =>
  val ← get_entry_value name (dtype_of name);
  match val with
  | Some v => setattr name v
  | None => mret tt
  end).

(** The second loop of [update_image] raises when the value of an entry has
    no text; it has changed entry texts only. *)
Lemma refresh_raises (l : list string) :
  forall st name v e,
    name ∈ l -> attrs st !! name = Some v -> value_str v = inl e ->
    exists e' st',
      for_each l set_entry_value st = (inl e', st') /\
      attrs st' = attrs st /\ log st' = log st.
Proof.
  induction l as [|a l IH]; intros st name v e Hin Hv He.
  - by apply elem_of_nil in Hin.
  - cbn [for_each]. unfold mbind at 1, M_bind at 1.
    pose proof (set_entry_value_attrs a st) as Ha.
    pose proof (set_entry_value_log a st) as Hl. unfold same in Ha, Hl.
    destruct (set_entry_value a st) as [[e0 | []] st1] eqn:Hrun; cbn [snd] in Ha, Hl.
    + by exists e0, st1.
    + assert (name ∈ l) as Hin'.
      { apply elem_of_cons in Hin as [-> | Hin]; [| done].
        unfold set_entry_value in Hrun. rewrite bind_getattr, Hv, bind_lift, He in Hrun.
        done. }
      destruct (IH st1 name v e Hin') as (e' & st' & Hrun' & Ha' & Hl'); [congruence | done |].
      exists e', st'. split; [done |]. split; congruence.
Qed.

End UnprintableFacts.

(** X14. Apply: when the text of a float field converts to a number on which [int]
    raises (NaN or an infinity) and no conversion of an entry raises, the
    number is stored in the attribute, and then the handler raises while
    rewriting the entries: no image and no redraw is requested. *)
Theorem apply_stores_unprintable_then_raises :
  forall (R : Runtime) (st : app) (name : string) (x : F) (e : exn),
    (forall n, n ∈ entries st ->
       exists r, parse_entry (text_of st n) (dtype_of n) = inr r) ->
    name ∈ entries st -> dtype_of name = DFloat ->
    py_float (text_of st name) = Some x -> py_int x = inl e ->
    let st' := step st ClickApply in
    (exists e', fst (handle ClickApply st) = inl e') /\
    attrs st' !! name = Some (VFloat x) /\ log st' = log st.
Proof.
  intros R st name x e Hok Hin Hdt Hx He. cbv zeta.
  destruct (update_loop_applies (entries st) st Hok)
    as (st1 & Hrun & _ & He1 & Hl1 & _ & _ & _ & Hsome & _ & _).
  assert (attrs st1 !! name = Some (VFloat x)) as Hv.
  { apply Hsome; [done |]. by apply parse_entry_float_value. }
  assert (value_str (VFloat x) = inl e) as Hs.
  { unfold value_str, int_of. by rewrite He. }
  destruct (refresh_raises (entries st1) st1 name (VFloat x) e) as (e' & st2 & Hrun2 & Ha2 & Hl2);
    [by rewrite He1 | done | done |].
  assert (update_image st = (inl e', st2)) as Hupd.
  { unfold update_image. rewrite bind_get_state.
    rewrite (bind_run _ _ _ _ _ Hrun). rewrite bind_get_state.
    unfold mbind at 1, M_bind at 1. by rewrite Hrun2. }
  unfold step, handle, on_button_apply_clicked. rewrite Hupd. cbn [fst snd].
  split_and!; [by exists e' | by rewrite Ha2 | congruence].
Qed.

Section UnprintableExample.
#[local] Existing Instance binary64.

(** On [sample] with [nan] typed into the entry [zmax]. *)
Lemma apply_stores_unprintable_then_raises_witness :
  (forall n, n ∈ entries (step sample (TypeEntry "zmax" "nan")) ->
     exists r, parse_entry (text_of (step sample (TypeEntry "zmax" "nan")) n)
                           (dtype_of n) = inr r) /\
  "zmax" ∈ entries (step sample (TypeEntry "zmax" "nan")) /\
  dtype_of "zmax" = DFloat /\
  py_float (text_of (step sample (TypeEntry "zmax" "nan")) "zmax") = Some nan /\
  py_int nan = inl ValueError /\
  exists e', fst (handle ClickApply (step sample (TypeEntry "zmax" "nan"))) = inl e'.
Proof.
  assert (forall n, n ∈ entries (step sample (TypeEntry "zmax" "nan")) ->
     exists r, parse_entry (text_of (step sample (TypeEntry "zmax" "nan")) n)
                           (dtype_of n) = inr r) as Hok.
  { intros name Hin. change (name ∈ fields) in Hin. unfold fields in Hin.
    repeat (apply elem_of_cons in Hin as [-> | Hin];
      [first [ by apply parse_entry_float_field
             | eexists; eapply parse_entry_int_field;
               [reflexivity | vm_compute; reflexivity | vm_compute; reflexivity] ] |]).
    by apply elem_of_nil in Hin. }
  assert ("zmax" ∈ entries (step sample (TypeEntry "zmax" "nan"))) as Hin.
  { change ("zmax" ∈ fields). unfold fields.
    repeat first [apply list_elem_of_here | apply list_elem_of_further]. }
  assert (dtype_of "zmax" = DFloat) as Hdt by reflexivity.
  assert (py_float (text_of (step sample (TypeEntry "zmax" "nan")) "zmax") = Some nan)
    as Hx by (vm_compute; reflexivity).
  assert (py_int nan = inl ValueError) as He by (vm_compute; reflexivity).
  split_and!; [done.. |].
  exact (proj1 (apply_stores_unprintable_then_raises binary64 _ "zmax" nan ValueError
                  Hok Hin Hdt Hx He)).
Defined.

End UnprintableExample.
